(** * Admission and waitlist engine of the event registration bot

    A shallow embedding of the team-size engine of [bot.py]:
    [get_team_total_size], [update_team_size], [process_waitlist_after_change],
    [admin_add_team], the [/close] and [/open] commands, event creation and
    deletion, and the periodic [check_waitlist_and_expiry] pass.

    [bot.py] defines [update_team_size], [process_waitlist_after_change] and
    [admin_add_team] twice at module level; Python binds the later definition
    (lines 2472-3163), so those are the ones embedded here.  They read the
    roster as a dict from team name to a bare integer and the waitlist as a
    list of 2-tuples.

    Conventions of the model:
    - Python [int] is [Z]; timestamps are [Z].
    - a [dict] is an association list in insertion order (the code iterates
      over dicts and stops at the first case-insensitive match, so the order
      matters);
    - team names are ASCII strings, [lower] and [strip] are [str.lower] and
      [str.strip] on ASCII;
    - message delivery, logging and [save_data] are external collaborators
      that return normally and do not touch the store; they are left out;
    - a handler runs to completion before the next request is served. *)

From Stdlib Require Import ZArith List String Ascii Bool Lia.
Import ListNotations.

Local Open Scope string_scope.
Local Open Scope Z_scope.

(** ** Strings: [str.lower] and [str.strip] *)

Definition lower_ascii (c : ascii) : ascii :=
  let n := nat_of_ascii c in
  if (Nat.leb 65 n && Nat.leb n 90)%bool then ascii_of_nat (n + 32) else c.

Fixpoint lower (s : string) : string :=
  match s with
  | EmptyString => EmptyString
  | String c r => String (lower_ascii c) (lower r)
  end.

(** ASCII whitespace as [str.strip] sees it: TAB, LF, VT, FF, CR, the four
    separators 28..31 and the space. *)
Definition is_space (c : ascii) : bool :=
  let n := nat_of_ascii c in
  ((Nat.leb 9 n && Nat.leb n 13) || (Nat.leb 28 n && Nat.leb n 32))%bool.

Fixpoint lstrip (s : string) : string :=
  match s with
  | EmptyString => EmptyString
  | String c r => if is_space c then lstrip r else s
  end.

Fixpoint rstrip (s : string) : string :=
  match s with
  | EmptyString => EmptyString
  | String c r =>
      match rstrip r with
      | EmptyString => if is_space c then EmptyString else String c EmptyString
      | r' => String c r'
      end
  end.

Definition strip (s : string) : string := rstrip (lstrip s).

(** Python truthiness of a string: the empty string is falsy. *)
Definition truthy (s : string) : bool := negb (s =? "")%string.

(** ** Dicts as association lists in insertion order *)

Section Dict.
Context {V : Type}.

Definition dict := list (string * V).

(** [d.get(k)] *)
Fixpoint dict_get (d : dict) (k : string) : option V :=
  match d with
  | [] => None
  | (k', v) :: r => if (k' =? k)%string then Some v else dict_get r k
  end.

(** [d.get(k, default)] *)
Definition dict_get_default (d : dict) (k : string) (default : V) : V :=
  match dict_get d k with Some v => v | None => default end.

(** [k in d] *)
Definition dict_mem (d : dict) (k : string) : bool :=
  match dict_get d k with Some _ => true | None => false end.

(** [d[k] = v]: an existing key keeps its position, a new key goes last. *)
Fixpoint dict_set (d : dict) (k : string) (v : V) : dict :=
  match d with
  | [] => [(k, v)]
  | (k', v') :: r =>
      if (k' =? k)%string then (k, v) :: r else (k', v') :: dict_set r k v
  end.

(** [d.pop(k)] / [del d[k]], the dict that is left. *)
Fixpoint dict_pop (d : dict) (k : string) : dict :=
  match d with
  | [] => []
  | (k', v') :: r => if (k' =? k)%string then r else (k', v') :: dict_pop r k
  end.

(** [for name in d: if name.lower() == team_name: ...; break]:
    the first entry whose key matches case-insensitively. *)
Definition find_ci (d : dict) (team_name : string) : option (string * V) :=
  find (fun p => (lower (fst p) =? team_name)%string) d.
End Dict.

Arguments dict V : clear implicits.

(** ** Lists updated by index *)

Section ListIndex.
Context {A : Type}.

(** [l[i] = x]; the index is always one found by [enumerate] over [l]. *)
Fixpoint list_set (l : list A) (i : nat) (x : A) : list A :=
  match l, i with
  | [], _ => []
  | _ :: r, O => x :: r
  | y :: r, S j => y :: list_set r j x
  end.

(** [l.pop(i)], the list that is left. *)
Fixpoint list_pop (l : list A) (i : nat) : list A :=
  match l, i with
  | [], _ => []
  | _ :: r, O => r
  | y :: r, S j => y :: list_pop r j
  end.

(** The indices [i], counted from [start], at which [p] holds
    ([for i, e in enumerate(l): if p(e): out.append(i)]). *)
Fixpoint indices_from (p : A -> bool) (start : nat) (l : list A) : list nat :=
  match l with
  | [] => []
  | x :: r =>
      if p x then start :: indices_from p (S start) r
      else indices_from p (S start) r
  end.

(** [for i, e in enumerate(l): if p(e): ...; break]: index and element of
    the first hit. *)
Fixpoint find_index_from (p : A -> bool) (start : nat) (l : list A)
  : option (nat * A) :=
  match l with
  | [] => None
  | x :: r => if p x then Some (start, x) else find_index_from p (S start) r
  end.
End ListIndex.

(** ** The two on-disk shapes and [get_team_total_size] (lines 94-165) *)

(** A roster value: a bare integer (old shape) or a dict that may hold the
    keys ["size"] and ["id"] (new shape). *)
Inductive TeamData : Type :=
| BareSize (size : Z)
| WithId (size : option Z) (id : option string).

(** A waitlist entry: [(team_name, size)] or [(team_name, size, team_id)]. *)
Inductive WaitEntry : Type :=
| Entry2 (team_name : string) (size : Z)
| Entry3 (team_name : string) (size : Z) (team_id : option string).

(** The 5-tuple returned by [get_team_total_size]. *)
Record TeamTotal : Type := mkTeamTotal {
  event_size : Z;
  waitlist_size : Z;
  total_size : Z;
  registered_name : option string;
  waitlist_entries : list (nat * string * Z * option string)
}.

(** [event["teams"] and isinstance(next(iter(event["teams"].values())), dict)] *)
Definition using_team_ids (teams : dict TeamData) : bool :=
  match teams with
  | (_, WithId _ _) :: _ => true
  | _ => false
  end.

(** [event["waitlist"] and len(event["waitlist"][0]) > 2] *)
Definition using_waitlist_ids (waitlist : list WaitEntry) : bool :=
  match waitlist with
  | Entry3 _ _ _ :: _ => true
  | _ => false
  end.

(** The roster lookup of either branch: [(event_size, registered_name)].
    [None] is an uncaught exception: in the new-shape branch [data.get] on an
    integer, in the old-shape branch a dict that reaches
    [event_size + waitlist_size]. *)
Definition lookup_event_size (teams : dict TeamData) (team_name : string)
  : option (Z * option string) :=
  match find_ci teams team_name with
  | None => Some (0, None)
  | Some (n, data) =>
      if using_team_ids teams then
        match data with
        | WithId size _ => Some (match size with Some z => z | None => 0 end, Some n)
        | BareSize _ => None
        end
      else
        match data with
        | BareSize size => Some (size, Some n)
        | WithId _ _ => None
        end
  end.

(** New-shape waitlist loop: entries shorter than 3 are skipped. *)
Fixpoint scan_waitlist_ids (team_name : string) (i : nat) (waitlist : list WaitEntry)
  : list (nat * string * Z * option string) * Z :=
  match waitlist with
  | [] => ([], 0)
  | Entry3 wl_team wl_size wl_team_id :: r =>
      let '(entries, size) := scan_waitlist_ids team_name (S i) r in
      if (lower wl_team =? team_name)%string
      then ((i, wl_team, wl_size, wl_team_id) :: entries, wl_size + size)
      else (entries, size)
  | Entry2 _ _ :: r => scan_waitlist_ids team_name (S i) r
  end.

(** Old-shape waitlist loop: [for i, (wl_team, wl_size) in enumerate(...)]
    raises on a 3-tuple. *)
Fixpoint scan_waitlist_legacy (team_name : string) (i : nat) (waitlist : list WaitEntry)
  : option (list (nat * string * Z * option string) * Z) :=
  match waitlist with
  | [] => Some ([], 0)
  | Entry2 wl_team wl_size :: r =>
      match scan_waitlist_legacy team_name (S i) r with
      | None => None
      | Some (entries, size) =>
          if (lower wl_team =? team_name)%string
          then Some ((i, wl_team, wl_size, None) :: entries, wl_size + size)
          else Some (entries, size)
      end
  | Entry3 _ _ _ :: _ => None
  end.

Definition get_team_total_size
  (teams : dict TeamData) (waitlist : list WaitEntry) (team_name : string)
  : option TeamTotal :=
  let team_name := lower (strip team_name) in
  match lookup_event_size teams team_name with
  | None => None
  | Some (event_size, registered_name) =>
      let scanned :=
        if using_waitlist_ids waitlist
        then Some (scan_waitlist_ids team_name 0 waitlist)
        else scan_waitlist_legacy team_name 0 waitlist in
      match scanned with
      | None => None
      | Some (waitlist_entries, waitlist_size) =>
          Some (mkTeamTotal event_size waitlist_size (event_size + waitlist_size)
                            registered_name waitlist_entries)
      end
  end.

(** ** The event store *)

(** The event dict of [create_event_internal] (lines 3543-3554).  The engine
    below is the later pair of functions, which unpacks waitlist entries as
    2-tuples and does integer arithmetic on roster values: [teams] and
    [waitlist] are typed accordingly. *)
Record Event : Type := mkEvent {
  ev_name : string;
  ev_date : string;
  ev_time : string;
  ev_description : string;
  teams : dict Z;
  waitlist : list (string * Z);
  max_slots : Z;
  slots_used : Z;
  max_team_size : Z;
  expiry_date : option Z
}.

Definition with_teams (e : Event) (t : dict Z) : Event :=
  mkEvent (ev_name e) (ev_date e) (ev_time e) (ev_description e)
          t (waitlist e) (max_slots e) (slots_used e) (max_team_size e) (expiry_date e).

Definition with_waitlist (e : Event) (w : list (string * Z)) : Event :=
  mkEvent (ev_name e) (ev_date e) (ev_time e) (ev_description e)
          (teams e) w (max_slots e) (slots_used e) (max_team_size e) (expiry_date e).

Definition with_max_slots (e : Event) (m : Z) : Event :=
  mkEvent (ev_name e) (ev_date e) (ev_time e) (ev_description e)
          (teams e) (waitlist e) m (slots_used e) (max_team_size e) (expiry_date e).

Definition with_slots_used (e : Event) (u : Z) : Event :=
  mkEvent (ev_name e) (ev_date e) (ev_time e) (ev_description e)
          (teams e) (waitlist e) (max_slots e) u (max_team_size e) (expiry_date e).

Definition with_max_team_size (e : Event) (m : Z) : Event :=
  mkEvent (ev_name e) (ev_date e) (ev_time e) (ev_description e)
          (teams e) (waitlist e) (max_slots e) (slots_used e) m (expiry_date e).

(** The module-level globals [event_data] and [user_team_assignments].
    [event_data] holds at most the key ['event']; [event_data.clear()] is
    [None]. *)
Record Store : Type := mkStore {
  event_data : option Event;
  user_team_assignments : dict string
}.

(** What the code reads of a Discord interaction: the actor and the two role
    checks [has_role(user, CLAN_REP_ROLE)], [has_role(user, ORGANIZER_ROLE)]. *)
Record Interaction : Type := mkInteraction {
  user_id : string;
  clan_rep : bool;
  organizer : bool
}.

(** [get_event] (lines 56-88): no event, or one with neither name nor date,
    is no event.  The record has every required key, so the defaulting loop
    does nothing. *)
Definition get_event (s : Store) : option Event :=
  match event_data s with
  | None => None
  | Some event =>
      if (negb (truthy (ev_name event)) && negb (truthy (ev_date event)))%bool
      then None else Some event
  end.

(** The roster and waitlist as [get_team_total_size] receives them. *)
Definition stored_teams (e : Event) : dict TeamData :=
  map (fun p => (fst p, BareSize (snd p))) (teams e).

Definition stored_waitlist (e : Event) : list WaitEntry :=
  map (fun p => Entry2 (fst p) (snd p)) (waitlist e).

(** [wl_team.lower() == team_name] *)
Definition waitlist_matches (team_name : string) (entry : string * Z) : bool :=
  (lower (fst entry) =? team_name)%string.

(** ** [process_waitlist_after_change] (lines 2897-2933) *)

(** The [while free_slots > 0 and event["waitlist"]] loop.  Every round
    either pops the head or sets [free_slots = 0], so the loop is a
    recursion on the waitlist.  Returns the waitlist, roster and
    [slots_used] that are left and [processed_teams]. *)
Fixpoint promote_waitlist
  (waitlist : list (string * Z)) (free_slots : Z) (teams : dict Z) (slots_used : Z)
  : list (string * Z) * dict Z * Z * list (string * Z) :=
  match waitlist with
  | [] => ([], teams, slots_used, [])
  | (team_name, size) :: rest =>
      if free_slots >? 0 then
        if size <=? free_slots then
          let '(w, t, u, processed) :=
            promote_waitlist rest (free_slots - size)
              (dict_set teams team_name (dict_get_default teams team_name 0 + size))
              (slots_used + size) in
          (w, t, u, (team_name, size) :: processed)
        else
          ((team_name, size - free_slots) :: rest,
           dict_set teams team_name (dict_get_default teams team_name 0 + free_slots),
           slots_used + free_slots,
           [(team_name, free_slots)])
      else (waitlist, teams, slots_used, [])
  end.

Definition promote_event (free_slots : Z) (event : Event) : Event :=
  let '(w, t, u, _) :=
    promote_waitlist (waitlist event) free_slots (teams event) (slots_used event) in
  with_slots_used (with_teams (with_waitlist event w) t) u.

Definition process_waitlist_after_change (free_slots : Z) (s : Store) : Store :=
  match get_event s with
  | None => s
  | Some event =>
      if (free_slots <=? 0) || (match waitlist event with [] => true | _ => false end)
      then s
      else mkStore (Some (promote_event free_slots event)) (user_team_assignments s)
  end.

(** ** [update_team_size] (lines 2472-2895) *)

(** Lines 2581-2587: the roster part of the cancellation block.  The loop
    walks the keys and pops the first match; [registered_size] is the value
    popped. *)
Definition remove_roster_entry (event : Event) (team_name : string) (total : TeamTotal)
  : Event :=
  if event_size total >? 0 then
    match find_ci (teams event) team_name with
    | Some (registered_name, registered_size) =>
        with_slots_used
          (with_teams event (dict_pop (teams event) registered_name))
          (slots_used event - registered_size)
    | None => event
    end
  else event.

(** Lines 2590-2598: the waitlist part.  The indices are collected in
    ascending order, so [sorted(..., reverse=True)] is their reversal. *)
Definition remove_waitlist_entries (event : Event) (team_name : string) (total : TeamTotal)
  : Event :=
  if waitlist_size total >? 0 then
    let waitlist_indices_to_remove :=
      indices_from (waitlist_matches team_name) 0 (waitlist event) in
    with_waitlist event
      (fold_left list_pop (rev waitlist_indices_to_remove) (waitlist event))
  else event.

(** Lines 2610-2616: every actor assigned to the team is released. *)
Definition release_users (assignments : dict string) (team_name : string) : dict string :=
  let users_to_remove :=
    map fst (filter (fun p => (lower (snd p) =? team_name)%string) assignments) in
  fold_left dict_pop users_to_remove assignments.

(** Lines 2579-2616: the cancellation block, before the promoter runs. *)
Definition unregister_team
  (event : Event) (assignments : dict string) (team_name : string) (total : TeamTotal)
  : Event * dict string :=
  let event := remove_roster_entry event team_name total in
  let event := remove_waitlist_entries event team_name total in
  (event, release_users assignments team_name).

(** [if registered_team_name: teams[registered_team_name] += amount
     else: teams[team_name] = amount], each followed by
    [slots_used += amount] (lines 2708-2716 and 2748-2756). *)
Definition add_to_roster
  (event : Event) (registered_team_name : option string) (team_name : string) (amount : Z)
  : Event :=
  let key :=
    match registered_team_name with
    | Some r => if truthy r then Some r else None
    | None => None
    end in
  match key with
  | Some r =>
      with_slots_used
        (with_teams event (dict_set (teams event) r (dict_get_default (teams event) r 0 + amount)))
        (slots_used event + amount)
  | None =>
      with_slots_used
        (with_teams event (dict_set (teams event) team_name amount))
        (slots_used event + amount)
  end.

(** Lines 2684-2767: the increase block. *)
Definition increase_team_size
  (event : Event) (team_name : string) (total : TeamTotal) (size_difference : Z) : Event :=
  let available_slots := max_slots event - slots_used event in
  let registered_team_name := option_map fst (find_ci (teams event) team_name) in
  let waitlist_hit := find_index_from (waitlist_matches team_name) 0 (waitlist event) in
  if size_difference <=? available_slots then
    add_to_roster event registered_team_name team_name size_difference
  else
    let event_addition := available_slots in
    let waitlist_addition := size_difference - available_slots in
    let event := add_to_roster event registered_team_name team_name event_addition in
    match waitlist_hit with
    | Some (waitlist_index, (waitlist_team_name, _)) =>
        if truthy waitlist_team_name then
          let new_waitlist_size := waitlist_size total + waitlist_addition in
          with_waitlist event
            (list_set (waitlist event) waitlist_index (waitlist_team_name, new_waitlist_size))
        else
          with_waitlist event (waitlist event ++ [(team_name, waitlist_addition)])
    | None =>
        with_waitlist event (waitlist event ++ [(team_name, waitlist_addition)])
    end.

(** Lines 2810-2827: the waitlist part of the decrease block. *)
Definition reduce_waitlist
  (event : Event) (team_name : string) (total : TeamTotal) (waitlist_reduction : Z)
  : Event :=
  let waitlist_hit := find_index_from (waitlist_matches team_name) 0 (waitlist event) in
  match waitlist_hit with
  | Some (waitlist_index, (waitlist_team_name, _)) =>
      if (waitlist_reduction >? 0) && truthy waitlist_team_name then
        let new_waitlist_size := waitlist_size total - waitlist_reduction in
        if new_waitlist_size >? 0 then
          with_waitlist event
            (list_set (waitlist event) waitlist_index (waitlist_team_name, new_waitlist_size))
        else
          with_waitlist event (list_pop (waitlist event) waitlist_index)
      else event
  | None => event
  end.

(** Lines 2803-2808 and 2829-2838: the roster part of the decrease block. *)
Definition reduce_roster
  (event : Event) (team_name : string) (total : TeamTotal) (event_reduction : Z)
  : Event :=
  let registered_team_name := option_map fst (find_ci (teams event) team_name) in
  match registered_team_name with
  | Some r =>
      if (event_reduction >? 0) && truthy r then
        let new_event_size := event_size total - event_reduction in
        if new_event_size >? 0 then
          with_slots_used
            (with_teams event (dict_set (teams event) r new_event_size))
            (slots_used event - event_reduction)
        else
          with_slots_used
            (with_teams event (dict_pop (teams event) r))
            (slots_used event - dict_get_default (teams event) r 0)
      else event
  | None => event
  end.

(** Lines 2794-2838: the decrease block; also returns [event_reduction]. *)
Definition decrease_team_size
  (event : Event) (team_name : string) (total : TeamTotal) (size_difference : Z)
  : Event * Z :=
  let reduction := Z.abs size_difference in
  let waitlist_reduction := Z.min (waitlist_size total) reduction in
  let event_reduction := reduction - waitlist_reduction in
  let event := reduce_waitlist event team_name total waitlist_reduction in
  let event := reduce_roster event team_name total event_reduction in
  (event, event_reduction).

(** Lines 2567-2895: what an accepted request does, given the answer
    [total] of [get_team_total_size].  Every path returns [True]. *)
Definition apply_team_size
  (interaction : Interaction) (team_name : string) (new_size : Z)
  (event : Event) (assignments : dict string) (total : TeamTotal) : Store :=
  let assignments :=
    if (total_size total =? 0) && (new_size >? 0)
    then dict_set assignments (user_id interaction) team_name
    else assignments in
  if new_size =? 0 then
    let '(event, assignments) := unregister_team event assignments team_name total in
    let s := mkStore (Some event) assignments in
    if event_size total >? 0
    then process_waitlist_after_change (event_size total) s
    else s
  else
    let size_difference := new_size - total_size total in
    if size_difference =? 0 then mkStore (Some event) assignments
    else if size_difference >? 0 then
      mkStore (Some (increase_team_size event team_name total size_difference)) assignments
    else
      let '(event, event_reduction) :=
        decrease_team_size event team_name total size_difference in
      let s := mkStore (Some event) assignments in
      if event_reduction >? 0
      then process_waitlist_after_change event_reduction s
      else s.

(** The whole function.  The result is [None] when an exception escapes
    (only [get_team_total_size] can raise), otherwise the returned flag and
    the store that is left. *)
Definition update_team_size
  (interaction : Interaction) (team_name : string) (new_size : Z) (is_admin : bool)
  (s : Store) : option (bool * Store) :=
  if negb (truthy (strip team_name)) then Some (false, s) else
  let team_name := lower (strip team_name) in
  match get_event s with
  | None => Some (false, s)
  | Some event =>
      let assignments := user_team_assignments s in
      if negb is_admin && negb (clan_rep interaction) then Some (false, s) else
      if negb is_admin &&
         (let user_team := lower (dict_get_default assignments (user_id interaction) "") in
          truthy user_team && negb (user_team =? team_name)%string)
      then Some (false, s) else
      if new_size <? 0 then Some (false, s) else
      if (new_size >? max_team_size event) && negb is_admin then Some (false, s) else
      match get_team_total_size (stored_teams event) (stored_waitlist event) team_name with
      | None => None
      | Some total =>
          Some (true, apply_team_size interaction team_name new_size event assignments total)
      end
  end.

(** ** [admin_add_team] (lines 2975-3163) *)

(** [if discord_user_id: user_team_assignments[discord_user_id] = team_name].
    The id is an optional argument; the slash command passes a number, which
    is modelled by its decimal string. *)
Definition assign_user
  (assignments : dict string) (discord_user_id : option string) (team_name : string)
  : dict string :=
  match discord_user_id with
  | Some uid => if truthy uid then dict_set assignments uid team_name else assignments
  | None => assignments
  end.

Definition admin_add_team
  (team_name : string) (size : Z) (discord_user_id : option string)
  (force_waitlist : bool) (s : Store) : bool * Store :=
  match get_event s with
  | None => (false, s)
  | Some event =>
      if dict_mem (teams event) team_name then (false, s) else
      if existsb (fun e => (fst e =? team_name)%string) (waitlist event) then (false, s) else
      if (size <=? 0) || (size >? max_team_size event) then (false, s) else
      let assignments := assign_user (user_team_assignments s) discord_user_id team_name in
      if force_waitlist then
        (true, mkStore (Some (with_waitlist event (waitlist event ++ [(team_name, size)])))
                       assignments)
      else
        let available_slots := max_slots event - slots_used event in
        if size <=? available_slots then
          (true,
           mkStore (Some (with_teams (with_slots_used event (slots_used event + size))
                                     (dict_set (teams event) team_name size)))
                   assignments)
        else if available_slots >? 0 then
          let waitlist_size := size - available_slots in
          let event := with_slots_used event (slots_used event + available_slots) in
          let event := with_teams event (dict_set (teams event) team_name available_slots) in
          (true,
           mkStore (Some (with_waitlist event (waitlist event ++ [(team_name, waitlist_size)])))
                   assignments)
        else
          (true, mkStore (Some (with_waitlist event (waitlist event ++ [(team_name, size)])))
                         assignments)
  end.

(** ** The periodic pass [check_waitlist_and_expiry] (lines 3341-3420) *)

(** Its own promotion loop: only whole teams move, a head that does not fit
    ends the loop ([break]). *)
Fixpoint sweep_waitlist
  (waitlist : list (string * Z)) (available_slots : Z) (teams : dict Z) (slots_used : Z)
  : list (string * Z) * dict Z * Z :=
  match waitlist with
  | [] => ([], teams, slots_used)
  | (team_name, size) :: rest =>
      if available_slots >? 0 then
        if size <=? available_slots then
          sweep_waitlist rest (available_slots - size)
            (dict_set teams team_name (dict_get_default teams team_name 0 + size))
            (slots_used + size)
        else (waitlist, teams, slots_used)
      else (waitlist, teams, slots_used)
  end.

(** One round of the [while not bot.is_closed()] loop, after the sleep;
    [now] is [datetime.now()]. *)
Definition check_waitlist_and_expiry (now : Z) (s : Store) : Store :=
  match get_event s with
  | None => s
  | Some event =>
      match expiry_date event with
      | None => s
      | Some expiry =>
          if now >? expiry then
            (* event_data.clear(); save_data(event_data, channel_id, user_team_assignments) *)
            mkStore None (user_team_assignments s)
          else if (slots_used event <? max_slots event)
                  && (match waitlist event with [] => false | _ => true end) then
            let available_slots := max_slots event - slots_used event in
            let '(w, t, u) :=
              sweep_waitlist (waitlist event) available_slots (teams event) (slots_used event) in
            mkStore (Some (with_slots_used (with_teams (with_waitlist event w) t) u))
                    (user_team_assignments s)
          else s
      end
  end.

(** ** Commands that depend on [config.py] *)

Section Config.
(** [config.py] is not part of the sources at hand; its constants are
    parameters. *)
Variables DEFAULT_MAX_SLOTS DEFAULT_MAX_TEAM_SIZE EXPANDED_MAX_TEAM_SIZE : Z.

(** [create_event_internal] (lines 3527-3556).  [event_date] is the result
    of [parse_date(date)] ([utils.py], not at hand); the expiry is one day
    later, timestamps being seconds. *)
Definition create_event_internal
  (name date time description : string) (event_date : option Z) (s : Store) : Store :=
  match get_event s with
  | Some _ => s
  | None =>
      match event_date with
      | None => s
      | Some d =>
          mkStore
            (Some (mkEvent name date time description [] []
                           DEFAULT_MAX_SLOTS 0 DEFAULT_MAX_TEAM_SIZE (Some (d + 86400))))
            (user_team_assignments s)
      end
  end.

(** [DeleteConfirmationView.confirm_callback] (lines 2346-2363). *)
Definition delete_event (s : Store) : Store :=
  match get_event s with
  | Some _ => mkStore None []
  | None => s
  end.

(** [/close] (lines 4141-4155). *)
Definition close_command (interaction : Interaction) (s : Store) : Store :=
  match get_event s with
  | None => s
  | Some event =>
      if negb (organizer interaction) then s
      else mkStore (Some (with_max_slots event (slots_used event))) (user_team_assignments s)
  end.

(** [/open] (lines 4174-4213). *)
Definition open_command (interaction : Interaction) (s : Store) : Store :=
  match get_event s with
  | None => s
  | Some event =>
      if negb (organizer interaction) then s
      else
        let event := with_max_slots event DEFAULT_MAX_SLOTS in
        let s := mkStore (Some event) (user_team_assignments s) in
        let new_available_slots := DEFAULT_MAX_SLOTS - slots_used event in
        if new_available_slots >? 0
        then process_waitlist_after_change new_available_slots s
        else s
  end.

(** [/open_reg] (lines 3709-3751): raises the team-size cap. *)
Definition open_registration (interaction : Interaction) (s : Store) : Store :=
  if negb (organizer interaction) then s else
  match get_event s with
  | None => s
  | Some event =>
      let current_max_size := max_team_size event in
      if current_max_size =? DEFAULT_MAX_TEAM_SIZE then
        mkStore (Some (with_max_team_size event EXPANDED_MAX_TEAM_SIZE))
                (user_team_assignments s)
      else if current_max_size =? EXPANDED_MAX_TEAM_SIZE then
        mkStore (Some (with_max_team_size event 99)) (user_team_assignments s)
      else s
  end.

(** [AdminActionView.open_reg_callback] (lines 1936-1973): the button that
    sets the larger cap directly. *)
Definition open_reg_callback (interaction : Interaction) (s : Store) : Store :=
  if negb (organizer interaction) then s else
  match get_event s with
  | None => s
  | Some event =>
      mkStore (Some (with_max_team_size event EXPANDED_MAX_TEAM_SIZE))
              (user_team_assignments s)
  end.

(** [/reset_team_assignment] (lines 3772-3790). *)
Definition reset_team_assignment (interaction : Interaction) (user : string) (s : Store)
  : Store :=
  if negb (organizer interaction) then s else
  if negb (dict_mem (user_team_assignments s) user) then s else
  mkStore (event_data s) (dict_pop (user_team_assignments s) user).

(** ** Runs of the bot *)

Inductive Command : Type :=
| CreateEvent (name date time description : string) (event_date : option Z)
| DeleteEvent
| UpdateTeamSize (interaction : Interaction) (team_name : string) (new_size : Z)
                 (is_admin : bool)
| AdminAddTeam (team_name : string) (size : Z) (discord_user_id : option string)
               (force_waitlist : bool)
| CloseCommand (interaction : Interaction)
| OpenCommand (interaction : Interaction)
| OpenRegistration (interaction : Interaction)
| OpenRegCallback (interaction : Interaction)
| ResetTeamAssignment (interaction : Interaction) (user : string)
| PeriodicCheck (now : Z).

(** One request; [None] when an exception escapes the handler. *)
Definition step (c : Command) (s : Store) : option Store :=
  match c with
  | CreateEvent name date time description event_date =>
      Some (create_event_internal name date time description event_date s)
  | DeleteEvent => Some (delete_event s)
  | UpdateTeamSize interaction team_name new_size is_admin =>
      option_map snd (update_team_size interaction team_name new_size is_admin s)
  | AdminAddTeam team_name size discord_user_id force_waitlist =>
      Some (snd (admin_add_team team_name size discord_user_id force_waitlist s))
  | CloseCommand interaction => Some (close_command interaction s)
  | OpenCommand interaction => Some (open_command interaction s)
  | OpenRegistration interaction => Some (open_registration interaction s)
  | OpenRegCallback interaction => Some (open_reg_callback interaction s)
  | ResetTeamAssignment interaction user => Some (reset_team_assignment interaction user s)
  | PeriodicCheck now => Some (check_waitlist_and_expiry now s)
  end.

(** A sequence of requests, served one at a time. *)
Fixpoint run (cs : list Command) (s : Store) : option Store :=
  match cs with
  | [] => Some s
  | c :: r =>
      match step c s with
      | None => None
      | Some s' => run r s'
      end
  end.
End Config.

(** The store of a bot that has never held an event. *)
Definition empty_store : Store := mkStore None [].

(** The sum of all roster team sizes. *)
Definition sum_sizes (t : dict Z) : Z := fold_right (fun p acc => snd p + acc) 0 t.

(** The total waitlist size of a team, by case-insensitive name. *)
Definition waitlist_total (team_name : string) (w : list (string * Z)) : Z :=
  sum_sizes (filter (waitlist_matches team_name) w).

(** The roster size of a team: the value of the first roster key that
    matches case-insensitively, 0 when there is none. *)
Definition roster_size (team_name : string) (t : dict Z) : Z :=
  match find_ci t team_name with
  | Some (_, size) => size
  | None => 0
  end.

(** The [waitlist_entries] component on an old-shape waitlist. *)
Fixpoint legacy_entries (team_name : string) (i : nat) (w : list (string * Z))
  : list (nat * string * Z * option string) :=
  match w with
  | [] => []
  | (wl_team, wl_size) :: r =>
      if (lower wl_team =? team_name)%string
      then (i, wl_team, wl_size, None) :: legacy_entries team_name (S i) r
      else legacy_entries team_name (S i) r
  end.

(** What [get_team_total_size] answers for a normalised name on the store's
    event (proved below). *)
Definition team_total (event : Event) (team_name : string) : TeamTotal :=
  mkTeamTotal (roster_size team_name (teams event))
              (waitlist_total team_name (waitlist event))
              (roster_size team_name (teams event) + waitlist_total team_name (waitlist event))
              (option_map fst (find_ci (teams event) team_name))
              (legacy_entries team_name 0 (waitlist event)).

(** The request gets past every rejection of [update_team_size]
    (lines 2488-2553): the conjunction of the negated tests, in order. *)
Definition passes_validation
  (interaction : Interaction) (team_name : string) (new_size : Z) (is_admin : bool)
  (s : Store) : bool :=
  truthy (strip team_name) &&
  match get_event s with
  | None => false
  | Some event =>
      negb (negb is_admin && negb (clan_rep interaction)) &&
      negb (negb is_admin &&
            (let user_team :=
               lower (dict_get_default (user_team_assignments s) (user_id interaction) "") in
             truthy user_team && negb (user_team =? lower (strip team_name))%string)) &&
      negb (new_size <? 0) &&
      negb ((new_size >? max_team_size event) && negb is_admin)
  end.

(** The legacy and the current encoding of one roster entry and of one
    waitlist entry. *)
Inductive same_team : string * TeamData -> string * TeamData -> Prop :=
| same_team_intro (n : string) (size : Z) (id : option string) :
    same_team (n, BareSize size) (n, WithId (Some size) id).

Inductive same_entry : WaitEntry -> WaitEntry -> Prop :=
| same_entry_intro (n : string) (size : Z) (id : option string) :
    same_entry (Entry2 n size) (Entry3 n size id).

(** The structural invariant of an event, for the configured capacity
    [default_max_slots]. *)
Definition event_inv (default_max_slots : Z) (event : Event) : Prop :=
  slots_used event = sum_sizes (teams event) /\
  slots_used event <= max_slots event /\
  max_slots event <= default_max_slots /\
  Forall (fun p => 0 <= snd p) (teams event) /\
  Forall (fun p => 0 < snd p) (waitlist event).

(** The state between a removal and the promoter call that follows it:
    [free] slots have just been vacated. *)
Definition event_room (default_max_slots free : Z) (event : Event) : Prop :=
  slots_used event = sum_sizes (teams event) /\
  slots_used event + free <= max_slots event /\
  max_slots event <= default_max_slots /\
  Forall (fun p => 0 <= snd p) (teams event) /\
  Forall (fun p => 0 < snd p) (waitlist event).

Definition store_inv (default_max_slots : Z) (s : Store) : Prop :=
  forall event, event_data s = Some event -> event_inv default_max_slots event.

(** ** Sample actors and stores used in the examples *)

(** A clan representative and an organiser. *)
Definition alice : Interaction := mkInteraction "1001" true false.
Definition olaf : Interaction := mkInteraction "7" false true.

(** A waitlist [[(A,5); (B,3)]] behind a roster of 16 in 20 slots. *)
Definition fifo_event : Event :=
  mkEvent "Cup" "01.01.2030" "20:00" "" [("omega", 16)] [("A", 5); ("B", 3)]
          20 16 9 (Some 100).
Definition fifo_store : Store := mkStore (Some fifo_event) [("1001", "a")].

(** [max_slots = 20], [slots_used = 18], no team "Alpha" yet. *)
Definition nearly_full_event : Event :=
  mkEvent "Cup" "01.01.2030" "20:00" "" [("omega", 18)] [] 20 18 9 (Some 100).
Definition nearly_full_store : Store := mkStore (Some nearly_full_event) [].

(** A full event in which team "alpha" has 1 roster member and one waitlist
    entry of 2. *)
Definition full_event : Event :=
  mkEvent "Cup" "01.01.2030" "20:00" "" [("omega", 19); ("alpha", 1)] [("alpha", 2)]
          20 20 9 (Some 100).
Definition full_store : Store := mkStore (Some full_event) [("1001", "alpha")].

(** Team "Bravo" with roster size 6 and nothing on the waitlist. *)
Definition bravo_event : Event :=
  mkEvent "Cup" "01.01.2030" "20:00" "" [("Bravo", 6)] [] 20 6 9 (Some 100).
Definition bravo_store : Store := mkStore (Some bravo_event) [("1001", "Bravo")].

(** The commands that create an event and close it at once: a full event
    with no team. *)
Definition closed_cup : list Command :=
  [CreateEvent "Cup" "01.01.2030" "20:00" "" (Some 0); CloseCommand olaf].

(** ** Measures used in the further properties *)

(** Everybody the event knows of: the roster members and the waiting ones. *)
Definition headcount (event : Event) : Z :=
  slots_used event + sum_sizes (waitlist event).

(** [name.lower() == team_name] on a roster entry. *)
Definition roster_matches (team_name : string) (entry : string * Z) : bool :=
  (lower (fst entry) =? team_name)%string.

(** Every stored team name is its own lower-case form. *)
Definition names_lower (l : list (string * Z)) : Prop :=
  Forall (fun p => lower (fst p) = fst p) l.

(** A tidy event: lower-case names, and no name twice in the roster or on
    the waitlist. *)
Definition tidy (event : Event) : Prop :=
  names_lower (teams event) /\ names_lower (waitlist event)
  /\ NoDup (map fst (teams event)) /\ NoDup (map fst (waitlist event)).

Definition store_tidy (s : Store) : Prop :=
  forall event, event_data s = Some event -> tidy event.

(** The admin command is given a lower-case team name, as
    [AdminTeamCreateModal.on_submit] does (line 1179:
    [team_name = self.team_name.value.strip().lower()]). *)
Definition admin_name_lower (c : Command) : Prop :=
  match c with
  | AdminAddTeam team_name _ _ _ => lower team_name = team_name
  | _ => True
  end.

(** A short season: two admin teams fill 18 of 20 slots, then "Alpha"
    registers 5 and grows to 7 under another casing. *)
Definition busy_season : list Command :=
  [CreateEvent "Cup" "01.01.2030" "20:00" "" (Some 0);
   AdminAddTeam "omega" 9 None false;
   AdminAddTeam "sigma" 9 None false;
   UpdateTeamSize alice "Alpha" 5 false;
   UpdateTeamSize alice "ALPHA" 7 false].

Definition busy_season_event : Event :=
  mkEvent "Cup" "01.01.2030" "20:00" ""
          [("omega", 9); ("sigma", 9); ("alpha", 2)] [("alpha", 5)]
          20 20 9 (Some 86400).
Definition busy_season_store : Store :=
  mkStore (Some busy_season_event) [("1001", "alpha")].

(** What the roster holds for a team, over every key that matches
    case-insensitively. *)
Definition roster_total (team_name : string) (t : dict Z) : Z :=
  sum_sizes (filter (roster_matches team_name) t).

(** The answer of [get_team_total_size] to a query, [None] when it raises. *)
Definition reported_total (event : Event) (team_name : string) : option Z :=
  option_map total_size
    (get_team_total_size (stored_teams event) (stored_waitlist event) team_name).

(** Six free slots in front of a waitlist of lower-case names. *)
Definition queue_event : Event :=
  mkEvent "Cup" "01.01.2030" "20:00" "" [("omega", 14)] [("alpha", 5); ("beta", 3)]
          20 14 9 (Some 100).
Definition queue_store : Store :=
  mkStore (Some queue_event) [("1001", "alpha"); ("1002", "beta")].

(** [queue_store] after team "alpha" has cancelled. *)
Definition queue_without_alpha : Store :=
  mkStore (Some (mkEvent "Cup" "01.01.2030" "20:00" "" [("omega", 14)] [("beta", 3)]
                         20 14 9 (Some 100)))
          [("1002", "beta")].

(** ** Views and modals of the admin team selection *)

(** [s[n:]] *)
Fixpoint slice_from (n : nat) (s : string) : string :=
  match n, s with
  | O, _ => s
  | S _, EmptyString => EmptyString
  | S m, String _ r => slice_from m r
  end.

(** [TeamUnregisterConfirmationView] with the [has_responded] flag of
    [BaseView] (lines 1246-1250 and 2150-2155). *)
Record TeamUnregisterConfirmationView : Type := mkUnregisterView {
  view_team_name : string;
  view_team_name_lower : string;
  view_is_admin : bool;
  has_responded : bool
}.

Definition new_unregister_view (team_name : string) (is_admin : bool)
  : TeamUnregisterConfirmationView :=
  mkUnregisterView (if truthy team_name then strip team_name else "")
                   (if truthy team_name then lower (strip team_name) else "")
                   is_admin false.

(** [BaseView.check_response] (lines 1281-1300): the answer and the view
    that is left. *)
Definition check_response (view : TeamUnregisterConfirmationView)
  : bool * TeamUnregisterConfirmationView :=
  if has_responded view then (true, view)
  else (false, mkUnregisterView (view_team_name view) (view_team_name_lower view)
                                (view_is_admin view) true).

(** [confirm_callback] (lines 2157-2276).  The sizes it collects only feed
    the message; an exception of [update_team_size] is caught. *)
Definition confirm_callback
  (interaction : Interaction) (view : TeamUnregisterConfirmationView) (s : Store)
  : TeamUnregisterConfirmationView * Store :=
  if negb (truthy (view_team_name view)) then (view, s) else
  let '(already, view) := check_response view in
  if already then (view, s)
  else
    match update_team_size interaction (view_team_name view) 0 (view_is_admin view) s with
    | Some (_, s') => (view, s')
    | None => (view, s)
    end.

(** [cancel_callback] (lines 2278-2310). *)
Definition cancel_callback
  (interaction : Interaction) (view : TeamUnregisterConfirmationView) (s : Store)
  : TeamUnregisterConfirmationView * Store :=
  let '(_, view) := check_response view in (view, s).

Inductive Button : Type := ConfirmButton | CancelButton.

Definition press
  (b : Button) (interaction : Interaction) (view : TeamUnregisterConfirmationView)
  (s : Store) : TeamUnregisterConfirmationView * Store :=
  match b with
  | ConfirmButton => confirm_callback interaction view s
  | CancelButton => cancel_callback interaction view s
  end.

(** [TeamEditModal] (lines 1085-1110): what [on_submit] reads later. *)
Record TeamEditModal : Type := mkTeamEditModal {
  modal_team_name : string;
  modal_current_size : Z;
  modal_is_admin : bool
}.

Definition new_team_edit_modal (team_name : string) (current_size : Z) (is_admin : bool)
  : TeamEditModal :=
  mkTeamEditModal (strip team_name) current_size is_admin.

(** [TeamEditModal.on_submit] (lines 1112-1129); [team_size] is the result
    of [int(self.team_size.value)], [None] for a [ValueError]. *)
Definition team_edit_on_submit
  (modal : TeamEditModal) (interaction : Interaction) (team_size : option Z) (s : Store)
  : option Store :=
  match team_size with
  | None => Some s
  | Some new_size =>
      option_map snd
        (update_team_size interaction (modal_team_name modal) new_size
                          (modal_is_admin modal) s)
  end.

(** [AdminTeamSelector.get_team_options] (lines 1350-1379).  An option is
    represented by its [value], the one field [team_selected] reads. *)
Definition get_team_options (s : Store) : list string :=
  match get_event s with
  | None => []
  | Some event =>
      (map fst (teams event)
       ++ map (fun entry => ("waitlist_" ++ fst entry)%string) (waitlist event))%list
  end.

(** The options of the dropdown (lines 1329-1340). *)
Definition selector_options (s : Store) : list string :=
  match get_team_options s with
  | [] => ["no_teams"]
  | options => options
  end.

(** What [team_selected] answers with. *)
Inductive SelectorResponse : Type :=
| NoTeamsAvailable
| NoActiveEvent
| RemovalConfirmation (view : TeamUnregisterConfirmationView)
| WaitlistTeamNotFound (team_name : string)
| TeamNotFound (team_name : string)
| EditModal (modal : TeamEditModal).

(** [AdminTeamSelector.team_selected] (lines 1381-1460). *)
Definition team_selected (for_removal : bool) (selected_value : string) (s : Store)
  : SelectorResponse :=
  if (selected_value =? "no_teams")%string then NoTeamsAvailable else
  let '(team_name, is_waitlist) :=
    if String.prefix "waitlist_" selected_value
    then (slice_from 9 selected_value, true)
    else (selected_value, false) in
  match get_event s with
  | None => NoActiveEvent
  | Some event =>
      if for_removal then RemovalConfirmation (new_unregister_view team_name true)
      else if is_waitlist then
        match find (fun entry => (fst entry =? team_name)%string) (waitlist event) with
        | Some (_, team_size) => EditModal (new_team_edit_modal team_name team_size true)
        | None => WaitlistTeamNotFound team_name
        end
      else
        match dict_get (teams event) team_name with
        | None => TeamNotFound team_name
        | Some team_size => EditModal (new_team_edit_modal team_name team_size true)
        end
  end.

(** A roster team whose name starts with "waitlist_", next to a waiting
    team "beta". *)
Definition prefixed_event : Event :=
  mkEvent "Cup" "01.01.2030" "20:00" "" [("omega", 16); ("waitlist_beta", 4)]
          [("beta", 3)] 20 20 9 (Some 100).
Definition prefixed_store : Store :=
  mkStore (Some prefixed_event) [("1001", "waitlist_beta"); ("1002", "beta")].

(** Two events with the same name, date and team-size limit. *)
Definition same_header (event event' : Event) : Prop :=
  ev_name event' = ev_name event
  /\ ev_date event' = ev_date event
  /\ max_team_size event' = max_team_size event.

(** [queue_store] after team "alpha" has asked for 7 members. *)
Definition queue_with_alpha_7 : Store :=
  mkStore (Some (mkEvent "Cup" "01.01.2030" "20:00" "" [("omega", 14); ("alpha", 2)]
                         [("alpha", 5); ("beta", 3)] 20 16 9 (Some 100)))
          [("1001", "alpha"); ("1002", "beta")].

(** ** The unregister button and the admin form *)

(** [EventActionView.unregister_callback] (lines 1581-1665): the
    confirmation view that is shown, [None] when the request is turned
    down. *)
Definition unregister_callback (interaction : Interaction) (s : Store)
  : option TeamUnregisterConfirmationView :=
  if negb (clan_rep interaction) then None else
  match dict_get (user_team_assignments s) (user_id interaction) with
  | None => None
  | Some team_name =>
      if negb (truthy team_name) then None else
      match get_event s with
      | None => None
      | Some event =>
          let team_registered := dict_mem (teams event) team_name in
          let team_on_waitlist :=
            existsb (fun entry => (fst entry =? team_name)%string) (waitlist event) in
          if team_registered || team_on_waitlist
          then Some (new_unregister_view team_name false)
          else None
      end
  end.

(** How the look-up of the Discord user in [AdminTeamCreateModal.on_submit]
    ends; it is only made for a non-blank input. *)
Inductive UserLookup : Type :=
| FoundUser (discord_user_id : string)
| NoSuchUser
| NoGuild.

(** [AdminTeamCreateModal.on_submit] (lines 1170-1242); [team_size] is the
    result of [int(self.team_size.value)]. *)
Definition admin_team_create_on_submit
  (interaction : Interaction) (team_name_value : string) (team_size : option Z)
  (add_to_waitlist_value discord_user_value : string) (lookup : UserLookup) (s : Store)
  : Store :=
  if negb (organizer interaction) then s else
  let team_name := lower (strip team_name_value) in
  match team_size with
  | None => s
  | Some size =>
      let force_waitlist :=
        existsb (String.eqb (lower (strip add_to_waitlist_value)))
                ["ja"; "yes"; "true"; "1"; "y"] in
      let discord_user_input := strip discord_user_value in
      if truthy discord_user_input then
        match lookup with
        | FoundUser discord_user_id =>
            snd (admin_add_team team_name size (Some discord_user_id) force_waitlist s)
        | NoSuchUser => s
        | NoGuild => snd (admin_add_team team_name size None force_waitlist s)
        end
      else snd (admin_add_team team_name size None force_waitlist s)
  end.

(** [TeamRegistrationModal.on_submit] (lines 1036-1079); [team_size] is
    the result of [int(self.team_size.value)], [None] for a [ValueError].
    The result is [None] when an exception escapes. *)
Definition team_registration_on_submit
  (interaction : Interaction) (team_name_value : string) (team_size : option Z)
  (s : Store) : option Store :=
  let team_name := strip team_name_value in
  match team_size with
  | None => Some s
  | Some size =>
      match get_event s with
      | None => Some s
      | Some _ =>
          let other_team :=
            match dict_get (user_team_assignments s) (user_id interaction) with
            | Some assigned => negb (lower assigned =? lower team_name)%string
            | None => false
            end in
          if other_team then Some s
          else option_map snd (update_team_size interaction team_name size false s)
      end
  end.

(** * Properties *)

(** Boolean comparisons in hypotheses, as propositions. *)
Ltac zbool :=
  repeat match goal with
  | H : (_ >? _) = true |- _ => apply Z.gtb_lt in H
  | H : (_ >? _) = false |- _ => rewrite Z.gtb_ltb in H; apply Z.ltb_ge in H
  | H : (_ <=? _) = true |- _ => apply Z.leb_le in H
  | H : (_ <=? _) = false |- _ => apply Z.leb_gt in H
  | H : (_ <? _) = true |- _ => apply Z.ltb_lt in H
  | H : (_ <? _) = false |- _ => apply Z.ltb_ge in H
  | H : (_ =? _) = true |- _ => apply Z.eqb_eq in H
  | H : (_ =? _) = false |- _ => apply Z.eqb_neq in H
  end.

(** ** Strings *)

Lemma lower_ascii_idem (c : ascii) : lower_ascii (lower_ascii c) = lower_ascii c.
Proof. destruct c as [[] [] [] [] [] [] [] []]; reflexivity. Qed.

Lemma is_space_lower (c : ascii) : is_space (lower_ascii c) = is_space c.
Proof. destruct c as [[] [] [] [] [] [] [] []]; reflexivity. Qed.

Lemma lower_idem (s : string) : lower (lower s) = lower s.
Proof.
  induction s as [|c r IH]; simpl; [reflexivity|].
  now rewrite lower_ascii_idem, IH.
Qed.

Lemma lower_lstrip (s : string) : lstrip (lower s) = lower (lstrip s).
Proof.
  induction s as [|c r IH]; simpl; [reflexivity|].
  rewrite is_space_lower. destruct (is_space c); [exact IH | reflexivity].
Qed.

Lemma lower_rstrip (s : string) : rstrip (lower s) = lower (rstrip s).
Proof.
  induction s as [|c r IH]; simpl; [reflexivity|].
  rewrite IH, is_space_lower.
  destruct (rstrip r); simpl; [destruct (is_space c)|]; reflexivity.
Qed.

Lemma lower_strip (s : string) : strip (lower s) = lower (strip s).
Proof. unfold strip. now rewrite lower_lstrip, lower_rstrip. Qed.

Lemma rstrip_idem (s : string) : rstrip (rstrip s) = rstrip s.
Proof.
  induction s as [|c r IH]; simpl; [reflexivity|].
  destruct (rstrip r) as [|a r'] eqn:E.
  - destruct (is_space c) eqn:Hc; simpl; [reflexivity | now rewrite Hc].
  - change (rstrip (String c (String a r'))) with
      (match rstrip (String a r') with
       | EmptyString => if is_space c then EmptyString else String c EmptyString
       | r'' => String c r''
       end).
    now rewrite IH.
Qed.

(** A string that does not start with white space keeps its head under
    [rstrip], so [lstrip] has nothing left to do. *)
Lemma lstrip_rstrip_lstrip (s : string) : lstrip (rstrip (lstrip s)) = rstrip (lstrip s).
Proof.
  induction s as [|c r IH]; simpl; [reflexivity|].
  destruct (is_space c) eqn:Hc; [exact IH|].
  simpl. destruct (rstrip r); rewrite ?Hc; simpl; now rewrite Hc.
Qed.

Lemma strip_idem (s : string) : strip (strip s) = strip s.
Proof. unfold strip. now rewrite lstrip_rstrip_lstrip, rstrip_idem. Qed.

(** Normalising a team name twice is normalising it once. *)
Lemma normalise_idem (s : string) : lower (strip (lower (strip s))) = lower (strip s).
Proof. now rewrite lower_strip, lower_idem, strip_idem. Qed.

Lemma truthy_lower (s : string) : truthy (lower s) = truthy s.
Proof. destruct s; reflexivity. Qed.

Lemma truthy_true (s : string) : truthy s = true <-> s <> "".
Proof.
  unfold truthy. destruct (String.eqb_spec s ""); simpl; split; congruence.
Qed.

(** A key that matches a non-empty normalised name is itself non-empty. *)
Lemma matching_key_truthy (n t : string) :
  truthy t = true -> (lower n =? t)%string = true -> truthy n = true.
Proof.
  intros Ht Hn. apply String.eqb_eq in Hn. subst t. now rewrite truthy_lower in Ht.
Qed.

(** ** [get_team_total_size] on the two shapes *)

Lemma find_ci_stored (t : dict Z) (q : string) :
  find_ci (map (fun p => (fst p, BareSize (snd p))) t) q
  = option_map (fun p => (fst p, BareSize (snd p))) (find_ci t q).
Proof.
  unfold find_ci. induction t as [|[n z] r IH]; simpl; [reflexivity|].
  destruct (lower n =? q)%string; [reflexivity | exact IH].
Qed.

Lemma using_team_ids_stored (t : dict Z) :
  using_team_ids (map (fun p => (fst p, BareSize (snd p))) t) = false.
Proof. destruct t as [|[n z] r]; reflexivity. Qed.

Lemma lookup_event_size_stored (t : dict Z) (q : string) :
  lookup_event_size (map (fun p => (fst p, BareSize (snd p))) t) q
  = Some (roster_size q t, option_map fst (find_ci t q)).
Proof.
  unfold lookup_event_size, roster_size.
  rewrite find_ci_stored, using_team_ids_stored.
  destruct (find_ci t q) as [[n z]|]; reflexivity.
Qed.

Lemma scan_waitlist_legacy_stored (q : string) (w : list (string * Z)) (i : nat) :
  scan_waitlist_legacy q i (map (fun p => Entry2 (fst p) (snd p)) w)
  = Some (legacy_entries q i w, waitlist_total q w).
Proof.
  revert i. induction w as [|[n z] r IH]; intro i; simpl; [reflexivity|].
  rewrite IH. unfold waitlist_total, waitlist_matches. simpl.
  destruct (lower n =? q)%string; reflexivity.
Qed.

Lemma using_waitlist_ids_stored (w : list (string * Z)) :
  using_waitlist_ids (map (fun p => Entry2 (fst p) (snd p)) w) = false.
Proof. destruct w as [|[n z] r]; reflexivity. Qed.

(** On the store's own event the query never raises, and answers with the
    first matching roster key and the sum over all matching waitlist
    entries. *)
Lemma get_team_total_size_stored (event : Event) (q : string) :
  get_team_total_size (stored_teams event) (stored_waitlist event) q
  = Some (team_total event (lower (strip q))).
Proof.
  unfold get_team_total_size, stored_teams, stored_waitlist, team_total.
  rewrite lookup_event_size_stored, using_waitlist_ids_stored,
    scan_waitlist_legacy_stored.
  reflexivity.
Qed.

Lemma lookup_event_size_same (lt ct : dict TeamData) (q : string) :
  Forall2 same_team lt ct ->
  exists r, lookup_event_size lt q = Some r /\ lookup_event_size ct q = Some r.
Proof.
  intro H. unfold lookup_event_size.
  assert (Hl : using_team_ids lt = false).
  { destruct H as [|x y l l' Hxy _]; [reflexivity | now destruct Hxy]. }
  assert (Hfind :
    (find_ci lt q = None /\ find_ci ct q = None) \/
    (exists n z id, find_ci lt q = Some (n, BareSize z)
                    /\ find_ci ct q = Some (n, WithId (Some z) id)
                    /\ using_team_ids ct = true)).
  { clear Hl. unfold find_ci.
    induction H as [|x y l l' Hxy Hrest IH]; [now left|].
    destruct Hxy as [n z id]. simpl.
    destruct (lower n =? q)%string.
    - right. now exists n, z, id.
    - destruct IH as [IH | (n' & z' & id' & H1 & H2 & _)]; [now left|].
      right. now exists n', z', id'. }
  rewrite Hl.
  destruct Hfind as [[H1 H2] | (n & z & id & H1 & H2 & H3)].
  - rewrite H1, H2. now exists (0, None).
  - rewrite H1, H2, H3. now exists (z, Some n).
Qed.

Lemma scan_waitlist_same (lw cw : list WaitEntry) (q : string) :
  Forall2 same_entry lw cw ->
  forall i, exists el ec size,
    scan_waitlist_legacy q i lw = Some (el, size)
    /\ scan_waitlist_ids q i cw = (ec, size).
Proof.
  induction 1 as [|x y l l' Hxy Hrest IH]; intro i; simpl.
  - now exists [], [], 0.
  - destruct Hxy as [n z id].
    destruct (IH (S i)) as (el & ec & size & H1 & H2).
    rewrite H1, H2.
    destruct (lower n =? q)%string; eauto.
Qed.

(** C10.  Round trip of the two on-disk shapes: a roster and a waitlist
    that hold the same teams, once with bare sizes and 2-tuples and once
    with [{size, id}] records and 3-tuples, give the same
    [(event_size, waitlist_size, total_size)] for every queried name, and
    the query raises on neither. *)
Theorem get_team_total_size_shape_independent
  (lt ct : dict TeamData) (lw cw : list WaitEntry) (q : string) :
  Forall2 same_team lt ct ->
  Forall2 same_entry lw cw ->
  exists a b,
    get_team_total_size lt lw q = Some a
    /\ get_team_total_size ct cw q = Some b
    /\ event_size a = event_size b
    /\ waitlist_size a = waitlist_size b
    /\ total_size a = total_size b.
Proof.
  intros Ht Hw. unfold get_team_total_size.
  destruct (lookup_event_size_same lt ct (lower (strip q)) Ht) as ([ez rn] & H1 & H2).
  rewrite H1, H2.
  destruct (scan_waitlist_same lw cw (lower (strip q)) Hw 0%nat) as (el & ec & size & H3 & H4).
  assert (Hl : using_waitlist_ids lw = false).
  { destruct Hw as [|x y l l' Hxy _]; [reflexivity | now destruct Hxy]. }
  rewrite Hl, H3.
  destruct cw as [|y cw'].
  - inversion Hw; subst. simpl in *. inversion H3; subst.
    eexists; eexists; repeat split; reflexivity.
  - assert (Hc : using_waitlist_ids (y :: cw') = true).
    { inversion Hw as [|x y' l l' Hxy _]; subst. now destruct Hxy. }
    rewrite Hc, H4.
    eexists; eexists; repeat split; reflexivity.
Qed.

Lemma get_team_total_size_shape_independent_witness :
  exists a b,
    get_team_total_size [("Alpha", BareSize 4); ("Bravo", BareSize 6)]
                        [Entry2 "alpha" 3; Entry2 "Charlie" 2] " ALPHA " = Some a
    /\ get_team_total_size
         [("Alpha", WithId (Some 4) (Some "id-a")); ("Bravo", WithId (Some 6) (Some "id-b"))]
         [Entry3 "alpha" 3 (Some "id-a"); Entry3 "Charlie" 2 (Some "id-c")] " ALPHA " = Some b
    /\ event_size a = event_size b
    /\ waitlist_size a = waitlist_size b
    /\ total_size a = total_size b.
Proof.
  apply get_team_total_size_shape_independent.
  - repeat constructor.
  - repeat constructor.
Defined.

(** ** Dicts and lists *)

Lemma sum_sizes_app (a b : dict Z) : sum_sizes (a ++ b)%list = sum_sizes a + sum_sizes b.
Proof. unfold sum_sizes. induction a as [|p r IH]; simpl; lia. Qed.

Lemma sum_sizes_dict_set (d : dict Z) (k : string) (v : Z) :
  sum_sizes (dict_set d k v) = sum_sizes d - dict_get_default d k 0 + v.
Proof.
  unfold dict_get_default.
  induction d as [|[k' v'] r IH]; simpl; [lia|].
  destruct (k' =? k)%string; simpl; [lia|].
  fold (sum_sizes (dict_set r k v)) (sum_sizes r). rewrite IH. lia.
Qed.

Lemma sum_sizes_dict_pop (d : dict Z) (k : string) :
  sum_sizes (dict_pop d k) = sum_sizes d - dict_get_default d k 0.
Proof.
  unfold dict_get_default.
  induction d as [|[k' v'] r IH]; simpl; [lia|].
  destruct (k' =? k)%string; simpl; [lia|].
  fold (sum_sizes (dict_pop r k)) (sum_sizes r). rewrite IH. lia.
Qed.

Section ForallUpdates.
Context {A : Type} (P : A -> Prop).

Lemma Forall_list_set (l : list A) (i : nat) (x : A) :
  Forall P l -> P x -> Forall P (list_set l i x).
Proof.
  intros Hl Hx. revert i.
  induction Hl as [|y r Hy Hr IH]; intros [|j]; simpl; auto.
Qed.

Lemma Forall_list_pop (l : list A) (i : nat) :
  Forall P l -> Forall P (list_pop l i).
Proof.
  intros Hl. revert i.
  induction Hl as [|y r Hy Hr IH]; intros [|j]; simpl; auto.
Qed.

Lemma Forall_pop_all (idxs : list nat) (l : list A) :
  Forall P l -> Forall P (fold_left list_pop idxs l).
Proof.
  revert l. induction idxs as [|i r IH]; simpl; intros l Hl; [exact Hl|].
  apply IH, Forall_list_pop, Hl.
Qed.
End ForallUpdates.

Section ForallDict.
Context {V : Type} (P : string * V -> Prop).

Lemma Forall_dict_set (d : dict V) (k : string) (v : V) :
  Forall P d -> P (k, v) -> Forall P (dict_set d k v).
Proof.
  intros Hd Hv.
  induction Hd as [|[k' v'] r Hy Hr IH]; simpl; [now constructor|].
  destruct (k' =? k)%string; constructor; auto.
Qed.

Lemma Forall_dict_pop (d : dict V) (k : string) :
  Forall P d -> Forall P (dict_pop d k).
Proof.
  intros Hd.
  induction Hd as [|[k' v'] r Hy Hr IH]; simpl; [constructor|].
  destruct (k' =? k)%string; [assumption | now constructor].
Qed.
End ForallDict.

Lemma dict_get_default_nonneg (d : dict Z) (k : string) :
  Forall (fun p => 0 <= snd p) d -> 0 <= dict_get_default d k 0.
Proof.
  unfold dict_get_default.
  induction 1 as [|[k' v'] r Hy Hr IH]; simpl; [lia|].
  destruct (k' =? k)%string; [exact Hy | exact IH].
Qed.

Lemma sum_sizes_nonneg (d : dict Z) :
  Forall (fun p => 0 <= snd p) d -> 0 <= sum_sizes d.
Proof.
  unfold sum_sizes. induction 1 as [|p r Hp Hr IH]; simpl; lia.
Qed.

Lemma waitlist_total_nonneg (q : string) (w : list (string * Z)) :
  Forall (fun p => 0 < snd p) w -> 0 <= waitlist_total q w.
Proof.
  unfold waitlist_total, sum_sizes.
  induction 1 as [|p r Hp Hr IH]; simpl; [lia|].
  destruct (waitlist_matches q p); simpl; lia.
Qed.

(** The first case-insensitive match is also what a lookup by its exact key
    returns. *)
Lemma find_ci_key {V : Type} (d : dict V) (q n : string) (v : V) :
  find_ci d q = Some (n, v) -> (lower n =? q)%string = true.
Proof.
  unfold find_ci. intro H. apply find_some in H. exact (proj2 H).
Qed.

Lemma find_ci_get {V : Type} (d : dict V) (q n : string) (v : V) :
  find_ci d q = Some (n, v) -> dict_get d n = Some v.
Proof.
  intro H. pose proof (find_ci_key d q n v H) as Hn. revert H.
  unfold find_ci. induction d as [|[k x] r IH]; simpl; [discriminate|].
  destruct (lower k =? q)%string eqn:Hk.
  - intro H. injection H as -> ->. now rewrite String.eqb_refl.
  - intro H. destruct (String.eqb_spec k n) as [->|_]; [congruence | exact (IH H)].
Qed.

(** No case-insensitive match for a lower-case name: the name is not a key. *)
Lemma find_ci_none_get {V : Type} (d : dict V) (q : string) :
  lower q = q -> find_ci d q = None -> dict_get d q = None.
Proof.
  intros Hq. unfold find_ci.
  induction d as [|[k x] r IH]; simpl; [reflexivity|].
  destruct (lower k =? q)%string eqn:Hk; [discriminate|].
  intro H. destruct (String.eqb_spec k q) as [->|_]; [|exact (IH H)].
  rewrite Hq, String.eqb_refl in Hk. discriminate.
Qed.

Lemma roster_size_nonneg (q : string) (d : dict Z) :
  Forall (fun p => 0 <= snd p) d -> 0 <= roster_size q d.
Proof.
  intro H. unfold roster_size.
  destruct (find_ci d q) as [[n v]|] eqn:E; [|lia].
  apply find_ci_get in E.
  pose proof (dict_get_default_nonneg d n H) as Hn.
  unfold dict_get_default in Hn. now rewrite E in Hn.
Qed.

Lemma get_event_Some (s : Store) (event : Event) :
  get_event s = Some event -> event_data s = Some event.
Proof.
  unfold get_event. destruct (event_data s) as [e|]; [|discriminate].
  destruct (_ && _)%bool; [discriminate | exact (fun H => H)].
Qed.

(** ** The promoter keeps the books *)

Lemma event_room_inv (D f : Z) (event : Event) :
  0 <= f -> event_room D f event -> event_inv D event.
Proof. unfold event_room, event_inv. intuition lia. Qed.

Lemma event_inv_room (D : Z) (event : Event) :
  event_inv D event -> event_room D 0 event.
Proof. unfold event_room, event_inv. intuition lia. Qed.

(** What one call of the loop moves: the roster grows by exactly what
    [slots_used] grows, by no more than [free_slots]. *)
Lemma promote_waitlist_books (w : list (string * Z)) :
  forall (f : Z) (t : dict Z) (u : Z) w' t' u' pr,
    promote_waitlist w f t u = (w', t', u', pr) ->
    Forall (fun p => 0 < snd p) w ->
    Forall (fun p => 0 <= snd p) t ->
    sum_sizes t' - sum_sizes t = u' - u
    /\ u <= u' /\ u' - u <= Z.max 0 f
    /\ Forall (fun p => 0 < snd p) w'
    /\ Forall (fun p => 0 <= snd p) t'.
Proof.
  induction w as [|[n z] r IH]; intros f t u w' t' u' pr H Hw Ht; simpl in H.
  - injection H as <- <- <- <-. repeat split; auto; lia.
  - inversion Hw as [|? ? Hz Hr]; subst. simpl in Hz.
    pose proof (dict_get_default_nonneg t n Ht) as Hn.
    destruct (f >? 0) eqn:Hf.
    + apply Z.gtb_lt in Hf.
      destruct (z <=? f) eqn:Hzf.
      * apply Z.leb_le in Hzf.
        destruct (promote_waitlist r (f - z) _ _) as [[[w1 t1] u1] p1] eqn:E.
        injection H as <- <- <- <-.
        apply IH in E; auto.
        -- destruct E as (E1 & E2 & E3 & E4 & E5).
           rewrite sum_sizes_dict_set in E1.
           repeat split; auto; lia.
        -- apply Forall_dict_set; auto. simpl. lia.
      * apply Z.leb_gt in Hzf.
        injection H as <- <- <- <-.
        rewrite sum_sizes_dict_set.
        repeat split; try lia.
        -- constructor; auto. simpl. lia.
        -- apply Forall_dict_set; auto. simpl. lia.
    + injection H as <- <- <- <-. repeat split; auto; lia.
Qed.

Lemma promote_event_inv (D f : Z) (event : Event) :
  0 <= f -> event_room D f event -> event_inv D (promote_event f event).
Proof.
  intros Hf (H1 & H2 & H3 & H4 & H5). unfold promote_event.
  destruct (promote_waitlist _ _ _ _) as [[[w t] u] pr] eqn:E.
  apply promote_waitlist_books in E; auto.
  destruct E as (E1 & E2 & E3 & E4 & E5).
  unfold event_inv. simpl. repeat split; auto; lia.
Qed.

Lemma process_waitlist_inv (D f : Z) (s : Store) (event : Event) :
  0 <= f -> event_data s = Some event -> event_room D f event ->
  store_inv D (process_waitlist_after_change f s).
Proof.
  intros Hf Hs Hroom. unfold process_waitlist_after_change.
  assert (Hkeep : store_inv D s).
  { intros e He. rewrite Hs in He. injection He as <-.
    exact (event_room_inv D f event Hf Hroom). }
  destruct (get_event s) as [e|] eqn:He; [|exact Hkeep].
  apply get_event_Some in He. rewrite Hs in He. injection He as <-.
  destruct (_ || _)%bool; [exact Hkeep|].
  intros e He. simpl in He. injection He as <-.
  now apply promote_event_inv.
Qed.

Lemma sweep_waitlist_books (w : list (string * Z)) :
  forall (f : Z) (t : dict Z) (u : Z) w' t' u',
    sweep_waitlist w f t u = (w', t', u') ->
    Forall (fun p => 0 < snd p) w ->
    Forall (fun p => 0 <= snd p) t ->
    sum_sizes t' - sum_sizes t = u' - u
    /\ u <= u' /\ u' - u <= Z.max 0 f
    /\ Forall (fun p => 0 < snd p) w'
    /\ Forall (fun p => 0 <= snd p) t'.
Proof.
  induction w as [|[n z] r IH]; intros f t u w' t' u' H Hw Ht; simpl in H.
  - injection H as <- <- <-. repeat split; auto; lia.
  - inversion Hw as [|? ? Hz Hr]; subst. simpl in Hz.
    pose proof (dict_get_default_nonneg t n Ht) as Hn.
    destruct (f >? 0) eqn:Hf.
    + apply Z.gtb_lt in Hf.
      destruct (z <=? f) eqn:Hzf.
      * apply Z.leb_le in Hzf.
        apply IH in H; auto.
        -- destruct H as (E1 & E2 & E3 & E4 & E5).
           rewrite sum_sizes_dict_set in E1.
           repeat split; auto; lia.
        -- apply Forall_dict_set; auto. simpl. lia.
      * injection H as <- <- <-. repeat split; auto; lia.
    + injection H as <- <- <-. repeat split; auto; lia.
Qed.

(** ** The blocks of [update_team_size] keep the books *)

Lemma find_ci_roster_size (d : dict Z) (q n : string) (v : Z) :
  find_ci d q = Some (n, v) -> roster_size q d = v /\ dict_get_default d n 0 = v.
Proof.
  intro H. unfold roster_size, dict_get_default.
  now rewrite H, (find_ci_get d q n v H).
Qed.

Lemma remove_roster_entry_room (D : Z) (event : Event) (q : string) :
  event_inv D event ->
  event_room D (Z.max 0 (roster_size q (teams event)))
             (remove_roster_entry event q (team_total event q)).
Proof.
  intros (H1 & H2 & H3 & H4 & H5). unfold remove_roster_entry. simpl.
  destruct (roster_size q (teams event) >? 0) eqn:Hs.
  - apply Z.gtb_lt in Hs.
    destruct (find_ci (teams event) q) as [[n v]|] eqn:E.
    + destruct (find_ci_roster_size _ _ _ _ E) as [Hv Hg].
      unfold event_room. simpl. rewrite sum_sizes_dict_pop, Hg.
      repeat split; auto using Forall_dict_pop; lia.
    + unfold roster_size in Hs. rewrite E in Hs. lia.
  - zbool. unfold event_room. repeat split; auto; lia.
Qed.

Lemma remove_waitlist_entries_room (D f : Z) (event : Event) (q : string) (total : TeamTotal) :
  event_room D f event -> event_room D f (remove_waitlist_entries event q total).
Proof.
  intros (H1 & H2 & H3 & H4 & H5). unfold remove_waitlist_entries.
  destruct (waitlist_size total >? 0); unfold event_room; simpl;
    repeat split; auto using Forall_pop_all.
Qed.

Lemma add_to_roster_books (D : Z) (event : Event) (q : string) (amount : Z) :
  event_inv D event -> lower q = q -> truthy q = true ->
  0 <= amount -> slots_used event + amount <= max_slots event ->
  let event' := add_to_roster event (option_map fst (find_ci (teams event) q)) q amount in
  event_inv D event' /\ waitlist event' = waitlist event.
Proof.
  intros (H1 & H2 & H3 & H4 & H5) Hq Ht Ha Hroom. unfold add_to_roster.
  destruct (find_ci (teams event) q) as [[n v]|] eqn:E; simpl.
  - rewrite (matching_key_truthy n q Ht (find_ci_key _ _ _ _ E)).
    pose proof (dict_get_default_nonneg (teams event) n H4) as Hn.
    unfold event_inv. simpl. rewrite sum_sizes_dict_set.
    repeat split; auto; try lia.
    apply Forall_dict_set; auto. simpl. lia.
  - assert (Hg : dict_get_default (teams event) q 0 = 0).
    { unfold dict_get_default. now rewrite (find_ci_none_get _ _ Hq E). }
    unfold event_inv. simpl. rewrite sum_sizes_dict_set, Hg.
    repeat split; auto; try lia.
    apply Forall_dict_set; auto.
Qed.

Lemma increase_team_size_inv (D : Z) (event : Event) (q : string) (d : Z) :
  event_inv D event -> lower q = q -> truthy q = true -> 0 < d ->
  event_inv D (increase_team_size event q (team_total event q) d).
Proof.
  intros Hinv Hq Ht Hd. unfold increase_team_size.
  pose proof Hinv as (H1 & H2 & H3 & H4 & H5).
  destruct (d <=? max_slots event - slots_used event) eqn:Hfit.
  - apply Z.leb_le in Hfit.
    apply (add_to_roster_books D event q d); auto; lia.
  - apply Z.leb_gt in Hfit.
    destruct (add_to_roster_books D event q (max_slots event - slots_used event))
      as [(A1 & A2 & A3 & A4 & A5) Aw]; auto; try lia.
    set (e1 := add_to_roster event _ q _) in *.
    pose proof (waitlist_total_nonneg q (waitlist event) H5) as Hwl.
    assert (Happ : event_inv D
              (with_waitlist e1 (waitlist e1 ++ [(q, d - (max_slots event - slots_used event))]))).
    { unfold event_inv. simpl. repeat split; auto.
      apply Forall_app. split; [exact A5|]. constructor; [simpl; lia | constructor]. }
    destruct (find_index_from _ _ _) as [[i [n z]]|]; [|exact Happ].
    destruct (truthy n); [|exact Happ].
    unfold event_inv. simpl. repeat split; auto.
    apply Forall_list_set; [exact A5|]. simpl. lia.
Qed.

Lemma reduce_waitlist_room (D f : Z) (event : Event) (q : string) (total : TeamTotal) (wr : Z) :
  event_room D f event ->
  event_room D f (reduce_waitlist event q total wr)
  /\ teams (reduce_waitlist event q total wr) = teams event
  /\ slots_used (reduce_waitlist event q total wr) = slots_used event.
Proof.
  intros (H1 & H2 & H3 & H4 & H5). unfold reduce_waitlist.
  destruct (find_index_from _ _ _) as [[i [n z]]|]; [|now repeat split].
  destruct (_ && _)%bool; [|now repeat split].
  destruct (waitlist_size total - wr >? 0) eqn:Hpos; unfold event_room; simpl;
    repeat split; auto using Forall_list_pop.
  apply Forall_list_set; [exact H5|]. simpl. now apply Z.gtb_lt in Hpos.
Qed.

Lemma reduce_roster_room (D : Z) (event : Event) (q : string) (er : Z) (total : TeamTotal) :
  event_inv D event -> truthy q = true ->
  event_size total = roster_size q (teams event) ->
  0 <= er <= roster_size q (teams event) ->
  event_room D er (reduce_roster event q total er).
Proof.
  intros (H1 & H2 & H3 & H4 & H5) Ht Hes Her. unfold reduce_roster.
  destruct (find_ci (teams event) q) as [[n v]|] eqn:E; simpl.
  - destruct (find_ci_roster_size _ _ _ _ E) as [Hv Hg]. rewrite Hv in *.
    rewrite (matching_key_truthy n q Ht (find_ci_key _ _ _ _ E)), andb_true_r.
    destruct (er >? 0) eqn:Hgt; zbool;
      [|unfold event_room; repeat split; auto; lia].
    rewrite Hes.
    destruct (v - er >? 0) eqn:Hpos.
    + apply Z.gtb_lt in Hpos. unfold event_room. simpl.
      rewrite sum_sizes_dict_set, Hg. repeat split; auto; try lia.
      apply Forall_dict_set; auto. simpl. lia.
    + zbool. unfold event_room. simpl.
      rewrite sum_sizes_dict_pop, Hg.
      repeat split; auto using Forall_dict_pop; lia.
  - unfold roster_size in Her. rewrite E in Her.
    unfold event_room. repeat split; auto; lia.
Qed.

Lemma decrease_team_size_room (D : Z) (event : Event) (q : string) (new_size : Z) :
  event_inv D event -> truthy q = true -> 0 <= new_size ->
  new_size - total_size (team_total event q) < 0 ->
  let r := decrease_team_size event q (team_total event q)
                              (new_size - total_size (team_total event q)) in
  0 <= snd r /\ event_room D (snd r) (fst r).
Proof.
  intros Hinv Ht Hn Hd. unfold decrease_team_size. simpl in *.
  pose proof Hinv as (H1 & H2 & H3 & H4 & H5).
  pose proof (roster_size_nonneg q (teams event) H4) as Hes.
  pose proof (waitlist_total_nonneg q (waitlist event) H5) as Hwl.
  set (er := Z.abs _ - Z.min _ _).
  assert (Her : 0 <= er <= roster_size q (teams event)) by (unfold er; lia).
  split; [lia|].
  destruct (reduce_waitlist_room D 0 event q (team_total event q)
              (Z.min (waitlist_total q (waitlist event))
                     (Z.abs (new_size - (roster_size q (teams event)
                                         + waitlist_total q (waitlist event))))))
    as (R1 & R2 & R3); [now apply event_inv_room|].
  set (e1 := reduce_waitlist _ _ _ _) in *.
  apply reduce_roster_room.
  - now apply (event_room_inv D 0).
  - exact Ht.
  - simpl. now rewrite R2.
  - now rewrite R2.
Qed.

(** ** [update_team_size] as a whole *)

(** A request that is turned away leaves the store as it is. *)
Lemma update_team_size_rejected
  (i : Interaction) (q : string) (n : Z) (a : bool) (s : Store) :
  passes_validation i q n a s = false ->
  update_team_size i q n a s = Some (false, s).
Proof.
  unfold passes_validation, update_team_size.
  destruct (truthy (strip q)); simpl; [|reflexivity].
  destruct (get_event s) as [event|]; [|reflexivity].
  destruct (negb a && negb (clan_rep i))%bool; simpl; [reflexivity|].
  destruct (negb a && _)%bool; simpl; [reflexivity|].
  destruct (n <? 0); simpl; [reflexivity|].
  destruct ((n >? max_team_size event) && negb a)%bool; simpl; [reflexivity|].
  discriminate.
Qed.

(** A request that passes is served, never raises and returns [True]. *)
Lemma update_team_size_accepted
  (i : Interaction) (q : string) (n : Z) (a : bool) (s : Store) (event : Event) :
  get_event s = Some event ->
  passes_validation i q n a s = true ->
  update_team_size i q n a s
  = Some (true, apply_team_size i (lower (strip q)) n event (user_team_assignments s)
                                (team_total event (lower (strip q)))).
Proof.
  unfold passes_validation, update_team_size. intros -> H.
  destruct (truthy (strip q)); simpl in *; [|discriminate].
  destruct (negb a && negb (clan_rep i))%bool; simpl in *; [discriminate|].
  destruct (negb a && _)%bool; simpl in *; [discriminate|].
  destruct (n <? 0); simpl in *; [discriminate|].
  destruct ((n >? max_team_size event) && negb a)%bool; simpl in *; [discriminate|].
  now rewrite get_team_total_size_stored, normalise_idem.
Qed.

Lemma passes_validation_facts
  (i : Interaction) (q : string) (n : Z) (a : bool) (s : Store) :
  passes_validation i q n a s = true ->
  truthy (lower (strip q)) = true /\ 0 <= n /\ exists event, get_event s = Some event.
Proof.
  unfold passes_validation. intro H.
  apply andb_true_iff in H. destruct H as [Hq H].
  destruct (get_event s) as [event|]; [|discriminate].
  repeat (apply andb_true_iff in H; destruct H as [H ?]).
  rewrite truthy_lower. repeat split; auto.
  - destruct (n <? 0) eqn:E; [discriminate|]. zbool. lia.
  - now exists event.
Qed.

(** Serving a request keeps the invariant of the store. *)
Lemma apply_team_size_inv
  (D : Z) (i : Interaction) (q : string) (n : Z) (event : Event) (asg : dict string) :
  event_inv D event -> lower q = q -> truthy q = true -> 0 <= n ->
  store_inv D (apply_team_size i q n event asg (team_total event q)).
Proof.
  intros Hinv Hq Ht Hn. unfold apply_team_size.
  match goal with
  | |- context [if ?c then dict_set asg ?k ?v else asg] =>
      generalize (if c then dict_set asg k v else asg); intro asg'
  end.
  destruct (n =? 0) eqn:Hn0.
  - unfold unregister_team.
    pose proof (remove_waitlist_entries_room D _ _ q (team_total event q)
                  (remove_roster_entry_room D event q Hinv)) as Hroom.
    set (e2 := remove_waitlist_entries _ _ _) in *. simpl.
    destruct (roster_size q (teams event) >? 0) eqn:Hs; zbool.
    + apply (process_waitlist_inv D _ _ e2); [lia | reflexivity |].
      now rewrite Z.max_r in Hroom by lia.
    + intros e He. simpl in He. injection He as <-.
      apply (event_room_inv D _ e2 (Z.le_max_l _ _) Hroom).
  - destruct (n - total_size (team_total event q) =? 0) eqn:Hd0.
    + intros e He. simpl in He. now injection He as <-.
    + destruct (n - total_size (team_total event q) >? 0) eqn:Hd; zbool.
      * intros e He. simpl in He. injection He as <-.
        now apply increase_team_size_inv.
      * destruct (decrease_team_size_room D event q n Hinv Ht Hn) as [Her Hroom]; [lia|].
        destruct (decrease_team_size _ _ _ _) as [e2 er]. simpl in Her, Hroom.
        destruct (er >? 0) eqn:Hpos; zbool.
        -- now apply (process_waitlist_inv D er _ e2).
        -- intros e He. simpl in He. injection He as <-.
           now apply (event_room_inv D er).
Qed.

(** ** Every command keeps the invariant *)

Lemma store_inv_of_event (D : Z) (event : Event) (asg : dict string) :
  event_inv D event -> store_inv D (mkStore (Some event) asg).
Proof. intros H e He. simpl in He. now injection He as <-. Qed.

Lemma store_inv_get_event (D : Z) (s : Store) (event : Event) :
  store_inv D s -> get_event s = Some event -> event_inv D event.
Proof. intros H He. apply H. now apply get_event_Some. Qed.

Lemma update_team_size_inv
  (D : Z) (i : Interaction) (q : string) (n : Z) (a : bool) (s : Store) :
  store_inv D s ->
  exists b s', update_team_size i q n a s = Some (b, s') /\ store_inv D s'.
Proof.
  intro Hs. destruct (passes_validation i q n a s) eqn:Hp.
  - destruct (passes_validation_facts i q n a s Hp) as (Ht & Hn & event & He).
    rewrite (update_team_size_accepted i q n a s event He Hp).
    eexists; eexists; split; [reflexivity|].
    apply apply_team_size_inv; auto using lower_idem.
    exact (store_inv_get_event D s event Hs He).
  - rewrite (update_team_size_rejected i q n a s Hp). now exists false, s.
Qed.

Lemma admin_add_team_inv
  (D : Z) (name : string) (size : Z) (uid : option string) (fw : bool) (s : Store) :
  store_inv D s -> store_inv D (snd (admin_add_team name size uid fw s)).
Proof.
  intro Hs. unfold admin_add_team.
  destruct (get_event s) as [event|] eqn:He; [|exact Hs].
  pose proof (store_inv_get_event D s event Hs He) as (H1 & H2 & H3 & H4 & H5).
  destruct (dict_mem (teams event) name) eqn:Hmem; [exact Hs|].
  destruct (existsb _ _); [exact Hs|].
  destruct (size <=? 0) eqn:Hpos; [exact Hs|]. simpl.
  destruct (size >? max_team_size event); [exact Hs|].
  assert (Hg : dict_get_default (teams event) name 0 = 0).
  { unfold dict_mem in Hmem. unfold dict_get_default.
    now destruct (dict_get (teams event) name). }
  zbool.
  assert (Hwl : forall z, 0 < z ->
            Forall (fun p => 0 < snd p) (waitlist event ++ [(name, z)])).
  { intros z Hz. apply Forall_app. split; [exact H5|].
    constructor; [exact Hz | constructor]. }
  destruct fw; simpl.
  - apply store_inv_of_event. unfold event_inv. simpl. repeat split; auto.
  - destruct (size <=? max_slots event - slots_used event) eqn:Hfit; zbool; simpl.
    + apply store_inv_of_event. unfold event_inv. simpl.
      rewrite sum_sizes_dict_set, Hg. repeat split; auto; try lia.
      apply Forall_dict_set; auto. simpl. lia.
    + destruct (max_slots event - slots_used event >? 0) eqn:Hav; zbool; simpl.
      * apply store_inv_of_event. unfold event_inv. simpl.
        rewrite sum_sizes_dict_set, Hg. repeat split; auto; try lia.
        -- apply Forall_dict_set; auto. simpl. lia.
        -- apply Hwl. lia.
      * apply store_inv_of_event. unfold event_inv. simpl. repeat split; auto.
Qed.

Lemma check_waitlist_and_expiry_inv (D now : Z) (s : Store) :
  store_inv D s -> store_inv D (check_waitlist_and_expiry now s).
Proof.
  intro Hs. unfold check_waitlist_and_expiry.
  destruct (get_event s) as [event|] eqn:He; [|exact Hs].
  pose proof (store_inv_get_event D s event Hs He) as (H1 & H2 & H3 & H4 & H5).
  destruct (expiry_date event) as [expiry|]; [|exact Hs].
  destruct (now >? expiry); [intros ev Hev; discriminate|].
  destruct (_ && _)%bool; [|exact Hs].
  destruct (sweep_waitlist _ _ _ _) as [[w t] u] eqn:E.
  apply sweep_waitlist_books in E; auto.
  destruct E as (E1 & E2 & E3 & E4 & E5).
  apply store_inv_of_event. unfold event_inv. simpl. repeat split; auto; lia.
Qed.

Section ConfigInvariant.
Variables D T E : Z.
Hypothesis D_nonneg : 0 <= D.

Lemma create_event_internal_inv
  (name date time description : string) (event_date : option Z) (s : Store) :
  store_inv D s ->
  store_inv D (create_event_internal D T name date time description event_date s).
Proof.
  intro Hs. unfold create_event_internal.
  destruct (get_event s); [exact Hs|].
  destruct event_date as [d|]; [|exact Hs].
  apply store_inv_of_event. unfold event_inv. simpl.
  repeat split; auto; lia.
Qed.

Lemma delete_event_inv (s : Store) : store_inv D s -> store_inv D (delete_event s).
Proof.
  intro Hs. unfold delete_event.
  destruct (get_event s); [intros ev Hev; discriminate | exact Hs].
Qed.

Lemma close_command_inv (i : Interaction) (s : Store) :
  store_inv D s -> store_inv D (close_command i s).
Proof.
  intro Hs. unfold close_command.
  destruct (get_event s) as [event|] eqn:He; [|exact Hs].
  pose proof (store_inv_get_event D s event Hs He) as (H1 & H2 & H3 & H4 & H5).
  destruct (negb (organizer i)); [exact Hs|].
  apply store_inv_of_event. unfold event_inv. simpl. repeat split; auto; lia.
Qed.

Lemma open_command_inv (i : Interaction) (s : Store) :
  store_inv D s -> store_inv D (open_command D i s).
Proof.
  intro Hs. unfold open_command.
  destruct (get_event s) as [event|] eqn:He; [|exact Hs].
  pose proof (store_inv_get_event D s event Hs He) as (H1 & H2 & H3 & H4 & H5).
  destruct (negb (organizer i)); [exact Hs|]. simpl.
  destruct (D - slots_used event >? 0) eqn:Hav; zbool.
  - apply (process_waitlist_inv D (D - slots_used event) _ (with_max_slots event D));
      [lia | reflexivity |].
    unfold event_room. simpl. repeat split; auto; lia.
  - apply store_inv_of_event. unfold event_inv. simpl. repeat split; auto; lia.
Qed.

Lemma open_registration_inv (i : Interaction) (s : Store) :
  store_inv D s -> store_inv D (open_registration T E i s).
Proof.
  intro Hs. unfold open_registration.
  destruct (negb (organizer i)); [exact Hs|].
  destruct (get_event s) as [event|] eqn:He; [|exact Hs].
  pose proof (store_inv_get_event D s event Hs He) as Hinv.
  destruct (max_team_size event =? T); [now apply store_inv_of_event|].
  destruct (max_team_size event =? E); [now apply store_inv_of_event | exact Hs].
Qed.

Lemma open_reg_callback_inv (i : Interaction) (s : Store) :
  store_inv D s -> store_inv D (open_reg_callback E i s).
Proof.
  intro Hs. unfold open_reg_callback.
  destruct (negb (organizer i)); [exact Hs|].
  destruct (get_event s) as [event|] eqn:He; [|exact Hs].
  apply store_inv_of_event. exact (store_inv_get_event D s event Hs He).
Qed.

Lemma reset_team_assignment_inv (i : Interaction) (user : string) (s : Store) :
  store_inv D s -> store_inv D (reset_team_assignment i user s).
Proof.
  intro Hs. unfold reset_team_assignment.
  destruct (negb (organizer i)); [exact Hs|].
  destruct (negb (dict_mem _ _)); [exact Hs|].
  intros e He. exact (Hs e He).
Qed.

Lemma step_inv (c : Command) (s : Store) :
  store_inv D s -> exists s', step D T E c s = Some s' /\ store_inv D s'.
Proof.
  intro Hs. destruct c; simpl.
  - eauto using create_event_internal_inv.
  - eauto using delete_event_inv.
  - destruct (update_team_size_inv D interaction team_name new_size is_admin s Hs)
      as (b & s' & Hu & Hs').
    rewrite Hu. simpl. eauto.
  - eauto using admin_add_team_inv.
  - eauto using close_command_inv.
  - eauto using open_command_inv.
  - eauto using open_registration_inv.
  - eauto using open_reg_callback_inv.
  - eauto using reset_team_assignment_inv.
  - eauto using check_waitlist_and_expiry_inv.
Qed.

Lemma run_inv (cs : list Command) :
  forall s, store_inv D s -> exists s', run D T E cs s = Some s' /\ store_inv D s'.
Proof.
  induction cs as [|c r IH]; intros s Hs; simpl; [eauto|].
  destruct (step_inv c s Hs) as (s1 & H1 & Hs1). rewrite H1. now apply IH.
Qed.
End ConfigInvariant.

(** C1.  Starting from a store without an event, every sequence of
    commands (event creation and deletion, [update_team_size] for
    registering, editing and cancelling, [admin_add_team], [/close], [/open],
    the two ways to raise the team-size cap, [/reset_team_assignment] and the
    periodic pass, each with the promotion it triggers)
    is served without an exception, and in the store it leaves
    [slots_used] is the sum of the roster sizes and
    [0 <= slots_used <= max_slots].  The configured capacity is assumed to
    be non-negative. *)
Theorem reachable_slots_invariant
  (DEFAULT_MAX_SLOTS DEFAULT_MAX_TEAM_SIZE EXPANDED_MAX_TEAM_SIZE : Z)
  (cs : list Command) (s0 : Store) :
  0 <= DEFAULT_MAX_SLOTS ->
  event_data s0 = None ->
  exists s,
    run DEFAULT_MAX_SLOTS DEFAULT_MAX_TEAM_SIZE EXPANDED_MAX_TEAM_SIZE cs s0 = Some s
    /\ forall event, event_data s = Some event ->
         slots_used event = sum_sizes (teams event)
         /\ 0 <= slots_used event <= max_slots event.
Proof.
  intros HD H0.
  destruct (run_inv DEFAULT_MAX_SLOTS DEFAULT_MAX_TEAM_SIZE EXPANDED_MAX_TEAM_SIZE HD cs s0)
    as (s & Hrun & Hinv).
  { intros e He. congruence. }
  exists s. split; [exact Hrun|].
  intros event He. destruct (Hinv event He) as (H1 & H2 & H3 & H4 & H5).
  pose proof (sum_sizes_nonneg (teams event) H4). lia.
Qed.

Lemma reachable_slots_invariant_witness :
  exists s,
    run 20 9 18
        [CreateEvent "Cup" "01.01.2030" "20:00" "" (Some 0);
         AdminAddTeam "Omega" 9 None false;
         AdminAddTeam "Sigma" 9 None false;
         UpdateTeamSize alice "Alpha" 5 false;
         UpdateTeamSize olaf "omega" 3 true]
        empty_store = Some s
    /\ forall event, event_data s = Some event ->
         slots_used event = sum_sizes (teams event)
         /\ 0 <= slots_used event <= max_slots event.
Proof.
  apply reachable_slots_invariant; [lia | reflexivity].
Defined.

(** ** The promoter serves the head of the waitlist *)

Lemma event_eta (e : Event) :
  with_slots_used (with_teams (with_waitlist e (waitlist e)) (teams e)) (slots_used e) = e.
Proof. now destruct e. Qed.

Lemma promote_event_idle (f : Z) (e : Event) :
  f <= 0 \/ waitlist e = [] -> promote_event f e = e.
Proof.
  intro H. unfold promote_event.
  destruct (waitlist e) as [|[n z] r] eqn:Hw.
  - simpl. rewrite <- Hw. apply event_eta.
  - destruct H as [H|H]; [|discriminate]. simpl.
    replace (f >? 0) with false by (symmetry; rewrite Z.gtb_ltb; apply Z.ltb_ge; lia).
    rewrite <- Hw. apply event_eta.
Qed.

(** The guard of [process_waitlist_after_change] only skips calls in which
    the loop would not run anyway. *)
Lemma process_waitlist_after_change_eq (f : Z) (s : Store) (event : Event) :
  get_event s = Some event ->
  process_waitlist_after_change f s
  = mkStore (Some (promote_event f event)) (user_team_assignments s).
Proof.
  intro He. unfold process_waitlist_after_change. rewrite He.
  destruct (f <=? 0) eqn:Hf; simpl.
  - zbool. rewrite promote_event_idle by (left; exact Hf).
    rewrite <- (get_event_Some s event He). now destruct s.
  - destruct (waitlist event) eqn:Hw; [|reflexivity].
    rewrite promote_event_idle by (right; exact Hw).
    rewrite <- (get_event_Some s event He). now destruct s.
Qed.

(** An event stays the active event when only its roster, waitlist and
    counters change. *)
Lemma get_event_same_header (s : Store) (event event' : Event) (asg : dict string) :
  get_event s = Some event ->
  ev_name event' = ev_name event -> ev_date event' = ev_date event ->
  get_event (mkStore (Some event') asg) = Some event'.
Proof.
  unfold get_event. simpl. intros H Hn Hd. rewrite Hn, Hd.
  destruct (event_data s) as [e|]; [|discriminate].
  destruct (negb (truthy (ev_name e)) && negb (truthy (ev_date e)))%bool eqn:Hb;
    [discriminate|].
  injection H as ->. now rewrite Hb.
Qed.

Lemma dict_get_set_same {V : Type} (d : dict V) (k : string) (v : V) :
  dict_get (dict_set d k v) k = Some v.
Proof.
  induction d as [|[k' v'] r IH]; simpl.
  - now rewrite String.eqb_refl.
  - destruct (k' =? k)%string eqn:E; simpl; [now rewrite String.eqb_refl|].
    now rewrite E.
Qed.

Lemma dict_get_set_other {V : Type} (d : dict V) (k k2 : string) (v : V) :
  k <> k2 -> dict_get (dict_set d k v) k2 = dict_get d k2.
Proof.
  intro Hk. apply String.eqb_neq in Hk.
  induction d as [|[k' v'] r IH]; simpl.
  - now rewrite Hk.
  - destruct (k' =? k)%string eqn:E; simpl.
    + apply String.eqb_eq in E. subst k'. now rewrite Hk.
    + now rewrite IH.
Qed.

(** The equations of the promoter.  It works strictly from index 0 and
    books the members under the roster key that is spelled exactly as the
    waitlist entry.  With [freed > 0]: an empty waitlist leaves the store as
    it is; a head entry of size at most [freed] is popped whole, its size is
    added to the roster key of that spelling and to [slots_used], and
    promotion goes on with what is left of [freed]; a larger head entry is
    reduced in place by [freed], that many members are added to the roster
    key of that spelling and to [slots_used], and promotion stops.  With
    waitlist [[(A,5); (B,3)]] and 4 freed slots the waitlist becomes
    [[(A,1); (B,3)]], key A gains 4 and key B is untouched. *)
Theorem waitlist_promotion_is_fifo (s : Store) (event : Event) (freed : Z) :
  get_event s = Some event ->
  0 < freed ->
  (waitlist event = [] -> process_waitlist_after_change freed s = s)
  /\ (forall team_name size rest,
        waitlist event = (team_name, size) :: rest -> size <= freed ->
        process_waitlist_after_change freed s
        = process_waitlist_after_change (freed - size)
            (mkStore
               (Some (with_slots_used
                        (with_teams (with_waitlist event rest)
                           (dict_set (teams event) team_name
                              (dict_get_default (teams event) team_name 0 + size)))
                        (slots_used event + size)))
               (user_team_assignments s)))
  /\ (forall team_name size rest,
        waitlist event = (team_name, size) :: rest -> freed < size ->
        process_waitlist_after_change freed s
        = mkStore
            (Some (with_slots_used
                     (with_teams (with_waitlist event ((team_name, size - freed) :: rest))
                        (dict_set (teams event) team_name
                           (dict_get_default (teams event) team_name 0 + freed)))
                     (slots_used event + freed)))
            (user_team_assignments s))
  /\ (forall A B,
        A <> B -> waitlist event = [(A, 5); (B, 3)] -> freed = 4 ->
        exists event',
          process_waitlist_after_change freed s
          = mkStore (Some event') (user_team_assignments s)
          /\ waitlist event' = [(A, 1); (B, 3)]
          /\ dict_get (teams event') A = Some (dict_get_default (teams event) A 0 + 4)
          /\ dict_get (teams event') B = dict_get (teams event) B
          /\ slots_used event' = slots_used event + 4).
Proof.
  intros He Hf.
  assert (Hpartial : forall team_name size rest,
    waitlist event = (team_name, size) :: rest -> freed < size ->
    process_waitlist_after_change freed s
    = mkStore
        (Some (with_slots_used
                 (with_teams (with_waitlist event ((team_name, size - freed) :: rest))
                    (dict_set (teams event) team_name
                       (dict_get_default (teams event) team_name 0 + freed)))
                 (slots_used event + freed)))
        (user_team_assignments s)).
  { intros n z r Hw Hz.
    rewrite (process_waitlist_after_change_eq freed s event He).
    unfold promote_event. rewrite Hw. simpl.
    replace (freed >? 0) with true by (symmetry; apply Z.gtb_lt; lia).
    replace (z <=? freed) with false by (symmetry; apply Z.leb_gt; lia).
    reflexivity. }
  split; [|split; [|split]].
  - intro Hw. rewrite (process_waitlist_after_change_eq freed s event He).
    rewrite promote_event_idle by (right; exact Hw).
    rewrite <- (get_event_Some s event He). now destruct s.
  - intros n z r Hw Hz.
    rewrite (process_waitlist_after_change_eq freed s event He).
    erewrite (process_waitlist_after_change_eq (freed - z)) by
      (eapply get_event_same_header; [exact He | reflexivity | reflexivity]).
    simpl. f_equal. f_equal.
    unfold promote_event. rewrite Hw. simpl.
    replace (freed >? 0) with true by (symmetry; apply Z.gtb_lt; lia).
    replace (z <=? freed) with true by (symmetry; apply Z.leb_le; lia).
    now destruct (promote_waitlist r (freed - z) _ _) as [[[w t] u] pr].
  - exact Hpartial.
  - intros A B HAB Hw ->.
    rewrite (Hpartial A 5 [(B, 3)] Hw) by lia.
    eexists. split; [reflexivity|]. simpl.
    rewrite dict_get_set_same, dict_get_set_other by exact HAB.
    repeat split; reflexivity.
Qed.

Lemma waitlist_promotion_is_fifo_witness :
  (waitlist fifo_event = [] -> process_waitlist_after_change 4 fifo_store = fifo_store)
  /\ (forall team_name size rest,
        waitlist fifo_event = (team_name, size) :: rest -> size <= 4 ->
        process_waitlist_after_change 4 fifo_store
        = process_waitlist_after_change (4 - size)
            (mkStore
               (Some (with_slots_used
                        (with_teams (with_waitlist fifo_event rest)
                           (dict_set (teams fifo_event) team_name
                              (dict_get_default (teams fifo_event) team_name 0 + size)))
                        (slots_used fifo_event + size)))
               (user_team_assignments fifo_store)))
  /\ (forall team_name size rest,
        waitlist fifo_event = (team_name, size) :: rest -> 4 < size ->
        process_waitlist_after_change 4 fifo_store
        = mkStore
            (Some (with_slots_used
                     (with_teams (with_waitlist fifo_event ((team_name, size - 4) :: rest))
                        (dict_set (teams fifo_event) team_name
                           (dict_get_default (teams fifo_event) team_name 0 + 4)))
                     (slots_used fifo_event + 4)))
            (user_team_assignments fifo_store))
  /\ (forall A B,
        A <> B -> waitlist fifo_event = [(A, 5); (B, 3)] -> 4 = 4 ->
        exists event',
          process_waitlist_after_change 4 fifo_store
          = mkStore (Some event') (user_team_assignments fifo_store)
          /\ waitlist event' = [(A, 1); (B, 3)]
          /\ dict_get (teams event') A = Some (dict_get_default (teams fifo_event) A 0 + 4)
          /\ dict_get (teams event') B = dict_get (teams fifo_event) B
          /\ slots_used event' = slots_used fifo_event + 4).
Proof.
  apply (waitlist_promotion_is_fifo fifo_store fifo_event 4); [reflexivity | lia].
Defined.

(** ** The increase path *)

Lemma find_ci_dict_set_hit {V : Type} (d : dict V) (q n : string) (v0 v : V) :
  find_ci d q = Some (n, v0) -> find_ci (dict_set d n v) q = Some (n, v).
Proof.
  intro H. pose proof (find_ci_key d q n v0 H) as Hn. revert H.
  unfold find_ci. induction d as [|[k x] r IH]; simpl; [discriminate|].
  destruct (lower k =? q)%string eqn:Hk.
  - intro H. injection H as -> ->. rewrite String.eqb_refl. simpl. now rewrite Hn.
  - intro H. destruct (String.eqb_spec k n) as [->|_]; [congruence|].
    simpl. rewrite Hk. exact (IH H).
Qed.

Lemma dict_set_new {V : Type} (d : dict V) (k : string) (v : V) :
  dict_get d k = None -> dict_set d k v = (d ++ [(k, v)])%list.
Proof.
  induction d as [|[k' v'] r IH]; simpl; [reflexivity|].
  destruct (k' =? k)%string; [discriminate|]. intro H. now rewrite IH.
Qed.

Lemma find_ci_app_new {V : Type} (d : dict V) (q : string) (v : V) :
  lower q = q -> find_ci d q = None -> find_ci (d ++ [(q, v)])%list q = Some (q, v).
Proof.
  intros Hq. unfold find_ci.
  induction d as [|[k x] r IH]; simpl.
  - now rewrite Hq, String.eqb_refl.
  - destruct (lower k =? q)%string; [discriminate | exact IH].
Qed.

(** What the roster step of an increase does. *)
Lemma add_to_roster_spec (event : Event) (q : string) (amount : Z) :
  lower q = q -> truthy q = true ->
  let event' := add_to_roster event (option_map fst (find_ci (teams event) q)) q amount in
  slots_used event' = slots_used event + amount
  /\ roster_size q (teams event') = roster_size q (teams event) + amount
  /\ waitlist event' = waitlist event
  /\ (find_ci (teams event) q = None ->
      teams event' = (teams event ++ [(q, amount)])%list).
Proof.
  intros Hq Ht. unfold add_to_roster, roster_size.
  destruct (find_ci (teams event) q) as [[n v]|] eqn:E; simpl.
  - rewrite (matching_key_truthy n q Ht (find_ci_key _ _ _ _ E)). simpl.
    destruct (find_ci_roster_size _ _ _ _ E) as [_ Hg]. rewrite Hg.
    rewrite (find_ci_dict_set_hit _ _ _ _ (v + amount) E).
    repeat split; auto. discriminate.
  - rewrite (dict_set_new _ _ _ (find_ci_none_get _ _ Hq E)).
    rewrite (find_ci_app_new _ _ _ Hq E). repeat split; auto.
Qed.

Lemma find_index_from_filter {A : Type} (p : A -> bool) (w : list A) :
  forall k i x, find_index_from p k w = Some (i, x) ->
                p x = true /\ exists rest, filter p w = x :: rest.
Proof.
  induction w as [|h r IH]; intros k i x; simpl; [discriminate|].
  destruct (p h) eqn:Hp.
  - intro H. injection H as <- <-. split; [exact Hp|]. now exists (filter p r).
  - intro H. exact (IH _ _ _ H).
Qed.

Lemma find_index_from_none {A : Type} (p : A -> bool) (w : list A) :
  forall k, find_index_from p k w = None -> filter p w = [].
Proof.
  induction w as [|h r IH]; intros k; simpl; [reflexivity|].
  destruct (p h); [discriminate | apply IH].
Qed.

Lemma find_index_from_ge {A : Type} (p : A -> bool) (w : list A) :
  forall k i x, find_index_from p k w = Some (i, x) -> (k <= i)%nat.
Proof.
  induction w as [|h r IH]; intros k i x; simpl; [discriminate|].
  destruct (p h).
  - intro H. injection H as <- _. lia.
  - intro H. apply IH in H. lia.
Qed.

(** Overwriting the first hit with another hit replaces the head of the
    filtered list and keeps the length. *)
Lemma filter_list_set_first {A : Type} (p : A -> bool) (w : list A) (y : A) :
  p y = true ->
  forall k i x, find_index_from p k w = Some (i, x) ->
    filter p (list_set w (i - k)%nat y) = y :: tl (filter p w)
    /\ List.length (list_set w (i - k)%nat y) = List.length w.
Proof.
  intro Hy. induction w as [|h r IH]; intros k i x; simpl; [discriminate|].
  destruct (p h) eqn:Hp.
  - intro H. injection H as <- <-. rewrite Nat.sub_diag. simpl. now rewrite Hy.
  - intro H. pose proof (find_index_from_ge p r _ _ _ H) as Hge.
    replace (i - k)%nat with (S (i - S k)) by lia. simpl. rewrite Hp.
    destruct (IH _ _ _ H) as [IH1 IH2]. now rewrite IH1, IH2.
Qed.

Lemma waitlist_total_app (q : string) (w1 w2 : list (string * Z)) :
  waitlist_total q (w1 ++ w2)%list = waitlist_total q w1 + waitlist_total q w2.
Proof. unfold waitlist_total. now rewrite filter_app, sum_sizes_app. Qed.

Lemma waitlist_matches_self (q : string) (z : Z) :
  lower q = q -> waitlist_matches q (q, z) = true.
Proof. intro Hq. unfold waitlist_matches. simpl. now rewrite Hq, String.eqb_refl. Qed.

(** What the increase block does to the event. *)
Lemma increase_team_size_spec (event : Event) (q : string) (d : Z) :
  lower q = q -> truthy q = true -> 0 < d ->
  let event' := increase_team_size event q (team_total event q) d in
  let available := max_slots event - slots_used event in
  let to_roster := Z.min d available in
  slots_used event' = slots_used event + to_roster
  /\ roster_size q (teams event') = roster_size q (teams event) + to_roster
  /\ (find_ci (teams event) q = None ->
      teams event' = (teams event ++ [(q, to_roster)])%list)
  /\ (d <= available -> waitlist event' = waitlist event)
  /\ (available < d -> filter (waitlist_matches q) (waitlist event) = [] ->
      waitlist event' = (waitlist event ++ [(q, d - to_roster)])%list)
  /\ (available < d ->
      forall i n z,
        find_index_from (waitlist_matches q) 0 (waitlist event) = Some (i, (n, z)) ->
        waitlist event'
        = list_set (waitlist event) i (n, waitlist_total q (waitlist event) + (d - to_roster))).
Proof.
  intros Hq Ht Hd. unfold increase_team_size. simpl.
  destruct (d <=? max_slots event - slots_used event) eqn:Hfit; zbool.
  - rewrite Z.min_l by lia.
    destruct (add_to_roster_spec event q d Hq Ht) as (A1 & A2 & A3 & A4).
    repeat split; auto; lia.
  - rewrite Z.min_r by lia.
    destruct (add_to_roster_spec event q (max_slots event - slots_used event) Hq Ht)
      as (A1 & A2 & A3 & A4).
    set (e1 := add_to_roster event _ q _) in *.
    destruct (find_index_from (waitlist_matches q) 0 (waitlist event)) as [[i [n z]]|] eqn:E.
    + destruct (find_index_from_filter _ _ _ _ _ E) as [Hm [rest Hrest]].
      rewrite (matching_key_truthy n q Ht Hm). simpl. rewrite A3.
      repeat split; auto; try lia.
      * intros _ Hnone. rewrite Hnone in Hrest. discriminate.
      * intros _ i' n' z' H. now injection H as <- <- <-.
    + simpl. rewrite A3 in *.
      repeat split; auto; try lia. intros _ i n z H. discriminate.
Qed.

Lemma apply_team_size_increase
  (i : Interaction) (q : string) (n : Z) (event : Event) (asg : dict string)
  (total : TeamTotal) :
  0 < n -> 0 < n - total_size total ->
  exists asg',
    apply_team_size i q n event asg total
    = mkStore (Some (increase_team_size event q total (n - total_size total))) asg'.
Proof.
  intros Hn Hd. unfold apply_team_size.
  replace (n =? 0) with false by (symmetry; apply Z.eqb_neq; lia).
  replace (n - total_size total =? 0) with false by (symmetry; apply Z.eqb_neq; lia).
  replace (n - total_size total >? 0) with true by (symmetry; apply Z.gtb_lt; lia).
  eexists. reflexivity.
Qed.

(** With at most one waitlist entry for the team, the waitlist total of the
    team grows by exactly the overflow of the increase. *)
Lemma increase_team_size_waitlist_total (event : Event) (q : string) (d : Z) :
  lower q = q -> truthy q = true -> 0 < d ->
  (List.length (filter (waitlist_matches q) (waitlist event)) <= 1)%nat ->
  waitlist_total q (waitlist (increase_team_size event q (team_total event q) d))
  = waitlist_total q (waitlist event)
    + (d - Z.min d (max_slots event - slots_used event)).
Proof.
  intros Hq Ht Hd Hone.
  destruct (increase_team_size_spec event q d Hq Ht Hd) as (_ & _ & _ & S4 & S5 & S6).
  destruct (Z.le_gt_cases d (max_slots event - slots_used event)) as [Hfit|Hfit].
  - rewrite (S4 Hfit), Z.min_l by lia. lia.
  - destruct (find_index_from (waitlist_matches q) 0 (waitlist event))
      as [[i [n z]]|] eqn:E.
    + rewrite (S6 Hfit i n z eq_refl).
      destruct (find_index_from_filter _ _ _ _ _ E) as [Hm [rest Hrest]].
      assert (Hy : forall x, waitlist_matches q (n, x) = true) by (intro x; exact Hm).
      destruct (filter_list_set_first (waitlist_matches q) (waitlist event)
                  (n, waitlist_total q (waitlist event)
                      + (d - Z.min d (max_slots event - slots_used event)))
                  (Hy _) _ _ _ E) as [Hf _].
      rewrite Nat.sub_0_r in Hf.
      unfold waitlist_total at 1. rewrite Hf, Hrest.
      rewrite Hrest in Hone. destruct rest; [|simpl in Hone; lia].
      simpl. lia.
    + pose proof (find_index_from_none _ _ _ E) as Hnone.
      rewrite (S5 Hfit Hnone), waitlist_total_app.
      unfold waitlist_total at 2. simpl. rewrite (waitlist_matches_self q _ Hq).
      simpl. lia.
Qed.

(** C3, as the code has it.  A request that passes validation and raises
    the total size of team T by [delta > 0] adds exactly
    [min(delta, max_slots - slots_used)] members to T's roster entry (when
    members are admitted and T has none, it is created under the lower-cased
    name) and to [slots_used]; when T has at most one waitlist entry, T's
    waitlist total grows by the remaining [delta - min(delta, available)],
    as a new last entry when T had none.  With
    [max_slots = 20] and [slots_used = 18], registering the new team "Alpha"
    with size 5 puts 2 in the roster under the key "alpha" ([slots_used]
    becomes 20) and appends the 2-tuple [("alpha", 3)] to the waitlist. *)
Theorem increase_fills_roster_then_waitlist
  (i : Interaction) (q : string) (n : Z) (a : bool) (s : Store) (event : Event) :
  get_event s = Some event ->
  passes_validation i q n a s = true ->
  0 < n ->
  0 < n - total_size (team_total event (lower (strip q))) ->
  let t := lower (strip q) in
  let delta := n - total_size (team_total event t) in
  let to_roster := Z.min delta (max_slots event - slots_used event) in
  exists event' asg',
    update_team_size i q n a s = Some (true, mkStore (Some event') asg')
    /\ slots_used event' = slots_used event + to_roster
    /\ roster_size t (teams event') = roster_size t (teams event) + to_roster
    /\ (find_ci (teams event) t = None -> 0 < to_roster ->
        teams event' = (teams event ++ [(t, to_roster)])%list)
    /\ ((List.length (filter (waitlist_matches t) (waitlist event)) <= 1)%nat ->
        waitlist_total t (waitlist event')
        = waitlist_total t (waitlist event) + (delta - to_roster))
    /\ (filter (waitlist_matches t) (waitlist event) = [] ->
        (0 < delta - to_roster ->
         waitlist event' = (waitlist event ++ [(t, delta - to_roster)])%list)
        /\ (delta - to_roster = 0 -> waitlist event' = waitlist event))
    /\ (q = "Alpha" -> n = 5 -> max_slots event = 20 -> slots_used event = 18 ->
        find_ci (teams event) "alpha" = None ->
        filter (waitlist_matches "alpha") (waitlist event) = [] ->
        teams event' = (teams event ++ [("alpha", 2)])%list
        /\ slots_used event' = 20
        /\ waitlist event' = (waitlist event ++ [("alpha", 3)])%list).
Proof.
  intros He Hp Hn Hd t delta to_roster.
  destruct (passes_validation_facts i q n a s Hp) as (Ht & _ & _).
  assert (Hq : lower t = t) by apply lower_idem.
  rewrite (update_team_size_accepted i q n a s event He Hp).
  destruct (apply_team_size_increase i t n event (user_team_assignments s)
              (team_total event t) Hn Hd) as [asg' Happ].
  fold t. rewrite Happ. fold delta.
  destruct (increase_team_size_spec event t delta Hq Ht Hd) as (S1 & S2 & S3 & S4 & S5 & S6).
  pose proof (increase_team_size_waitlist_total event t delta Hq Ht Hd) as S7.
  set (event' := increase_team_size event t (team_total event t) delta) in *.
  fold to_roster in S1, S2, S3, S5, S6, S7.
  assert (Hnew : filter (waitlist_matches t) (waitlist event) = [] ->
                 (0 < delta - to_roster ->
                  waitlist event' = (waitlist event ++ [(t, delta - to_roster)])%list)
                 /\ (delta - to_roster = 0 -> waitlist event' = waitlist event)).
  { intro Hnone. split; intro Hw.
    - apply S5; [unfold to_roster in Hw; lia | exact Hnone].
    - apply S4. unfold to_roster in Hw. lia. }
  exists event', asg'.
  split; [reflexivity|]. split; [exact S1|]. split; [exact S2|].
  split; [exact (fun H _ => S3 H)|]. split; [exact S7|]. split; [exact Hnew|].
  intros -> -> Hmax Hused Hteam Hwait.
  - assert (Ht' : t = "alpha") by reflexivity.
    assert (Hrs : roster_size "alpha" (teams event) = 0)
      by (unfold roster_size; now rewrite Hteam).
    assert (Hwt : waitlist_total "alpha" (waitlist event) = 0)
      by (unfold waitlist_total; now rewrite Hwait).
    assert (Hdelta : delta = 5).
    { unfold delta. rewrite Ht'. simpl. rewrite Hrs, Hwt. reflexivity. }
    assert (Hto : to_roster = 2).
    { unfold to_roster. rewrite Hdelta, Hmax, Hused. reflexivity. }
    destruct (Hnew Hwait) as [Ha _].
    assert (Hgt : 0 < delta - to_roster) by (rewrite Hdelta, Hto; lia).
    rewrite (S3 Hteam), (Ha Hgt), S1, Hused, Hdelta, Hto.
    repeat split; reflexivity.
Qed.

Lemma increase_fills_roster_then_waitlist_witness :
  exists event' asg',
    update_team_size alice "Alpha" 5 false nearly_full_store
    = Some (true, mkStore (Some event') asg')
    /\ slots_used event' = 18 + Z.min 5 2
    /\ roster_size "alpha" (teams event') = 0 + Z.min 5 2
    /\ teams event' = [("omega", 18); ("alpha", 2)]
    /\ waitlist event' = [("alpha", 3)].
Proof.
  destruct (increase_fills_roster_then_waitlist alice "Alpha" 5 false
              nearly_full_store nearly_full_event)
    as (event' & asg' & H1 & H2 & H3 & H4 & _ & _ & H7);
    [reflexivity | reflexivity | lia | vm_compute; reflexivity |].
  exists event', asg'.
  destruct H7 as (E1 & E2 & E3); try reflexivity.
  repeat split; [exact H1 | exact H2 | exact H3 | exact E1 | exact E3].
Defined.

(** C3, the claim's own scenario: the waitlist entry that is stored is the
    2-tuple [("alpha", 3)]; no entry named "Alpha" and no entry carrying an
    id is stored. *)
Lemma increase_example_stores_lowercase_pair :
  exists event' asg',
    update_team_size alice "Alpha" 5 false nearly_full_store
    = Some (true, mkStore (Some event') asg')
    /\ stored_waitlist event' = [Entry2 "alpha" 3]
    /\ (forall id, ~ In (Entry3 "Alpha" 3 id) (stored_waitlist event'))
    /\ ~ In (Entry2 "Alpha" 3) (stored_waitlist event').
Proof.
  eexists; eexists. split; [vm_compute; reflexivity|].
  split; [reflexivity|]. split.
  - intros id [H|[]]. discriminate.
  - intros [H|[]]. discriminate.
Qed.

(** C6, as the code has it.  When an accepted increase overflows the free
    capacity ([to_waitlist = delta - available > 0]): if team T has no
    waitlist entry, the 2-tuple [(T lower-cased, to_waitlist)] is appended to
    the end of the waitlist; if T has exactly one waitlist entry, that entry
    is enlarged in place by [to_waitlist] and nothing is appended. *)
Theorem increase_overflow_appends_or_merges
  (i : Interaction) (q : string) (n : Z) (a : bool) (s : Store) (event : Event) :
  get_event s = Some event ->
  passes_validation i q n a s = true ->
  0 < n ->
  let t := lower (strip q) in
  let delta := n - total_size (team_total event t) in
  let available := max_slots event - slots_used event in
  0 < delta ->
  available < delta ->
  exists event' asg',
    update_team_size i q n a s = Some (true, mkStore (Some event') asg')
    /\ (filter (waitlist_matches t) (waitlist event) = [] ->
        waitlist event' = (waitlist event ++ [(t, delta - available)])%list)
    /\ (forall k name size,
          find_index_from (waitlist_matches t) 0 (waitlist event) = Some (k, (name, size)) ->
          filter (waitlist_matches t) (waitlist event) = [(name, size)] ->
          waitlist event' = list_set (waitlist event) k (name, size + (delta - available))
          /\ List.length (waitlist event') = List.length (waitlist event)).
Proof.
  intros He Hp Hn t delta available Hd Hover.
  destruct (passes_validation_facts i q n a s Hp) as (Ht & _ & _).
  assert (Hq : lower t = t) by apply lower_idem.
  rewrite (update_team_size_accepted i q n a s event He Hp).
  destruct (apply_team_size_increase i t n event (user_team_assignments s)
              (team_total event t) Hn Hd) as [asg' Happ].
  fold t. rewrite Happ. fold delta.
  destruct (increase_team_size_spec event t delta Hq Ht Hd) as (_ & _ & _ & _ & S5 & S6).
  fold available in S5, S6. rewrite Z.min_r in S5, S6 by lia.
  exists (increase_team_size event t (team_total event t) delta), asg'.
  split; [reflexivity|]. split; [exact (S5 Hover)|].
  intros k name size Hfind Hone.
  rewrite (S6 Hover k name size Hfind).
  assert (Hsum : waitlist_total t (waitlist event) = size).
  { unfold waitlist_total. rewrite Hone. simpl. lia. }
  rewrite Hsum. split; [reflexivity|].
  destruct (find_index_from_filter _ _ _ _ _ Hfind) as [Hm _].
  destruct (filter_list_set_first (waitlist_matches t) (waitlist event)
              (name, size + (delta - available)) Hm _ _ _ Hfind) as [_ Hlen].
  now rewrite Nat.sub_0_r in Hlen.
Qed.

Lemma increase_overflow_appends_or_merges_witness :
  exists event' asg',
    update_team_size alice "alpha" 6 false full_store
    = Some (true, mkStore (Some event') asg')
    /\ waitlist event' = [("alpha", 5)].
Proof.
  destruct (increase_overflow_appends_or_merges alice "alpha" 6 false full_store full_event)
    as (event' & asg' & H1 & _ & H3);
    [reflexivity | reflexivity | lia | vm_compute; reflexivity | vm_compute; reflexivity |].
  exists event', asg'. split; [exact H1|].
  exact (proj1 (H3 0%nat "alpha" 2 eq_refl eq_refl)).
Defined.

(** C6, at a full event where team "alpha" already waits with an entry of 2:
    raising the team by 3 leaves one entry of 5; no second entry
    [("alpha", 3)] is appended. *)
Lemma increase_merges_into_existing_entry :
  exists event' asg',
    update_team_size alice "alpha" 6 false full_store
    = Some (true, mkStore (Some event') asg')
    /\ waitlist event' = [("alpha", 5)]
    /\ waitlist event' <> [("alpha", 2); ("alpha", 3)]
    /\ ~ In ("alpha", 3) (waitlist event').
Proof.
  eexists; eexists. split; [vm_compute; reflexivity|].
  split; [reflexivity|]. split; [discriminate|].
  intros [H|[]]. discriminate.
Qed.

(** ** The decrease path *)

Lemma roster_size_find_ci (d : dict Z) (q : string) (v : Z) :
  roster_size q d = v -> v <> 0 -> exists n, find_ci d q = Some (n, v).
Proof.
  unfold roster_size. destruct (find_ci d q) as [[n z]|]; intros H Hv.
  - exists n. now subst.
  - congruence.
Qed.

(** C9, as the code has it.  If team "Bravo" has roster size 6 and waitlist
    size 0, an accepted [update_team_size("Bravo", 2)] computes
    [event_reduction = 4], sets Bravo's roster entry to 2 (the entry stays),
    decrements [slots_used] by 4, and then runs the promoter with
    [free_slots = 4]. *)
Theorem bravo_shrinks_in_place
  (i : Interaction) (a : bool) (s : Store) (event : Event) :
  get_event s = Some event ->
  passes_validation i "Bravo" 2 a s = true ->
  roster_size "bravo" (teams event) = 6 ->
  waitlist_total "bravo" (waitlist event) = 0 ->
  exists registered_name,
    find_ci (teams event) "bravo" = Some (registered_name, 6)
    /\ snd (decrease_team_size event "bravo" (team_total event "bravo") (2 - 6)) = 4
    /\ update_team_size i "Bravo" 2 a s
       = Some (true,
               process_waitlist_after_change 4
                 (mkStore
                    (Some (with_slots_used
                             (with_teams event (dict_set (teams event) registered_name 2))
                             (slots_used event - 4)))
                    (user_team_assignments s))).
Proof.
  intros He Hp Hrs Hwt.
  destruct (roster_size_find_ci _ _ _ Hrs) as [r Hr]; [lia|].
  exists r. split; [exact Hr|].
  assert (Hdec : decrease_team_size event "bravo" (team_total event "bravo") (2 - 6)
                 = (with_slots_used (with_teams event (dict_set (teams event) r 2))
                                    (slots_used event - 4), 4)).
  { assert (Hw : reduce_waitlist event "bravo" (team_total event "bravo") 0 = event).
    { unfold reduce_waitlist.
      destruct (find_index_from _ _ _) as [[k [n z]]|]; reflexivity. }
    unfold decrease_team_size.
    replace (waitlist_size (team_total event "bravo")) with 0 by (simpl; lia).
    change (Z.min 0 (Z.abs (2 - 6))) with 0. change (Z.abs (2 - 6) - 0) with 4.
    cbv zeta. rewrite Hw. unfold reduce_roster. rewrite Hr. simpl.
    rewrite (matching_key_truthy r "bravo" eq_refl (find_ci_key _ _ _ _ Hr)).
    rewrite Hrs. reflexivity. }
  split; [now rewrite Hdec|].
  rewrite (update_team_size_accepted i "Bravo" 2 a s event He Hp).
  change (lower (strip "Bravo")) with "bravo".
  unfold apply_team_size.
  replace (total_size (team_total event "bravo")) with 6 by (simpl; lia).
  rewrite Hdec. reflexivity.
Qed.

Lemma bravo_shrinks_in_place_witness :
  exists registered_name,
    find_ci (teams bravo_event) "bravo" = Some (registered_name, 6)
    /\ snd (decrease_team_size bravo_event "bravo" (team_total bravo_event "bravo") (2 - 6)) = 4
    /\ update_team_size alice "Bravo" 2 false bravo_store
       = Some (true,
               process_waitlist_after_change 4
                 (mkStore
                    (Some (with_slots_used
                             (with_teams bravo_event
                                (dict_set (teams bravo_event) registered_name 2))
                             (slots_used bravo_event - 4)))
                    (user_team_assignments bravo_store))).
Proof.
  apply (bravo_shrinks_in_place alice false bravo_store bravo_event); reflexivity.
Defined.

(** C9, evaluated: Bravo's roster entry is still there, with size 2, and
    [slots_used] went from 6 to 2, not to 0. *)
Lemma bravo_entry_is_kept :
  exists event' asg',
    update_team_size alice "Bravo" 2 false bravo_store
    = Some (true, mkStore (Some event') asg')
    /\ teams event' = [("Bravo", 2)]
    /\ dict_mem (teams event') "Bravo" = true
    /\ slots_used event' = slots_used bravo_event - 4
    /\ slots_used event' <> slots_used bravo_event - 6.
Proof.
  eexists; eexists. split; [vm_compute; reflexivity|].
  repeat split; [discriminate].
Qed.

(** ** Where the code leaves the specified behaviour *)

(** C7, evaluated.  A registration that arrives while the event is full is
    stored with a roster entry of size 0 next to its waitlist entry: after
    creating an event, closing it and registering "Alpha" with 3 members
    the roster is [[("alpha", 0)]]. *)
Theorem full_event_registration_stores_zero_entry :
  exists event asg,
    run 20 9 18 (closed_cup ++ [UpdateTeamSize alice "Alpha" 3 false]) empty_store
    = Some (mkStore (Some event) asg)
    /\ teams event = [("alpha", 0)]
    /\ waitlist event = [("alpha", 3)]
    /\ In ("alpha", 0) (teams event)
    /\ ~ Forall (fun p => 0 < snd p) (teams event).
Proof.
  eexists; eexists. split; [vm_compute; reflexivity|].
  split; [reflexivity|]. split; [reflexivity|]. split; [now left|].
  intro H. inversion H as [|p r Hp Hr]; subst. simpl in Hp. lia.
Qed.

(** C5, evaluated.  Cancelling that team removes its waitlist entry and its
    actor assignment, but the roster entry of size 0 stays:
    [if event_size > 0] guards the removal. *)
Theorem cancellation_keeps_zero_entry :
  exists before after,
    run 20 9 18 (closed_cup ++ [UpdateTeamSize alice "Alpha" 3 false]) empty_store
    = Some before
    /\ update_team_size alice "alpha" 0 false before = Some (true, after)
    /\ option_map teams (event_data after) = Some [("alpha", 0)]
    /\ option_map waitlist (event_data after) = Some []
    /\ user_team_assignments before = [("1001", "alpha")]
    /\ user_team_assignments after = []
    /\ option_map (fun e => dict_mem (teams e) "alpha") (event_data after) = Some true.
Proof.
  eexists; eexists. split; [vm_compute; reflexivity|].
  split; [vm_compute; reflexivity|].
  repeat split.
Qed.

(** C2, evaluated.  The promoter looks the roster entry up by the exact
    spelling of the waitlist entry, while every other lookup of a team
    ignores case.  Team "alpha" is registered under the key "Alpha" with 11
    members and waits with 1 more under the name "alpha", a total of 12.
    When team "omega" cancels, the promoter pops the entry of "alpha" but
    does not add its member to the roster entry of the team: it stores a
    second key "alpha" with 1, and the total reported for the team drops
    to 11. *)
Theorem promotion_misses_case_variant_roster_entry :
  exists before vacated after event,
    run 20 9 18
        [CreateEvent "Cup" "01.01.2030" "20:00" "" (Some 0);
         AdminAddTeam "Alpha" 9 None false;
         AdminAddTeam "omega" 9 None false;
         UpdateTeamSize olaf "alpha" 12 true] empty_store
    = Some before
    /\ option_map teams (event_data before) = Some [("Alpha", 11); ("omega", 9)]
    /\ option_map waitlist (event_data before) = Some [("alpha", 1)]
    /\ option_map (fun e => total_size (team_total e "alpha")) (event_data before)
       = Some 12
    /\ vacated
       = mkStore (Some (mkEvent "Cup" "01.01.2030" "20:00" "" [("Alpha", 11)]
                                [("alpha", 1)] 20 11 9 (Some 86400))) []
    /\ process_waitlist_after_change 9 vacated = after
    /\ update_team_size olaf "omega" 0 true before = Some (true, after)
    /\ event_data after = Some event
    /\ teams event = [("Alpha", 11); ("alpha", 1)]
    /\ waitlist event = []
    /\ slots_used event = 12
    /\ find_ci (teams event) "alpha" = Some ("Alpha", 11)
    /\ reported_total event "alpha" = Some 11.
Proof.
  eexists; eexists; eexists; eexists. split; [vm_compute; reflexivity|].
  split; [reflexivity|]. split; [reflexivity|]. split; [reflexivity|].
  split; [reflexivity|]. split; [vm_compute; reflexivity|].
  split; [vm_compute; reflexivity|]. split; [reflexivity|].
  repeat split.
Qed.

(** C4, evaluated.  Two waitlist entries for one team (the admin command
    tells "Alpha" from "alpha"): lowering the team from 5 to 4 overwrites
    the first entry with the whole waitlist size minus one and keeps the
    second, so the team's waitlist total goes from 5 to 6. *)
Theorem decrease_with_two_entries_grows_waitlist :
  exists before after event,
    run 20 9 18
        (closed_cup ++ [AdminAddTeam "Alpha" 3 None false;
                        AdminAddTeam "alpha" 2 None false]) empty_store
    = Some before
    /\ option_map waitlist (event_data before) = Some [("Alpha", 3); ("alpha", 2)]
    /\ update_team_size olaf "alpha" 4 true before = Some (true, after)
    /\ event_data after = Some event
    /\ waitlist event = [("Alpha", 4); ("alpha", 2)]
    /\ waitlist_total "alpha" [("Alpha", 3); ("alpha", 2)] = 5
    /\ waitlist_total "alpha" (waitlist event) = 6
    /\ total_size (team_total event "alpha") = 6.
Proof.
  eexists; eexists; eexists. split; [vm_compute; reflexivity|].
  split; [reflexivity|]. split; [vm_compute; reflexivity|].
  repeat split.
Qed.

(** C8, evaluated.  When the periodic pass finds the event expired it
    clears [event_data] only; the actor assignments survive the event. *)
Theorem expiry_keeps_assignments :
  exists before,
    run 20 9 18
        [CreateEvent "Cup" "01.01.2030" "20:00" "" (Some 0);
         UpdateTeamSize alice "Alpha" 3 false] empty_store
    = Some before
    /\ option_map expiry_date (event_data before) = Some (Some 86400)
    /\ user_team_assignments before = [("1001", "alpha")]
    /\ check_waitlist_and_expiry 86401 before = mkStore None [("1001", "alpha")]
    /\ delete_event before = mkStore None [].
Proof.
  eexists. split; [vm_compute; reflexivity|]. repeat split.
Qed.

(** The pass on an expired event, in general. *)
Lemma check_waitlist_and_expiry_expired (now : Z) (s : Store) (event : Event) (expiry : Z) :
  get_event s = Some event -> expiry_date event = Some expiry -> expiry < now ->
  check_waitlist_and_expiry now s = mkStore None (user_team_assignments s).
Proof.
  intros He Hx Hnow. unfold check_waitlist_and_expiry. rewrite He, Hx.
  now replace (now >? expiry) with true by (symmetry; apply Z.gtb_lt; lia).
Qed.


(** ** Cancellation and decrease on a team with one entry of each kind *)

Lemma list_pop_app_length {A : Type} (pre : list A) (x : A) (rest : list A) :
  list_pop (pre ++ x :: rest) (List.length pre) = (pre ++ rest)%list.
Proof. induction pre as [|y r IH]; simpl; [reflexivity | now rewrite IH]. Qed.

(** Popping the collected indices from the back removes exactly the entries
    that were collected. *)
Lemma pop_collected_indices {A : Type} (p : A -> bool) (l : list A) :
  forall pre,
    fold_left list_pop (rev (indices_from p (List.length pre) l)) (pre ++ l)%list
    = (pre ++ filter (fun x => negb (p x)) l)%list.
Proof.
  induction l as [|x r IH]; intro pre; simpl; [reflexivity|].
  assert (Hshift : forall idxs,
            fold_left list_pop idxs (pre ++ x :: r)%list
            = fold_left list_pop idxs ((pre ++ [x]) ++ r)%list).
  { intro idxs. now rewrite <- app_assoc. }
  assert (Hlen : S (List.length pre) = List.length (pre ++ [x])%list).
  { rewrite length_app. simpl. lia. }
  destruct (p x) eqn:Hp; simpl.
  - rewrite fold_left_app. simpl. rewrite Hshift, Hlen, IH, <- app_assoc. simpl.
    apply list_pop_app_length.
  - rewrite Hshift, Hlen, IH, <- app_assoc. reflexivity.
Qed.

Lemma remove_waitlist_entries_filter (event : Event) (q : string) :
  Forall (fun p => 0 < snd p) (waitlist event) ->
  waitlist (remove_waitlist_entries event q (team_total event q))
  = filter (fun e => negb (waitlist_matches q e)) (waitlist event).
Proof.
  intro Hpos. unfold remove_waitlist_entries. simpl.
  destruct (waitlist_total q (waitlist event) >? 0) eqn:Hw; zbool; simpl.
  - exact (pop_collected_indices (waitlist_matches q) (waitlist event) []).
  - unfold waitlist_total, sum_sizes in Hw.
    induction Hpos as [|e r He Hr IH]; simpl in *; [reflexivity|].
    destruct (waitlist_matches q e) eqn:Hm; simpl in *.
    + pose proof (waitlist_total_nonneg q r Hr) as Hn.
      unfold waitlist_total, sum_sizes in Hn. lia.
    + now rewrite <- IH.
Qed.

(** Cancelling a team whose roster entry has positive size: the entry is
    popped, [slots_used] drops by its size, every waitlist entry of the team
    goes, the team's actors are released, and the promoter runs with the
    roster size only. *)
Lemma cancellation_of_registered_team
  (i : Interaction) (q : string) (event : Event) (asg : dict string) (n : string) (v : Z) :
  Forall (fun p => 0 < snd p) (waitlist event) ->
  find_ci (teams event) q = Some (n, v) -> 0 < v ->
  apply_team_size i q 0 event asg (team_total event q)
  = process_waitlist_after_change v
      (mkStore
         (Some (with_waitlist
                  (with_slots_used (with_teams event (dict_pop (teams event) n))
                                   (slots_used event - v))
                  (filter (fun e => negb (waitlist_matches q e)) (waitlist event))))
         (release_users asg q)).
Proof.
  intros Hpos Hfind Hv.
  destruct (find_ci_roster_size _ _ _ _ Hfind) as [Hrs _].
  unfold apply_team_size, unregister_team. simpl.
  rewrite Hrs, andb_false_r.
  replace (v >? 0) with true by (symmetry; apply Z.gtb_lt; lia).
  f_equal. f_equal. f_equal.
  set (e1 := remove_roster_entry event q (team_total event q)).
  assert (He1 : e1 = with_slots_used (with_teams event (dict_pop (teams event) n))
                                     (slots_used event - v)).
  { unfold e1, remove_roster_entry. simpl. rewrite Hrs, Hfind.
    now replace (v >? 0) with true by (symmetry; apply Z.gtb_lt; lia). }
  assert (Hsame : remove_waitlist_entries e1 q (team_total event q)
                  = remove_waitlist_entries e1 q (team_total e1 q)).
  { unfold remove_waitlist_entries. simpl. now rewrite He1. }
  rewrite Hsame.
  pose proof (remove_waitlist_entries_filter e1 q) as Hf.
  assert (Hw1 : waitlist e1 = waitlist event) by now rewrite He1.
  rewrite Hw1 in Hf. specialize (Hf Hpos).
  unfold remove_waitlist_entries in *. simpl in *.
  destruct (waitlist_total q (waitlist e1) >? 0); simpl in *.
  - rewrite Hf. now rewrite He1.
  - rewrite <- Hf, Hw1. rewrite He1. now destruct event.
Qed.

(** A team with roster size 4 and waitlist size 3 is cancelled: both go,
    the actor is released and the team behind it gets the 4 freed slots. *)
Example cancel_roster_4_waitlist_3 :
  update_team_size alice "Delta" 0 false
    (mkStore (Some (mkEvent "Cup" "01.01.2030" "20:00" ""
                            [("omega", 16); ("delta", 4)]
                            [("delta", 3); ("kappa", 6)] 20 20 9 (Some 100)))
             [("1001", "delta"); ("1002", "kappa")])
  = Some (true,
          mkStore (Some (mkEvent "Cup" "01.01.2030" "20:00" ""
                                 [("omega", 16); ("kappa", 4)]
                                 [("kappa", 2)] 20 20 9 (Some 100)))
                  [("1002", "kappa")]).
Proof. vm_compute. reflexivity. Qed.

Lemma filter_list_pop_first {A : Type} (p : A -> bool) (w : list A) :
  forall k i x, find_index_from p k w = Some (i, x) ->
    filter p (list_pop w (i - k)%nat) = tl (filter p w).
Proof.
  induction w as [|h r IH]; intros k i x; simpl; [discriminate|].
  destruct (p h) eqn:Hp.
  - intro H. injection H as <- <-. now rewrite Nat.sub_diag.
  - intro H. pose proof (find_index_from_ge p r _ _ _ H) as Hge.
    replace (i - k)%nat with (S (i - S k)) by lia. simpl. rewrite Hp.
    exact (IH _ _ _ H).
Qed.

(** With at most one waitlist entry for the team, the waitlist part of a
    decrease removes exactly [waitlist_reduction] members. *)
Lemma reduce_waitlist_single_entry (event : Event) (q : string) (wr : Z) :
  truthy q = true ->
  (List.length (filter (waitlist_matches q) (waitlist event)) <= 1)%nat ->
  0 <= wr <= waitlist_total q (waitlist event) ->
  waitlist_total q (waitlist (reduce_waitlist event q (team_total event q) wr))
  = waitlist_total q (waitlist event) - wr.
Proof.
  intros Ht Hone Hwr. unfold reduce_waitlist. simpl.
  destruct (find_index_from (waitlist_matches q) 0 (waitlist event))
    as [[k [n z]]|] eqn:E.
  - destruct (find_index_from_filter _ _ _ _ _ E) as [Hm [rest Hrest]].
    rewrite Hrest in Hone. destruct rest; [|simpl in Hone; lia].
    assert (Hsum : waitlist_total q (waitlist event) = z).
    { unfold waitlist_total. rewrite Hrest. simpl. lia. }
    rewrite (matching_key_truthy n q Ht Hm), andb_true_r.
    destruct (wr >? 0) eqn:Hpos; zbool; [|lia].
    destruct (waitlist_total q (waitlist event) - wr >? 0) eqn:Hleft; zbool; simpl.
    + assert (Hy : waitlist_matches q (n, waitlist_total q (waitlist event) - wr) = true)
        by exact Hm.
      destruct (filter_list_set_first _ (waitlist event) _ Hy _ _ _ E) as [Hf _].
      rewrite Nat.sub_0_r in Hf.
      unfold waitlist_total at 1. rewrite Hf, Hrest. simpl. lia.
    + pose proof (filter_list_pop_first _ (waitlist event) _ _ _ E) as Hf.
      rewrite Nat.sub_0_r in Hf.
      unfold waitlist_total at 1. rewrite Hf, Hrest. simpl. lia.
  - pose proof (find_index_from_none _ _ _ E) as Hnone.
    unfold waitlist_total in *. rewrite Hnone in *. simpl in *. lia.
Qed.

(** Two roster keys that differ only in case (the admin command compares
    names exactly): cancelling the team pops the first key only. *)
Example cancellation_pops_first_case_variant :
  option_map (fun s => option_map teams (event_data s))
    (run 20 9 18
         [CreateEvent "Cup" "01.01.2030" "20:00" "" (Some 0);
          AdminAddTeam "Alpha" 4 None false;
          AdminAddTeam "alpha" 2 None false;
          UpdateTeamSize olaf "alpha" 0 true] empty_store)
  = Some (Some [("alpha", 2)]).
Proof. vm_compute. reflexivity. Qed.

(** In every store a run can reach, waitlist entries are positive and roster
    entries are not negative; a roster entry of size 0 is the one thing the
    runs above add to that. *)
Lemma reachable_sizes
  (DEFAULT_MAX_SLOTS DEFAULT_MAX_TEAM_SIZE EXPANDED_MAX_TEAM_SIZE : Z)
  (cs : list Command) (s0 s : Store) (event : Event) :
  0 <= DEFAULT_MAX_SLOTS ->
  event_data s0 = None ->
  run DEFAULT_MAX_SLOTS DEFAULT_MAX_TEAM_SIZE EXPANDED_MAX_TEAM_SIZE cs s0 = Some s ->
  event_data s = Some event ->
  Forall (fun p => 0 <= snd p) (teams event)
  /\ Forall (fun p => 0 < snd p) (waitlist event).
Proof.
  intros HD H0 Hrun He.
  destruct (run_inv DEFAULT_MAX_SLOTS DEFAULT_MAX_TEAM_SIZE EXPANDED_MAX_TEAM_SIZE HD cs s0)
    as (s' & Hrun' & Hinv).
  { intros e Hs0. congruence. }
  rewrite Hrun in Hrun'. injection Hrun' as <-.
  destruct (Hinv event He) as (_ & _ & _ & H4 & H5). now split.
Qed.


(** * Further properties of the engine *)

(** ** The promoter: bookkeeping, saturation and order *)

Lemma promote_waitlist_account (w : list (string * Z)) :
  forall (f : Z) (t : dict Z) (u : Z) w' t' u' pr,
    promote_waitlist w f t u = (w', t', u', pr) ->
    u' + sum_sizes w' = u + sum_sizes w
    /\ sum_sizes t' - sum_sizes t = u' - u
    /\ sum_sizes pr = u' - u
    /\ (0 < f -> w' = [] \/ u' = u + f).
Proof.
  induction w as [|[n z] r IH]; intros f t u w' t' u' pr H; simpl in H.
  - injection H as <- <- <- <-. simpl. repeat split; try lia. now left.
  - destruct (f >? 0) eqn:Hf; zbool.
    + destruct (z <=? f) eqn:Hzf; zbool.
      * destruct (promote_waitlist r (f - z) _ _) as [[[w1 t1] u1] p1] eqn:E.
        injection H as <- <- <- <-.
        pose proof E as E'. apply IH in E. destruct E as (E1 & E2 & E3 & E4).
        rewrite sum_sizes_dict_set in E2. simpl.
        fold (sum_sizes r) (sum_sizes p1).
        repeat split; try lia.
        intros _. destruct (Z.eq_dec z f) as [->|Hne].
        -- right. clear - E'. replace (f - f) with 0 in E' by lia.
           destruct r as [|[n' z'] r']; simpl in E'; now injection E' as _ _ <- _.
        -- destruct E4 as [E4|E4]; [lia | now left | right; lia].
      * injection H as <- <- <- <-. rewrite sum_sizes_dict_set. simpl.
        fold (sum_sizes r). repeat split; lia.
    + injection H as <- <- <- <-. simpl. fold (sum_sizes r).
      repeat split; try lia.
Qed.

(** The waitlist that is left: the old one from some position on, whose
    head may have lost the members that moved. *)
Lemma promote_waitlist_suffix (w : list (string * Z)) :
  forall (f : Z) (t : dict Z) (u : Z) w' t' u' pr,
    promote_waitlist w f t u = (w', t', u', pr) ->
    exists k,
      w' = skipn k w
      \/ exists n z moved rest,
           skipn k w = (n, z) :: rest /\ w' = (n, z - moved) :: rest /\ 0 < moved < z.
Proof.
  induction w as [|[n z] r IH]; intros f t u w' t' u' pr H; simpl in H.
  - injection H as <- _ _ _. exists 0%nat. now left.
  - destruct (f >? 0) eqn:Hf; zbool.
    + destruct (z <=? f) eqn:Hzf; zbool.
      * destruct (promote_waitlist r (f - z) _ _) as [[[w1 t1] u1] p1] eqn:E.
        injection H as <- _ _ _.
        destruct (IH _ _ _ _ _ _ _ E) as [k Hk]. exists (S k). exact Hk.
      * injection H as <- _ _ _. exists 0%nat. right.
        exists n, z, f, r. simpl. repeat split; lia.
    + injection H as <- _ _ _. exists 0%nat. now left.
Qed.

Lemma promote_event_fields (f : Z) (event : Event) :
  max_slots (promote_event f event) = max_slots event
  /\ max_team_size (promote_event f event) = max_team_size event
  /\ expiry_date (promote_event f event) = expiry_date event
  /\ ev_name (promote_event f event) = ev_name event
  /\ ev_date (promote_event f event) = ev_date event.
Proof.
  unfold promote_event.
  destruct (promote_waitlist _ _ _ _) as [[[w t] u] pr]. now repeat split.
Qed.

(** X1.  Promotion moves members, it neither invents nor loses any: the
    roster count plus the waitlist count is the same before and after, the
    roster sum grows by what [slots_used] grows, and capacity, cap and
    assignments are untouched. *)
Theorem promotion_conserves_headcount (free_slots : Z) (s : Store) (event : Event) :
  get_event s = Some event ->
  exists event',
    process_waitlist_after_change free_slots s
    = mkStore (Some event') (user_team_assignments s)
    /\ headcount event' = headcount event
    /\ sum_sizes (teams event') - sum_sizes (teams event)
       = slots_used event' - slots_used event
    /\ max_slots event' = max_slots event
    /\ max_team_size event' = max_team_size event.
Proof.
  intro He. rewrite (process_waitlist_after_change_eq free_slots s event He).
  exists (promote_event free_slots event). split; [reflexivity|].
  destruct (promote_event_fields free_slots event) as (F1 & F2 & _).
  unfold headcount, promote_event in *.
  destruct (promote_waitlist _ _ _ _) as [[[w t] u] pr] eqn:E.
  apply promote_waitlist_account in E. destruct E as (E1 & E2 & _ & _).
  simpl in *. repeat split; auto; lia.
Qed.

Lemma promotion_conserves_headcount_witness :
  exists event',
    process_waitlist_after_change 4 fifo_store
    = mkStore (Some event') (user_team_assignments fifo_store)
    /\ headcount event' = headcount fifo_event
    /\ sum_sizes (teams event') - sum_sizes (teams fifo_event)
       = slots_used event' - slots_used fifo_event
    /\ max_slots event' = max_slots fifo_event
    /\ max_team_size event' = max_team_size fifo_event.
Proof. apply promotion_conserves_headcount. reflexivity. Defined.

(** X2.  The promoter does not leave freed slots unused while teams wait:
    called with [free_slots > 0], it ends with an empty waitlist or with all
    [free_slots] taken. *)
Theorem promotion_saturates (free_slots : Z) (s : Store) (event : Event) :
  get_event s = Some event ->
  0 < free_slots ->
  exists event',
    process_waitlist_after_change free_slots s
    = mkStore (Some event') (user_team_assignments s)
    /\ (waitlist event' = [] \/ slots_used event' = slots_used event + free_slots).
Proof.
  intros He Hf. rewrite (process_waitlist_after_change_eq free_slots s event He).
  exists (promote_event free_slots event). split; [reflexivity|].
  unfold promote_event.
  destruct (promote_waitlist _ _ _ _) as [[[w t] u] pr] eqn:E.
  apply promote_waitlist_account in E. destruct E as (_ & _ & _ & E4).
  simpl. exact (E4 Hf).
Qed.

Lemma promotion_saturates_witness :
  exists event',
    process_waitlist_after_change 4 fifo_store
    = mkStore (Some event') (user_team_assignments fifo_store)
    /\ (waitlist event' = [] \/ slots_used event' = slots_used fifo_event + 4).
Proof. apply promotion_saturates; [reflexivity | lia]. Defined.

(** X3.  The promoter never reorders the waitlist and never serves a team
    behind a head that does not fit: what is left is the old waitlist from
    some position on, and only the entry at its head can have shrunk. *)
Theorem promotion_keeps_order (free_slots : Z) (s : Store) (event : Event) :
  get_event s = Some event ->
  exists event' k,
    process_waitlist_after_change free_slots s
    = mkStore (Some event') (user_team_assignments s)
    /\ (waitlist event' = skipn k (waitlist event)
        \/ exists n z moved rest,
             skipn k (waitlist event) = (n, z) :: rest
             /\ waitlist event' = (n, z - moved) :: rest
             /\ 0 < moved < z).
Proof.
  intro He. rewrite (process_waitlist_after_change_eq free_slots s event He).
  unfold promote_event.
  destruct (promote_waitlist _ _ _ _) as [[[w t] u] pr] eqn:E.
  destruct (promote_waitlist_suffix _ _ _ _ _ _ _ _ E) as [k Hk].
  eexists; exists k. split; [reflexivity|]. exact Hk.
Qed.

Lemma promotion_keeps_order_witness :
  exists event' k,
    process_waitlist_after_change 4 fifo_store
    = mkStore (Some event') (user_team_assignments fifo_store)
    /\ (waitlist event' = skipn k (waitlist fifo_event)
        \/ exists n z moved rest,
             skipn k (waitlist fifo_event) = (n, z) :: rest
             /\ waitlist event' = (n, z - moved) :: rest
             /\ 0 < moved < z).
Proof. apply promotion_keeps_order. reflexivity. Defined.

(** ** A request sets the team's total size *)

Lemma find_ci_dict_set_other {V : Type} (d : dict V) (k q : string) (v : V) :
  (lower k =? q)%string = false -> find_ci (dict_set d k v) q = find_ci d q.
Proof.
  intro Hk. unfold find_ci.
  induction d as [|[k' v'] r IH]; simpl; [now rewrite Hk|].
  destruct (String.eqb_spec k' k) as [->|Hne]; simpl.
  - now rewrite Hk.
  - now rewrite IH.
Qed.

Lemma find_ci_filter_nil {V : Type} (d : dict V) (q : string) :
  filter (fun p => (lower (fst p) =? q)%string) d = [] -> find_ci d q = None.
Proof.
  unfold find_ci. induction d as [|p r IH]; simpl; [reflexivity|].
  destruct (lower (fst p) =? q)%string; [discriminate | exact IH].
Qed.

(** With one roster key per team, popping the key removes the team. *)
Lemma find_ci_dict_pop_unique {V : Type} (d : dict V) (q r : string) (v : V) :
  (List.length (filter (fun p => (lower (fst p) =? q)%string) d) <= 1)%nat ->
  find_ci d q = Some (r, v) -> find_ci (dict_pop d r) q = None.
Proof.
  intros Hone H. pose proof (find_ci_key d q r v H) as Hr. revert Hone H.
  unfold find_ci. induction d as [|[k x] d' IH]; simpl; [discriminate|].
  destruct (lower k =? q)%string eqn:Hk; simpl.
  - intros Hone H. injection H as -> ->. rewrite String.eqb_refl.
    apply find_ci_filter_nil. destruct (filter _ d'); [reflexivity | simpl in Hone; lia].
  - intros Hone H. destruct (String.eqb_spec k r) as [->|_]; [congruence|].
    simpl. rewrite Hk. exact (IH Hone H).
Qed.

(** Promotion of other teams does not touch a team that is not waiting. *)
Lemma promote_waitlist_other (q : string) (w : list (string * Z)) :
  forall (f : Z) (t : dict Z) (u : Z) w' t' u' pr,
    promote_waitlist w f t u = (w', t', u', pr) ->
    filter (waitlist_matches q) w = [] ->
    find_ci t' q = find_ci t q /\ filter (waitlist_matches q) w' = [].
Proof.
  induction w as [|[n z] r IH]; intros f t u w' t' u' pr H Hnone; simpl in H.
  - injection H as <- <- _ _. now split.
  - simpl in Hnone. destruct (waitlist_matches q (n, z)) eqn:Hm; [discriminate|].
    assert (Hn : (lower n =? q)%string = false) by exact Hm.
    destruct (f >? 0).
    + destruct (z <=? f).
      * destruct (promote_waitlist r (f - z) _ _) as [[[w1 t1] u1] p1] eqn:E.
        injection H as <- <- _ _.
        destruct (IH _ _ _ _ _ _ _ E Hnone) as [I1 I2].
        now rewrite I1, find_ci_dict_set_other.
      * injection H as <- <- _ _. split.
        -- now apply find_ci_dict_set_other.
        -- simpl. unfold waitlist_matches in *. simpl in *. now rewrite Hn.
    + injection H as <- <- _ _. split; [reflexivity|].
      simpl. now rewrite Hm.
Qed.

Lemma promote_event_other (q : string) (f : Z) (event : Event) :
  filter (waitlist_matches q) (waitlist event) = [] ->
  total_size (team_total (promote_event f event) q) = total_size (team_total event q).
Proof.
  intro Hnone. unfold promote_event.
  destruct (promote_waitlist _ _ _ _) as [[[w t] u] pr] eqn:E.
  destruct (promote_waitlist_other q _ _ _ _ _ _ _ _ E Hnone) as [P1 P2].
  simpl. unfold roster_size, waitlist_total. now rewrite P1, P2, Hnone.
Qed.

(** The promoter call at the end of a request runs the loop or does nothing. *)
Lemma process_waitlist_after_change_cases (f : Z) (event : Event) (asg : dict string) :
  process_waitlist_after_change f (mkStore (Some event) asg) = mkStore (Some event) asg
  \/ process_waitlist_after_change f (mkStore (Some event) asg)
     = mkStore (Some (promote_event f event)) asg.
Proof.
  unfold process_waitlist_after_change.
  destruct (get_event (mkStore (Some event) asg)) as [e|] eqn:He; [|now left].
  apply get_event_Some in He. simpl in He. injection He as <-.
  destruct (_ || _)%bool; [now left | now right].
Qed.

Lemma waitlist_total_zero_filter (q : string) (w : list (string * Z)) :
  Forall (fun p => 0 < snd p) w -> waitlist_total q w = 0 ->
  filter (waitlist_matches q) w = [].
Proof.
  unfold waitlist_total, sum_sizes.
  induction 1 as [|p r Hp Hr IH]; simpl; [reflexivity|].
  destruct (waitlist_matches q p) eqn:Hm; simpl; [|exact IH].
  pose proof (waitlist_total_nonneg q r Hr) as Hn.
  unfold waitlist_total, sum_sizes in Hn. lia.
Qed.

Lemma filter_matches_removed (q : string) (w : list (string * Z)) :
  filter (waitlist_matches q) (filter (fun e => negb (waitlist_matches q e)) w) = [].
Proof.
  induction w as [|p r IH]; simpl; [reflexivity|].
  destruct (waitlist_matches q p) eqn:Hm; simpl; [exact IH|]. now rewrite Hm.
Qed.

Lemma reduce_waitlist_keeps (event : Event) (q : string) (total : TeamTotal) (wr : Z) :
  teams (reduce_waitlist event q total wr) = teams event
  /\ (Forall (fun p => 0 < snd p) (waitlist event) ->
      Forall (fun p => 0 < snd p) (waitlist (reduce_waitlist event q total wr))).
Proof.
  unfold reduce_waitlist.
  destruct (find_index_from _ _ _) as [[i [n z]]|]; [|now split].
  destruct (_ && _)%bool; [|now split].
  destruct (waitlist_size total - wr >? 0) eqn:Hpos; zbool; simpl;
    (split; [reflexivity|]); intro Hw.
  - apply Forall_list_set; [exact Hw | simpl; lia].
  - now apply Forall_list_pop.
Qed.

Lemma reduce_roster_size (event : Event) (q : string) (total : TeamTotal) (er : Z) :
  truthy q = true ->
  event_size total = roster_size q (teams event) ->
  er = 0 \/ 0 < er < roster_size q (teams event) ->
  roster_size q (teams (reduce_roster event q total er)) = roster_size q (teams event) - er
  /\ waitlist (reduce_roster event q total er) = waitlist event.
Proof.
  intros Ht Hes Her. unfold reduce_roster.
  destruct (find_ci (teams event) q) as [[n v]|] eqn:E; simpl.
  - destruct (find_ci_roster_size _ _ _ _ E) as [Hv _]. rewrite Hv in *.
    rewrite (matching_key_truthy n q Ht (find_ci_key _ _ _ _ E)), andb_true_r.
    destruct Her as [->|Her].
    + simpl. split; [lia | reflexivity].
    + replace (er >? 0) with true by (symmetry; apply Z.gtb_lt; lia).
      rewrite Hes.
      replace (v - er >? 0) with true by (symmetry; apply Z.gtb_lt; lia).
      simpl. unfold roster_size.
      rewrite (find_ci_dict_set_hit _ _ _ _ (v - er) E). now split.
  - unfold roster_size in Her. rewrite E in Her. split; [|reflexivity].
    destruct Her as [->|Her]; lia.
Qed.

Lemma remove_roster_entry_gone (event : Event) (q : string) :
  Forall (fun p => 0 <= snd p) (teams event) ->
  (List.length (filter (roster_matches q) (teams event)) <= 1)%nat ->
  roster_size q (teams (remove_roster_entry event q (team_total event q))) = 0
  /\ waitlist (remove_roster_entry event q (team_total event q)) = waitlist event.
Proof.
  intros Hnn Hone. unfold remove_roster_entry. simpl.
  pose proof (roster_size_nonneg q (teams event) Hnn) as Hes.
  destruct (roster_size q (teams event) >? 0) eqn:Hpos; zbool.
  - destruct (find_ci (teams event) q) as [[n v]|] eqn:E.
    + simpl. unfold roster_size.
      now rewrite (find_ci_dict_pop_unique _ _ _ _ Hone E).
    + unfold roster_size in Hpos. rewrite E in Hpos. lia.
  - split; [lia | reflexivity].
Qed.

(** The core of it: what an accepted request leaves as the team's total. *)
Lemma apply_team_size_total
  (i : Interaction) (t : string) (n : Z) (event : Event) (asg0 : dict string) :
  lower t = t -> truthy t = true -> 0 <= n ->
  Forall (fun p => 0 <= snd p) (teams event) ->
  Forall (fun p => 0 < snd p) (waitlist event) ->
  (List.length (filter (roster_matches t) (teams event)) <= 1)%nat ->
  (List.length (filter (waitlist_matches t) (waitlist event)) <= 1)%nat ->
  exists event',
    event_data (apply_team_size i t n event asg0 (team_total event t)) = Some event'
    /\ total_size (team_total event' t) = n.
Proof.
  intros Hq Ht Hn Hnn Hpos Hr1 Hw1.
  pose proof (roster_size_nonneg t (teams event) Hnn) as Hes.
  pose proof (waitlist_total_nonneg t (waitlist event) Hpos) as Hwl.
  assert (Hfin : forall f e1 asg,
            total_size (team_total e1 t) = n ->
            filter (waitlist_matches t) (waitlist e1) = [] ->
            exists event',
              event_data (process_waitlist_after_change f (mkStore (Some e1) asg))
              = Some event'
              /\ total_size (team_total event' t) = n).
  { intros f e1 asg Htot Hnone.
    destruct (process_waitlist_after_change_cases f e1 asg) as [-> | ->].
    - now exists e1.
    - exists (promote_event f e1). split; [reflexivity|].
      now rewrite promote_event_other. }
  unfold apply_team_size.
  match goal with
  | |- context [if ?c then dict_set ?d ?k ?v else ?d] =>
      generalize (if c then dict_set d k v else d); intro asg
  end.
  destruct (n =? 0) eqn:Hn0; zbool.
  - (* cancellation *)
    unfold unregister_team.
    destruct (remove_roster_entry_gone event t Hnn Hr1) as [G1 G2].
    set (e1 := remove_roster_entry event t (team_total event t)) in *.
    assert (Hsame : remove_waitlist_entries e1 t (team_total event t)
                    = remove_waitlist_entries e1 t (team_total e1 t)).
    { unfold remove_waitlist_entries. simpl. now rewrite G2. }
    rewrite Hsame.
    assert (Hpos1 : Forall (fun p => 0 < snd p) (waitlist e1)) by now rewrite G2.
    pose proof (remove_waitlist_entries_filter e1 t Hpos1) as Hf.
    assert (Hteams : teams (remove_waitlist_entries e1 t (team_total e1 t)) = teams e1).
    { unfold remove_waitlist_entries. now destruct (_ >? 0). }
    set (e2 := remove_waitlist_entries e1 t (team_total e1 t)) in *.
    assert (Hnone : filter (waitlist_matches t) (waitlist e2) = []).
    { rewrite Hf. apply filter_matches_removed. }
    assert (Htot : total_size (team_total e2 t) = n).
    { simpl. rewrite Hteams, G1. unfold waitlist_total. rewrite Hnone. simpl. lia. }
    destruct (event_size (team_total event t) >? 0).
    + exact (Hfin (event_size (team_total event t)) e2 (release_users asg t) Htot Hnone).
    + exists e2. split; [reflexivity | exact Htot].
  - simpl total_size.
    destruct (n - (roster_size t (teams event) + waitlist_total t (waitlist event)) =? 0)
      eqn:Hd0; zbool.
    + exists event. split; [reflexivity|]. simpl. lia.
    + destruct (n - (roster_size t (teams event) + waitlist_total t (waitlist event)) >? 0)
        eqn:Hd; zbool.
      * (* increase *)
        eexists. split; [reflexivity|].
        set (d := n - (roster_size t (teams event) + waitlist_total t (waitlist event))) in *.
        assert (Hdpos : 0 < d) by lia.
        destruct (increase_team_size_spec event t d Hq Ht Hdpos) as (_ & S2 & _).
        pose proof (increase_team_size_waitlist_total event t d Hq Ht Hdpos Hw1) as S7.
        simpl in *. rewrite S2, S7. unfold d. lia.
      * (* decrease *)
        unfold decrease_team_size. simpl waitlist_size.
        set (reduction := Z.abs (n - (roster_size t (teams event)
                                       + waitlist_total t (waitlist event)))).
        set (wr := Z.min (waitlist_total t (waitlist event)) reduction).
        assert (Hred : reduction
                       = roster_size t (teams event) + waitlist_total t (waitlist event) - n)
          by (unfold reduction; lia).
        assert (Hwr : 0 <= wr <= waitlist_total t (waitlist event)) by (unfold wr; lia).
        pose proof (reduce_waitlist_single_entry event t wr Ht Hw1 Hwr) as W1.
        destruct (reduce_waitlist_keeps event t (team_total event t) wr) as [K1 K2].
        specialize (K2 Hpos).
        set (e1 := reduce_waitlist event t (team_total event t) wr) in *.
        assert (Her : reduction - wr = 0
                      \/ 0 < reduction - wr < roster_size t (teams e1)).
        { rewrite K1. unfold wr. lia. }
        destruct (reduce_roster_size e1 t (team_total event t) (reduction - wr) Ht)
          as [R1 R2]; [simpl; now rewrite K1 | exact Her |].
        set (e2 := reduce_roster e1 t (team_total event t) (reduction - wr)) in *.
        assert (Htot : total_size (team_total e2 t) = n).
        { simpl. rewrite R1, R2, W1, K1. lia. }
        destruct (reduction - wr >? 0) eqn:Hgt; zbool.
        -- assert (Hnone : filter (waitlist_matches t) (waitlist e2) = []).
           { rewrite R2. apply waitlist_total_zero_filter; [exact K2|].
             rewrite W1. unfold wr. lia. }
           exact (Hfin (reduction - wr) e2 asg Htot Hnone).
        -- exists e2. split; [reflexivity | exact Htot].
Qed.

(** X4.  What a request is for: after an accepted
    [update_team_size(T, new_size)] the total size of T, as
    [get_team_total_size] reports it, is [new_size], whatever promotion the
    request triggered.  This needs a tidy event: sizes not negative in the
    roster and positive on the waitlist, and at most one roster key and one
    waitlist entry for T. *)
Theorem update_team_size_sets_total
  (i : Interaction) (q : string) (n : Z) (a : bool) (s : Store) (event : Event) :
  get_event s = Some event ->
  passes_validation i q n a s = true ->
  Forall (fun p => 0 <= snd p) (teams event) ->
  Forall (fun p => 0 < snd p) (waitlist event) ->
  (List.length (filter (roster_matches (lower (strip q))) (teams event)) <= 1)%nat ->
  (List.length (filter (waitlist_matches (lower (strip q))) (waitlist event)) <= 1)%nat ->
  exists s' event',
    update_team_size i q n a s = Some (true, s')
    /\ event_data s' = Some event'
    /\ option_map total_size
         (get_team_total_size (stored_teams event') (stored_waitlist event') q)
       = Some n.
Proof.
  intros He Hp Hnn Hpos Hr1 Hw1.
  destruct (passes_validation_facts i q n a s Hp) as (Ht & Hn & _).
  rewrite (update_team_size_accepted i q n a s event He Hp).
  destruct (apply_team_size_total i (lower (strip q)) n event (user_team_assignments s)
              (lower_idem _) Ht Hn Hnn Hpos Hr1 Hw1) as (event' & E1 & E2).
  eexists; exists event'. split; [reflexivity|]. split; [exact E1|].
  rewrite get_team_total_size_stored. simpl. simpl in E2. now rewrite E2.
Qed.

Lemma update_team_size_sets_total_witness :
  exists s' event',
    update_team_size alice "alpha" 6 false full_store = Some (true, s')
    /\ event_data s' = Some event'
    /\ option_map total_size
         (get_team_total_size (stored_teams event') (stored_waitlist event') "alpha")
       = Some 6.
Proof.
  apply (update_team_size_sets_total alice "alpha" 6 false full_store full_event);
    first [ reflexivity
          | repeat constructor; simpl; lia
          | vm_compute; lia ].
Defined.

(** ** One entry per team *)

Lemma in_keys_dict_set {V : Type} (d : dict V) (k x : string) (v : V) :
  In x (map fst (dict_set d k v)) -> x = k \/ In x (map fst d).
Proof.
  induction d as [|[k' v'] r IH]; simpl.
  - intros [H|[]]; auto.
  - destruct (String.eqb_spec k' k) as [->|Hne]; simpl; intros [H|H]; auto.
    destruct (IH H); auto.
Qed.

Lemma NoDup_keys_dict_set {V : Type} (d : dict V) (k : string) (v : V) :
  NoDup (map fst d) -> NoDup (map fst (dict_set d k v)).
Proof.
  induction d as [|[k' v'] r IH]; simpl; intro H.
  - constructor; [intros [] | constructor].
  - inversion H as [|? ? Hin Hr]; subst.
    destruct (String.eqb_spec k' k) as [->|Hne]; simpl.
    + now constructor.
    + constructor; [|now apply IH].
      intro Hx. destruct (in_keys_dict_set _ _ _ _ Hx) as [->|Hx']; auto.
Qed.

Lemma in_keys_dict_pop {V : Type} (d : dict V) (k x : string) :
  In x (map fst (dict_pop d k)) -> In x (map fst d).
Proof.
  induction d as [|[k' v'] r IH]; simpl; [auto|].
  destruct (k' =? k)%string; simpl; [auto|]. intros [H|H]; auto.
Qed.

Lemma NoDup_keys_dict_pop {V : Type} (d : dict V) (k : string) :
  NoDup (map fst d) -> NoDup (map fst (dict_pop d k)).
Proof.
  induction d as [|[k' v'] r IH]; simpl; intro H; [constructor|].
  inversion H as [|? ? Hin Hr]; subst.
  destruct (k' =? k)%string; simpl; [assumption|].
  constructor; [|now apply IH]. intro Hx. now apply in_keys_dict_pop in Hx.
Qed.

Lemma in_names_list_pop (w : list (string * Z)) (i : nat) (x : string) :
  In x (map fst (list_pop w i)) -> In x (map fst w).
Proof.
  revert i. induction w as [|p r IH]; intros [|j]; simpl; auto.
  intros [H|H]; eauto.
Qed.

Lemma NoDup_names_list_pop (w : list (string * Z)) (i : nat) :
  NoDup (map fst w) -> NoDup (map fst (list_pop w i)).
Proof.
  revert i. induction w as [|p r IH]; intros [|j] H; simpl; auto;
    inversion H as [|? ? Hin Hr]; subst; auto.
  constructor; [|now apply IH]. intro Hx. now apply in_names_list_pop in Hx.
Qed.

Lemma NoDup_names_pop_all (idxs : list nat) (w : list (string * Z)) :
  NoDup (map fst w) -> NoDup (map fst (fold_left list_pop idxs w)).
Proof.
  revert w. induction idxs as [|i r IH]; simpl; intros w H; [exact H|].
  apply IH, NoDup_names_list_pop, H.
Qed.

(** Overwriting the entry found by name keeps every name in its place. *)
Lemma names_list_set_found (p : string * Z -> bool) (w : list (string * Z)) (x : Z) :
  forall k i n z, find_index_from p k w = Some (i, (n, z)) ->
    map fst (list_set w (i - k)%nat (n, x)) = map fst w.
Proof.
  induction w as [|h r IH]; intros k i n z; simpl; [discriminate|].
  destruct (p h) eqn:Hp.
  - intro H. injection H as <- ->. now rewrite Nat.sub_diag.
  - intro H. pose proof (find_index_from_ge p r _ _ _ H) as Hge.
    replace (i - k)%nat with (S (i - S k)) by lia. simpl.
    now rewrite (IH _ _ _ _ H).
Qed.

Lemma find_index_from_in (p : string * Z -> bool) (w : list (string * Z)) :
  forall k i e, find_index_from p k w = Some (i, e) -> In e w.
Proof.
  induction w as [|h r IH]; intros k i e; simpl; [discriminate|].
  destruct (p h).
  - intro H. injection H as _ <-. now left.
  - intro H. right. eapply IH, H.
Qed.

Lemma not_waiting_not_named (q : string) (w : list (string * Z)) :
  lower q = q -> filter (waitlist_matches q) w = [] -> ~ In q (map fst w).
Proof.
  intros Hq. induction w as [|[n z] r IH]; simpl; [auto|].
  destruct (waitlist_matches q (n, z)) eqn:Hm; [discriminate|].
  intros Hnone [H|H]; [|exact (IH Hnone H)].
  subst n. unfold waitlist_matches in Hm. simpl in Hm.
  rewrite Hq, String.eqb_refl in Hm. discriminate.
Qed.

Lemma not_exists_not_named (name : string) (w : list (string * Z)) :
  existsb (fun e => (fst e =? name)%string) w = false -> ~ In name (map fst w).
Proof.
  induction w as [|[n z] r IH]; simpl; [auto|].
  destruct (String.eqb_spec n name) as [->|Hne]; simpl; [discriminate|].
  intros H [Hx|Hx]; [congruence | exact (IH H Hx)].
Qed.

Lemma NoDup_names_app_new (w : list (string * Z)) (name : string) (z : Z) :
  NoDup (map fst w) -> ~ In name (map fst w) ->
  NoDup (map fst (w ++ [(name, z)])).
Proof.
  intros H Hn. rewrite map_app. simpl.
  apply NoDup_app.
  - exact H.
  - constructor; [intros [] | constructor].
  - intros x Hx [<-|[]]. exact (Hn Hx).
Qed.

(** Lower-case and distinct names: a team matches at most one entry. *)
Lemma tidy_single (q : string) (l : list (string * Z)) :
  names_lower l -> NoDup (map fst l) ->
  (List.length (filter (fun p => (lower (fst p) =? q)%string) l) <= 1)%nat.
Proof.
  intros Hl Hd.
  induction Hl as [|[n z] r Hn Hr IH]; simpl; [lia|].
  inversion Hd as [|? ? Hin Hrest]; subst. specialize (IH Hrest).
  simpl in Hn. destruct (String.eqb_spec (lower n) q) as [Hq|Hq]; simpl; [|exact IH].
  assert (Hnone : filter (fun p => (lower (fst p) =? q)%string) r = []).
  { clear IH Hrest Hd. induction Hr as [|[n' z'] r' Hn' Hr' IH']; simpl; [reflexivity|].
    simpl in Hn', Hin.
    destruct (String.eqb_spec (lower n') q) as [Hq'|Hq'].
    - exfalso. apply Hin. left. congruence.
    - apply IH'. intro Hx. apply Hin. now right. }
  rewrite Hnone. simpl. lia.
Qed.

Lemma promote_waitlist_tidy (w : list (string * Z)) :
  forall (f : Z) (t : dict Z) (u : Z) w' t' u' pr,
    promote_waitlist w f t u = (w', t', u', pr) ->
    names_lower t -> names_lower w -> NoDup (map fst t) -> NoDup (map fst w) ->
    names_lower t' /\ names_lower w' /\ NoDup (map fst t') /\ NoDup (map fst w').
Proof.
  induction w as [|[n z] r IH]; intros f t u w' t' u' pr H Ht Hw Dt Dw; simpl in H.
  - injection H as <- <- _ _. now repeat split.
  - inversion Hw as [|? ? Hn Hr]; subst. simpl in Hn.
    inversion Dw as [|? ? Hin Dr]; subst.
    destruct (f >? 0).
    + destruct (z <=? f).
      * destruct (promote_waitlist r (f - z) _ _) as [[[w1 t1] u1] p1] eqn:E.
        injection H as <- <- _ _.
        apply (IH _ _ _ _ _ _ _ E); auto using NoDup_keys_dict_set.
        apply Forall_dict_set; auto.
      * injection H as <- <- _ _. repeat split; auto using NoDup_keys_dict_set.
        -- apply Forall_dict_set; auto.
        -- constructor; auto.
    + injection H as <- <- _ _. now repeat split.
Qed.

Lemma promote_event_tidy (f : Z) (event : Event) :
  tidy event -> tidy (promote_event f event).
Proof.
  intros (H1 & H2 & H3 & H4). unfold promote_event.
  destruct (promote_waitlist _ _ _ _) as [[[w t] u] pr] eqn:E.
  exact (promote_waitlist_tidy _ _ _ _ _ _ _ _ E H1 H2 H3 H4).
Qed.

Lemma process_waitlist_tidy (f : Z) (event : Event) (asg : dict string) :
  tidy event -> store_tidy (process_waitlist_after_change f (mkStore (Some event) asg)).
Proof.
  intro H.
  destruct (process_waitlist_after_change_cases f event asg) as [-> | ->];
    intros e He; simpl in He; injection He as <-; auto using promote_event_tidy.
Qed.

Lemma sweep_waitlist_tidy (w : list (string * Z)) :
  forall (f : Z) (t : dict Z) (u : Z) w' t' u',
    sweep_waitlist w f t u = (w', t', u') ->
    names_lower t -> names_lower w -> NoDup (map fst t) -> NoDup (map fst w) ->
    names_lower t' /\ names_lower w' /\ NoDup (map fst t') /\ NoDup (map fst w').
Proof.
  induction w as [|[n z] r IH]; intros f t u w' t' u' H Ht Hw Dt Dw; simpl in H.
  - injection H as <- <- _. now repeat split.
  - inversion Hw as [|? ? Hn Hr]; subst. simpl in Hn.
    inversion Dw as [|? ? Hin Dr]; subst.
    destruct (f >? 0).
    + destruct (z <=? f).
      * apply (IH _ _ _ _ _ _ H); auto using NoDup_keys_dict_set.
        apply Forall_dict_set; auto.
      * injection H as <- <- _. now repeat split.
    + injection H as <- <- _. now repeat split.
Qed.

Lemma find_ci_in {V : Type} (d : dict V) (q n : string) (v : V) :
  find_ci d q = Some (n, v) -> In (n, v) d.
Proof. unfold find_ci. intro H. apply find_some in H. exact (proj1 H). Qed.

Lemma add_to_roster_tidy (event : Event) (q : string) (amount : Z) :
  tidy event -> lower q = q ->
  tidy (add_to_roster event (option_map fst (find_ci (teams event) q)) q amount).
Proof.
  intros (H1 & H2 & H3 & H4) Hq. unfold add_to_roster.
  destruct (find_ci (teams event) q) as [[n v]|] eqn:E; simpl.
  - assert (Hn : lower n = n).
    { apply find_ci_in in E. unfold names_lower in H1.
      rewrite Forall_forall in H1. exact (H1 _ E). }
    destruct (truthy n); unfold tidy; simpl;
      repeat split; auto using NoDup_keys_dict_set; apply Forall_dict_set; auto.
  - unfold tidy; simpl.
    repeat split; auto using NoDup_keys_dict_set. apply Forall_dict_set; auto.
Qed.

Lemma increase_team_size_tidy (event : Event) (q : string) (total : TeamTotal) (d : Z) :
  tidy event -> lower q = q -> truthy q = true ->
  tidy (increase_team_size event q total d).
Proof.
  intros Ht Hq Htq. unfold increase_team_size.
  pose proof (add_to_roster_tidy event q) as Hadd.
  destruct (d <=? max_slots event - slots_used event); [now apply Hadd|].
  specialize (Hadd (max_slots event - slots_used event) Ht Hq).
  assert (Hw : waitlist (add_to_roster event (option_map fst (find_ci (teams event) q)) q
                                       (max_slots event - slots_used event))
               = waitlist event).
  { unfold add_to_roster. destruct (option_map _ _) as [r|]; [destruct (truthy r)|];
      reflexivity. }
  set (e1 := add_to_roster event _ q _) in *.
  destruct Hadd as (A1 & A2 & A3 & A4). rewrite Hw in A2, A4.
  assert (Happ : forall z, find_index_from (waitlist_matches q) 0 (waitlist event) = None ->
                 tidy (with_waitlist e1 (waitlist e1 ++ [(q, z)]))).
  { intros z Hnone. rewrite Hw. unfold tidy. simpl. repeat split; auto.
    - apply Forall_app. split; [exact A2|]. constructor; [exact Hq | constructor].
    - apply NoDup_names_app_new; [exact A4|].
      apply not_waiting_not_named; [exact Hq|].
      exact (find_index_from_none _ _ _ Hnone). }
  destruct (find_index_from (waitlist_matches q) 0 (waitlist event))
    as [[i [n z]]|] eqn:E; [|now apply Happ].
  destruct (find_index_from_filter _ _ _ _ _ E) as [Hm _].
  assert (Hn : lower n = n).
  { apply find_index_from_in in E. unfold names_lower in A2.
    rewrite Forall_forall in A2. exact (A2 _ E). }
  rewrite (matching_key_truthy n q Htq Hm).
  rewrite Hw. unfold tidy. simpl. repeat split; auto.
  - apply Forall_list_set; auto.
  - pose proof (names_list_set_found _ (waitlist event)
                  (waitlist_size total + (d - (max_slots event - slots_used event)))
                  _ _ _ _ E) as Hnames.
    rewrite Nat.sub_0_r in Hnames. now rewrite Hnames.
Qed.

Lemma reduce_waitlist_tidy (event : Event) (q : string) (total : TeamTotal) (wr : Z) :
  tidy event -> tidy (reduce_waitlist event q total wr).
Proof.
  intros (H1 & H2 & H3 & H4). unfold reduce_waitlist.
  destruct (find_index_from (waitlist_matches q) 0 (waitlist event))
    as [[i [n z]]|] eqn:E; [|now repeat split].
  destruct (_ && _)%bool; [|now repeat split].
  assert (Hn : lower n = n).
  { apply find_index_from_in in E. unfold names_lower in H2.
    rewrite Forall_forall in H2. exact (H2 _ E). }
  destruct (waitlist_size total - wr >? 0); unfold tidy; simpl; repeat split; auto.
  - apply Forall_list_set; auto.
  - pose proof (names_list_set_found _ (waitlist event) (waitlist_size total - wr)
                  _ _ _ _ E) as Hnames.
    rewrite Nat.sub_0_r in Hnames. now rewrite Hnames.
  - now apply Forall_list_pop.
  - now apply NoDup_names_list_pop.
Qed.

Lemma reduce_roster_tidy (event : Event) (q : string) (total : TeamTotal) (er : Z) :
  tidy event -> tidy (reduce_roster event q total er).
Proof.
  intros (H1 & H2 & H3 & H4). unfold reduce_roster.
  destruct (find_ci (teams event) q) as [[n v]|] eqn:E; simpl; [|now repeat split].
  assert (Hn : lower n = n).
  { apply find_ci_in in E. unfold names_lower in H1.
    rewrite Forall_forall in H1. exact (H1 _ E). }
  destruct (_ && _)%bool; [|now repeat split].
  destruct (event_size total - er >? 0); unfold tidy; simpl; repeat split;
    auto using NoDup_keys_dict_set, NoDup_keys_dict_pop.
  - apply Forall_dict_set; auto.
  - now apply Forall_dict_pop.
Qed.

Lemma unregister_team_tidy
  (event : Event) (asg : dict string) (q : string) (total : TeamTotal) :
  tidy event -> tidy (fst (unregister_team event asg q total)).
Proof.
  intro Ht. unfold unregister_team. simpl.
  assert (H1 : tidy (remove_roster_entry event q total)).
  { destruct Ht as (H1 & H2 & H3 & H4). unfold remove_roster_entry.
    destruct (event_size total >? 0); [|now repeat split].
    destruct (find_ci (teams event) q) as [[n v]|]; [|now repeat split].
    unfold tidy; simpl; repeat split; auto using NoDup_keys_dict_pop.
    now apply Forall_dict_pop. }
  destruct H1 as (A1 & A2 & A3 & A4). unfold remove_waitlist_entries.
  destruct (waitlist_size total >? 0); [|now repeat split].
  unfold tidy; simpl; repeat split; auto using NoDup_names_pop_all.
  now apply Forall_pop_all.
Qed.

Lemma apply_team_size_tidy
  (i : Interaction) (q : string) (n : Z) (event : Event) (asg : dict string)
  (total : TeamTotal) :
  tidy event -> lower q = q -> truthy q = true ->
  store_tidy (apply_team_size i q n event asg total).
Proof.
  intros Ht Hq Htq. unfold apply_team_size.
  match goal with
  | |- context [if ?c then dict_set asg ?k ?v else asg] =>
      generalize (if c then dict_set asg k v else asg); intro asg'
  end.
  destruct (n =? 0).
  - pose proof (unregister_team_tidy event asg' q total Ht) as Hu.
    destruct (unregister_team event asg' q total) as [e2 asg2]. simpl in Hu.
    destruct (event_size total >? 0); [now apply process_waitlist_tidy|].
    intros e He. simpl in He. now injection He as <-.
  - destruct (n - total_size total =? 0).
    + intros e He. simpl in He. now injection He as <-.
    + destruct (n - total_size total >? 0).
      * intros e He. simpl in He. injection He as <-.
        now apply increase_team_size_tidy.
      * unfold decrease_team_size.
        set (e2 := reduce_roster _ _ _ _).
        assert (H2 : tidy e2) by (apply reduce_roster_tidy, reduce_waitlist_tidy, Ht).
        destruct (_ >? 0); [now apply process_waitlist_tidy|].
        intros e He. simpl in He. now injection He as <-.
Qed.

Lemma update_team_size_tidy
  (i : Interaction) (q : string) (n : Z) (a : bool) (s : Store) :
  store_tidy s ->
  forall b s', update_team_size i q n a s = Some (b, s') -> store_tidy s'.
Proof.
  intros Hs b s' H. destruct (passes_validation i q n a s) eqn:Hp.
  - destruct (passes_validation_facts i q n a s Hp) as (Ht & Hn & event & He).
    rewrite (update_team_size_accepted i q n a s event He Hp) in H.
    injection H as _ <-.
    apply apply_team_size_tidy; auto using lower_idem.
    apply Hs. now apply get_event_Some.
  - rewrite (update_team_size_rejected i q n a s Hp) in H. now injection H as _ <-.
Qed.

Lemma admin_add_team_tidy
  (name : string) (size : Z) (uid : option string) (fw : bool) (s : Store) :
  lower name = name -> store_tidy s ->
  store_tidy (snd (admin_add_team name size uid fw s)).
Proof.
  intros Hname Hs. unfold admin_add_team.
  destruct (get_event s) as [event|] eqn:He; [|exact Hs].
  pose proof (Hs event (get_event_Some s event He)) as (H1 & H2 & H3 & H4).
  destruct (dict_mem (teams event) name); [exact Hs|].
  destruct (existsb _ _) eqn:Hex; [exact Hs|].
  destruct (_ || _)%bool; [exact Hs|].
  pose proof (not_exists_not_named name (waitlist event) Hex) as Hnew.
  assert (Hwl : forall z, names_lower (waitlist event ++ [(name, z)])
                          /\ NoDup (map fst (waitlist event ++ [(name, z)]))).
  { intro z. split.
    - apply Forall_app. split; [exact H2|]. constructor; [exact Hname | constructor].
    - now apply NoDup_names_app_new. }
  assert (Hts : forall z, names_lower (dict_set (teams event) name z)
                          /\ NoDup (map fst (dict_set (teams event) name z))).
  { intro z. split; [apply Forall_dict_set; auto | now apply NoDup_keys_dict_set]. }
  destruct fw; simpl.
  - intros e Ee. simpl in Ee. injection Ee as <-. unfold tidy. simpl.
    destruct (Hwl size). now repeat split.
  - destruct (size <=? max_slots event - slots_used event); simpl.
    + intros e Ee. simpl in Ee. injection Ee as <-. unfold tidy. simpl.
      destruct (Hts size). now repeat split.
    + destruct (max_slots event - slots_used event >? 0); simpl;
        intros e Ee; simpl in Ee; injection Ee as <-; unfold tidy; simpl.
      * destruct (Hts (max_slots event - slots_used event)).
        destruct (Hwl (size - (max_slots event - slots_used event))).
        now repeat split.
      * destruct (Hwl size). now repeat split.
Qed.

Lemma check_waitlist_and_expiry_tidy (now : Z) (s : Store) :
  store_tidy s -> store_tidy (check_waitlist_and_expiry now s).
Proof.
  intro Hs. unfold check_waitlist_and_expiry.
  destruct (get_event s) as [event|] eqn:He; [|exact Hs].
  pose proof (Hs event (get_event_Some s event He)) as (H1 & H2 & H3 & H4).
  destruct (expiry_date event) as [expiry|]; [|exact Hs].
  destruct (now >? expiry); [intros ev Hev; discriminate|].
  destruct (_ && _)%bool; [|exact Hs].
  destruct (sweep_waitlist _ _ _ _) as [[w t] u] eqn:E.
  intros e Ee. simpl in Ee. injection Ee as <-.
  exact (sweep_waitlist_tidy _ _ _ _ _ _ _ E H1 H2 H3 H4).
Qed.

Section ConfigTidy.
Variables D T E : Z.

Lemma step_tidy (c : Command) (s s' : Store) :
  admin_name_lower c -> store_tidy s -> step D T E c s = Some s' -> store_tidy s'.
Proof.
  intros Hc Hs H. destruct c; simpl in H.
  - injection H as <-. unfold create_event_internal.
    destruct (get_event s); [exact Hs|].
    destruct event_date; [|exact Hs].
    intros e Ee. simpl in Ee. injection Ee as <-.
    unfold tidy. simpl. repeat split; constructor.
  - injection H as <-. unfold delete_event.
    destruct (get_event s); [intros ev Hev; discriminate | exact Hs].
  - destruct (update_team_size interaction team_name new_size is_admin s)
      as [[b s1]|] eqn:Hu; [|discriminate].
    simpl in H. injection H as <-.
    exact (update_team_size_tidy _ _ _ _ _ Hs _ _ Hu).
  - injection H as <-. now apply admin_add_team_tidy.
  - injection H as <-. unfold close_command.
    destruct (get_event s) as [event|] eqn:He; [|exact Hs].
    destruct (negb _); [exact Hs|].
    intros e Ee. simpl in Ee. injection Ee as <-.
    exact (Hs event (get_event_Some s event He)).
  - injection H as <-. unfold open_command.
    destruct (get_event s) as [event|] eqn:He; [|exact Hs].
    destruct (negb _); [exact Hs|].
    pose proof (Hs event (get_event_Some s event He)) as Ht.
    simpl. destruct (_ >? 0).
    + now apply process_waitlist_tidy.
    + intros e Ee. simpl in Ee. now injection Ee as <-.
  - injection H as <-. unfold open_registration.
    destruct (negb _); [exact Hs|].
    destruct (get_event s) as [event|] eqn:He; [|exact Hs].
    pose proof (Hs event (get_event_Some s event He)) as Ht.
    destruct (_ =? T); [intros e Ee; simpl in Ee; now injection Ee as <-|].
    destruct (_ =? E); [intros e Ee; simpl in Ee; now injection Ee as <- | exact Hs].
  - injection H as <-. unfold open_reg_callback.
    destruct (negb _); [exact Hs|].
    destruct (get_event s) as [event|] eqn:He; [|exact Hs].
    pose proof (Hs event (get_event_Some s event He)) as Ht.
    intros e Ee; simpl in Ee; now injection Ee as <-.
  - injection H as <-. unfold reset_team_assignment.
    destruct (negb _); [exact Hs|]. destruct (negb _); [exact Hs|].
    intros e Ee. exact (Hs e Ee).
  - injection H as <-. now apply check_waitlist_and_expiry_tidy.
Qed.

Lemma run_tidy (cs : list Command) :
  forall s s', Forall admin_name_lower cs -> store_tidy s ->
               run D T E cs s = Some s' -> store_tidy s'.
Proof.
  induction cs as [|c r IH]; intros s s' Hcs Hs H; simpl in H.
  - now injection H as <-.
  - inversion Hcs as [|? ? Hc Hr]; subst.
    destruct (step D T E c s) as [s1|] eqn:H1; [|discriminate].
    exact (IH s1 s' Hr (step_tidy c s s1 Hc Hs H1) H).
Qed.
End ConfigTidy.

(** X5.  As long as the admin command is given lower-case team names (the
    admin form lower-cases them), every store a run reaches holds at most
    one roster key and at most one waitlist entry per team, whatever the
    casing of the name asked for. *)
Theorem one_entry_per_team
  (DEFAULT_MAX_SLOTS DEFAULT_MAX_TEAM_SIZE EXPANDED_MAX_TEAM_SIZE : Z)
  (cs : list Command) (s0 s : Store) (event : Event) (team_name : string) :
  event_data s0 = None ->
  Forall admin_name_lower cs ->
  run DEFAULT_MAX_SLOTS DEFAULT_MAX_TEAM_SIZE EXPANDED_MAX_TEAM_SIZE cs s0 = Some s ->
  event_data s = Some event ->
  (List.length (filter (roster_matches team_name) (teams event)) <= 1)%nat
  /\ (List.length (filter (waitlist_matches team_name) (waitlist event)) <= 1)%nat.
Proof.
  intros H0 Hcs Hrun He.
  assert (Hs0 : store_tidy s0) by (intros e Hs0; congruence).
  destruct (run_tidy _ _ _ cs s0 s Hcs Hs0 Hrun event He) as (H1 & H2 & H3 & H4).
  split; now apply tidy_single.
Qed.

Lemma one_entry_per_team_witness :
  (List.length (filter (roster_matches "Alpha") (teams busy_season_event)) <= 1)%nat
  /\ (List.length (filter (waitlist_matches "Alpha") (waitlist busy_season_event)) <= 1)%nat.
Proof.
  apply (one_entry_per_team 20 9 18 busy_season empty_store busy_season_store);
    first [ reflexivity | repeat constructor ].
Defined.

(** ** The periodic pass *)

Lemma sweep_waitlist_prefix (w : list (string * Z)) :
  forall (f : Z) (t : dict Z) (u : Z) w' t' u',
    sweep_waitlist w f t u = (w', t', u') ->
    exists k,
      w' = skipn k w
      /\ u' = u + sum_sizes (firstn k w)
      /\ sum_sizes t' = sum_sizes t + sum_sizes (firstn k w)
      /\ match w' with
         | [] => True
         | (_, size) :: _ => f - (u' - u) <= 0 \/ f - (u' - u) < size
         end.
Proof.
  induction w as [|[n z] r IH]; intros f t u w' t' u' H; simpl in H.
  - injection H as <- <- <-. exists 0%nat. simpl. repeat split; lia.
  - destruct (f >? 0) eqn:Hf; zbool.
    + destruct (z <=? f) eqn:Hzf; zbool.
      * destruct (IH _ _ _ _ _ _ H) as (k & E1 & E2 & E3 & E4).
        exists (S k). simpl. rewrite sum_sizes_dict_set in E3.
        repeat split; [exact E1 | lia | lia |].
        destruct w' as [|[n' z'] r']; [exact I|].
        destruct E4 as [E4|E4]; [left | right]; lia.
      * injection H as <- <- <-. exists 0%nat. simpl. repeat split; lia.
    + injection H as <- <- <-. exists 0%nat. simpl. repeat split; lia.
Qed.

(** X6.  The periodic pass moves whole teams only: on an event that has not
    expired, what is left waiting is the old waitlist without its first [k]
    entries, each entry left as it was; the people of those [k] entries are
    now counted in [slots_used] and in the roster; and the pass stops only
    at an empty waitlist or at a head that is larger than the room left,
    so a large head blocks the smaller teams behind it. *)
Theorem periodic_pass_moves_whole_teams
  (now expiry : Z) (s : Store) (event : Event) :
  get_event s = Some event ->
  expiry_date event = Some expiry ->
  now <= expiry ->
  Forall (fun p => 0 < snd p) (waitlist event) ->
  exists event' k,
    event_data (check_waitlist_and_expiry now s) = Some event'
    /\ waitlist event' = skipn k (waitlist event)
    /\ slots_used event' = slots_used event + sum_sizes (firstn k (waitlist event))
    /\ sum_sizes (teams event') = sum_sizes (teams event) + sum_sizes (firstn k (waitlist event))
    /\ max_slots event' = max_slots event
    /\ match waitlist event' with
       | [] => True
       | (_, size) :: _ => max_slots event' - slots_used event' < size
       end.
Proof.
  intros He Hx Hnow Hw. unfold check_waitlist_and_expiry. rewrite He, Hx.
  destruct (now >? expiry) eqn:Hn; zbool; [lia|].
  destruct ((slots_used event <? max_slots event)
            && match waitlist event with [] => false | _ => true end)%bool eqn:Hg.
  - destruct (sweep_waitlist _ _ _ _) as [[w t] u] eqn:E.
    destruct (sweep_waitlist_prefix _ _ _ _ _ _ _ E) as (k & E1 & E2 & E3 & E4).
    exists (with_slots_used (with_teams (with_waitlist event w) t) u), k. simpl.
    repeat split; auto.
    destruct w as [|[n z] r]; [exact I|].
    assert (Hz : 0 < z).
    { assert (Hin : In (n, z) (waitlist event)).
      { rewrite <- (firstn_skipn k (waitlist event)), <- E1.
        apply in_or_app. right. now left. }
      rewrite Forall_forall in Hw. exact (Hw _ Hin). }
    lia.
  - exists event, 0%nat. simpl. rewrite (get_event_Some s event He).
    repeat split; try lia.
    destruct (waitlist event) as [|[n z] r] eqn:Ew; [exact I|].
    inversion Hw as [|? ? Hz Hr]; subst. simpl in Hz.
    rewrite Bool.andb_true_r in Hg. zbool. lia.
Qed.

Lemma periodic_pass_moves_whole_teams_witness :
  exists event' k,
    event_data (check_waitlist_and_expiry 50 queue_store) = Some event'
    /\ waitlist event' = skipn k (waitlist queue_event)
    /\ slots_used event'
       = slots_used queue_event + sum_sizes (firstn k (waitlist queue_event))
    /\ sum_sizes (teams event')
       = sum_sizes (teams queue_event) + sum_sizes (firstn k (waitlist queue_event))
    /\ max_slots event' = max_slots queue_event
    /\ match waitlist event' with
       | [] => True
       | (_, size) :: _ => max_slots event' - slots_used event' < size
       end.
Proof.
  apply (periodic_pass_moves_whole_teams 50 100 queue_store queue_event);
    first [ reflexivity | lia | repeat constructor; simpl; lia ].
Defined.

Lemma promote_after_sweep (w : list (string * Z)) :
  forall (f : Z) (t : dict Z) (u : Z) w1 t1 u1,
    sweep_waitlist w f t u = (w1, t1, u1) ->
    let '(w2, t2, u2, _) := promote_waitlist w1 (f - (u1 - u)) t1 u1 in
    let '(w3, t3, u3, _) := promote_waitlist w f t u in
    (w2, t2, u2) = (w3, t3, u3).
Proof.
  induction w as [|[n z] r IH]; intros f t u w1 t1 u1 H; simpl in H.
  - injection H as <- <- <-. reflexivity.
  - destruct (f >? 0) eqn:Hf.
    + destruct (z <=? f) eqn:Hzf.
      * specialize (IH _ _ _ _ _ _ H).
        replace (f - z - (u1 - (u + z))) with (f - (u1 - u)) in IH by lia.
        simpl promote_waitlist at 2. rewrite Hf, Hzf.
        destruct (promote_waitlist w1 _ _ _) as [[[w2 t2] u2] p2].
        destruct (promote_waitlist r _ _ _) as [[[w3 t3] u3] p3].
        exact IH.
      * injection H as <- <- <-. replace (f - (u - u)) with f by lia.
        now destruct (promote_waitlist _ _ _ _) as [[[w2 t2] u2] p2].
    + injection H as <- <- <-. replace (f - (u - u)) with f by lia.
      now destruct (promote_waitlist _ _ _ _) as [[[w2 t2] u2] p2].
Qed.

(** X7.  The periodic pass is a first part of the promoter: on an event that
    has not expired, promoting into all the room after a periodic pass
    leaves the very store that promoting at once leaves. *)
Theorem periodic_pass_then_promotion
  (now expiry : Z) (s : Store) (event event1 : Event) :
  get_event s = Some event ->
  expiry_date event = Some expiry ->
  now <= expiry ->
  event_data (check_waitlist_and_expiry now s) = Some event1 ->
  process_waitlist_after_change (max_slots event1 - slots_used event1)
    (check_waitlist_and_expiry now s)
  = process_waitlist_after_change (max_slots event - slots_used event) s.
Proof.
  intros He Hx Hnow. unfold check_waitlist_and_expiry. rewrite He, Hx.
  destruct (now >? expiry) eqn:Hn; zbool; [lia|].
  destruct ((slots_used event <? max_slots event)
            && match waitlist event with [] => false | _ => true end)%bool eqn:Hg.
  - destruct (sweep_waitlist _ _ _ _) as [[w1 t1] u1] eqn:E.
    intro H1. simpl in H1. injection H1 as <-.
    apply Bool.andb_true_iff in Hg. destruct Hg as [Hlt Hne]. zbool.
    pose proof (promote_after_sweep _ _ _ _ _ _ _ E) as Hp.
    unfold process_waitlist_after_change.
    erewrite get_event_same_header; [|exact He|reflexivity|reflexivity].
    rewrite He. simpl.
    replace (max_slots event - slots_used event <=? 0) with false
      by (symmetry; apply Z.leb_gt; lia).
    replace (match waitlist event with [] => true | _ :: _ => false end) with false
      by (now destruct (waitlist event)).
    simpl.
    replace (max_slots event - slots_used event - (u1 - slots_used event))
      with (max_slots event - u1) in Hp by lia.
    assert (Hsame : promote_event (max_slots event - u1)
                      (with_slots_used (with_teams (with_waitlist event w1) t1) u1)
                    = promote_event (max_slots event - slots_used event) event).
    { unfold promote_event. simpl.
      destruct (promote_waitlist w1 _ _ _) as [[[w2 t2] u2] p2].
      destruct (promote_waitlist (waitlist event) _ _ _) as [[[w3 t3] u3] p3].
      now injection Hp as -> -> ->. }
    destruct ((max_slots event - u1 <=? 0)
              || match w1 with [] => true | _ => false end)%bool eqn:Hg1.
    + rewrite <- Hsame. rewrite promote_event_idle; [reflexivity|].
      simpl. apply Bool.orb_true_iff in Hg1. destruct Hg1 as [Hg1|Hg1].
      * zbool. now left.
      * right. now destruct w1.
    + now rewrite Hsame.
  - intro H1. rewrite (get_event_Some s event He) in H1. now injection H1 as <-.
Qed.

Lemma periodic_pass_then_promotion_witness :
  process_waitlist_after_change 1 (check_waitlist_and_expiry 50 queue_store)
  = process_waitlist_after_change 6 queue_store.
Proof.
  apply (periodic_pass_then_promotion 50 100 queue_store queue_event
           (mkEvent "Cup" "01.01.2030" "20:00" "" [("omega", 14); ("alpha", 5)]
                    [("beta", 3)] 20 19 9 (Some 100)));
    first [ reflexivity | lia ].
Defined.

(** ** Each team's total *)

Lemma roster_total_dict_set (q : string) (t : dict Z) (k : string) (v : Z) :
  roster_total q (dict_set t k v)
  = roster_total q t
    + (if (lower k =? q)%string then v - dict_get_default t k 0 else 0).
Proof.
  unfold roster_total, roster_matches, dict_get_default.
  induction t as [|[k' v'] r IH]; simpl.
  - destruct (lower k =? q)%string; simpl; lia.
  - destruct (String.eqb_spec k' k) as [->|Hne]; simpl.
    + destruct (lower k =? q)%string; simpl; lia.
    + destruct (lower k' =? q)%string; simpl; rewrite IH; lia.
Qed.

Lemma roster_total_dict_pop (q : string) (t : dict Z) (k : string) :
  roster_total q (dict_pop t k)
  = roster_total q t
    - (if (lower k =? q)%string then dict_get_default t k 0 else 0).
Proof.
  unfold roster_total, roster_matches, dict_get_default.
  induction t as [|[k' v'] r IH]; simpl.
  - destruct (lower k =? q)%string; simpl; lia.
  - destruct (String.eqb_spec k' k) as [->|Hne]; simpl.
    + destruct (lower k =? q)%string; simpl; lia.
    + destruct (lower k' =? q)%string; simpl; rewrite IH; lia.
Qed.

Lemma roster_size_total (q : string) (t : dict Z) :
  (List.length (filter (roster_matches q) t) <= 1)%nat ->
  roster_size q t = roster_total q t.
Proof.
  unfold roster_size, roster_total, find_ci, roster_matches.
  induction t as [|[k v] r IH]; simpl; [reflexivity|].
  destruct (lower k =? q)%string; simpl; [|exact IH].
  intro H. destruct (filter _ r); simpl in *; lia.
Qed.

Lemma waitlist_total_list_set (q : string) (p : string * Z -> bool)
  (w : list (string * Z)) (x : Z) :
  forall k i n z, find_index_from p k w = Some (i, (n, z)) ->
    waitlist_total q (list_set w (i - k)%nat (n, x))
    = waitlist_total q w + (if (lower n =? q)%string then x - z else 0).
Proof.
  unfold waitlist_total, waitlist_matches.
  induction w as [|[n' z'] r IH]; intros k i n z H; simpl in H; [discriminate|].
  destruct (p (n', z')).
  - injection H as <- <- <-. rewrite Nat.sub_diag. simpl.
    destruct (lower n' =? q)%string; simpl; lia.
  - pose proof (find_index_from_ge _ _ _ _ _ H) as Hge.
    replace (i - k)%nat with (S (i - S k)) by lia. simpl.
    specialize (IH _ _ _ _ H).
    destruct (lower n' =? q)%string; simpl; rewrite IH; lia.
Qed.

Lemma waitlist_total_list_pop (q : string) (p : string * Z -> bool)
  (w : list (string * Z)) :
  forall k i n z, find_index_from p k w = Some (i, (n, z)) ->
    waitlist_total q (list_pop w (i - k)%nat)
    = waitlist_total q w - (if (lower n =? q)%string then z else 0).
Proof.
  unfold waitlist_total, waitlist_matches.
  induction w as [|[n' z'] r IH]; intros k i n z H; simpl in H; [discriminate|].
  destruct (p (n', z')).
  - injection H as <- <- <-. rewrite Nat.sub_diag. simpl.
    destruct (lower n' =? q)%string; simpl; lia.
  - pose proof (find_index_from_ge _ _ _ _ _ H) as Hge.
    replace (i - k)%nat with (S (i - S k)) by lia. simpl.
    specialize (IH _ _ _ _ H).
    destruct (lower n' =? q)%string; simpl; rewrite IH; lia.
Qed.

Lemma waitlist_total_without (q q' : string) (w : list (string * Z)) :
  q' <> q ->
  waitlist_total q' (filter (fun e => negb (waitlist_matches q e)) w) = waitlist_total q' w.
Proof.
  intro Hne. unfold waitlist_total, waitlist_matches.
  induction w as [|[n z] r IH]; simpl; [reflexivity|].
  destruct (String.eqb_spec (lower n) q) as [E|E]; simpl.
  - destruct (String.eqb_spec (lower n) q') as [E'|E']; [congruence|exact IH].
  - destruct (lower n =? q')%string; simpl; now rewrite IH.
Qed.

Lemma promote_waitlist_team (q : string) (w : list (string * Z)) :
  forall (f : Z) (t : dict Z) (u : Z) w' t' u' pr,
    promote_waitlist w f t u = (w', t', u', pr) ->
    roster_total q t' + waitlist_total q w' = roster_total q t + waitlist_total q w.
Proof.
  induction w as [|[n z] r IH]; intros f t u w' t' u' pr H; simpl in H.
  - now injection H as <- <- <- <-.
  - destruct (f >? 0).
    + destruct (z <=? f).
      * destruct (promote_waitlist r _ _ _) as [[[w1 t1] u1] p1] eqn:E.
        injection H as <- <- <- <-. rewrite (IH _ _ _ _ _ _ _ E).
        rewrite roster_total_dict_set. unfold waitlist_total, waitlist_matches. simpl.
        destruct (lower n =? q)%string; simpl; lia.
      * injection H as <- <- <- <-.
        rewrite roster_total_dict_set. unfold waitlist_total, waitlist_matches. simpl.
        destruct (lower n =? q)%string; simpl; lia.
    + now injection H as <- <- <- <-.
Qed.

Lemma sweep_waitlist_team (q : string) (w : list (string * Z)) :
  forall (f : Z) (t : dict Z) (u : Z) w' t' u',
    sweep_waitlist w f t u = (w', t', u') ->
    roster_total q t' + waitlist_total q w' = roster_total q t + waitlist_total q w.
Proof.
  induction w as [|[n z] r IH]; intros f t u w' t' u' H; simpl in H.
  - now injection H as <- <- <-.
  - destruct (f >? 0).
    + destruct (z <=? f).
      * rewrite (IH _ _ _ _ _ _ H).
        rewrite roster_total_dict_set. unfold waitlist_total, waitlist_matches. simpl.
        destruct (lower n =? q)%string; simpl; lia.
      * now injection H as <- <- <-.
    + now injection H as <- <- <-.
Qed.

(** The total of a team in a tidy event, key by key. *)
Lemma tidy_total (event : Event) (q : string) :
  tidy event ->
  total_size (team_total event q)
  = roster_total q (teams event) + waitlist_total q (waitlist event).
Proof.
  intros (H1 & H2 & H3 & H4). unfold team_total. simpl.
  rewrite roster_size_total; [reflexivity|]. now apply tidy_single.
Qed.

Lemma reported_total_tidy (event : Event) (p : string) :
  tidy event ->
  reported_total event p
  = Some (roster_total (lower (strip p)) (teams event)
          + waitlist_total (lower (strip p)) (waitlist event)).
Proof.
  intro Ht. unfold reported_total. rewrite get_team_total_size_stored. simpl.
  f_equal. exact (tidy_total event _ Ht).
Qed.

Lemma promote_event_team (q : string) (f : Z) (event : Event) :
  roster_total q (teams (promote_event f event))
  + waitlist_total q (waitlist (promote_event f event))
  = roster_total q (teams event) + waitlist_total q (waitlist event).
Proof.
  unfold promote_event.
  destruct (promote_waitlist _ _ _ _) as [[[w t] u] pr] eqn:E. simpl.
  exact (promote_waitlist_team q _ _ _ _ _ _ _ _ E).
Qed.

(** X8.  Promotion changes where the members of a team are counted, never
    how many they are: in an event with lower-case names and no name twice,
    [get_team_total_size] reports the same total for every team before and
    after [process_waitlist_after_change]. *)
Theorem promotion_conserves_team_totals
  (free_slots : Z) (s : Store) (event : Event) (team_name : string) :
  get_event s = Some event ->
  tidy event ->
  exists event',
    event_data (process_waitlist_after_change free_slots s) = Some event'
    /\ reported_total event' team_name = reported_total event team_name.
Proof.
  intros He Ht. unfold process_waitlist_after_change. rewrite He.
  destruct (_ || _)%bool.
  - exists event. split; [now apply get_event_Some | reflexivity].
  - exists (promote_event free_slots event). split; [reflexivity|].
    rewrite !reported_total_tidy; auto using promote_event_tidy.
    f_equal. apply promote_event_team.
Qed.

Lemma promotion_conserves_team_totals_witness :
  exists event',
    event_data (process_waitlist_after_change 6 queue_store) = Some event'
    /\ reported_total event' "Beta" = reported_total queue_event "Beta".
Proof.
  apply (promotion_conserves_team_totals 6 queue_store queue_event "Beta");
    [ reflexivity | ].
  unfold tidy, names_lower. simpl.
  repeat split; repeat constructor; simpl; intuition discriminate.
Defined.

(** Sample events are tidy by evaluation. *)
Ltac tidy_by_evaluation :=
  unfold tidy, names_lower; simpl;
  repeat split; repeat constructor; simpl; intuition discriminate.

(** ** A request leaves the other teams alone *)

Lemma other_key (q q' k : string) :
  (lower k =? q)%string = true -> q' <> q -> (lower k =? q')%string = false.
Proof.
  intros Hk Hne. apply String.eqb_eq in Hk. apply String.eqb_neq. congruence.
Qed.

Lemma add_to_roster_other (event : Event) (q q' : string) (amount : Z) :
  lower q = q -> q' <> q ->
  let event' := add_to_roster event (option_map fst (find_ci (teams event) q)) q amount in
  roster_total q' (teams event') = roster_total q' (teams event)
  /\ waitlist event' = waitlist event.
Proof.
  intros Hq Hne. unfold add_to_roster.
  assert (Hself : (lower q =? q')%string = false).
  { apply String.eqb_neq. congruence. }
  destruct (find_ci (teams event) q) as [[r v]|] eqn:E; simpl.
  - pose proof (other_key q q' r (find_ci_key _ _ _ _ E) Hne) as Hr.
    destruct (truthy r); simpl; rewrite roster_total_dict_set.
    + rewrite Hr. split; [lia | reflexivity].
    + rewrite Hself. split; [lia | reflexivity].
  - rewrite roster_total_dict_set, Hself. split; [lia | reflexivity].
Qed.

Lemma increase_team_size_other
  (event : Event) (q q' : string) (total : TeamTotal) (d : Z) :
  lower q = q -> q' <> q ->
  roster_total q' (teams (increase_team_size event q total d))
  = roster_total q' (teams event)
  /\ waitlist_total q' (waitlist (increase_team_size event q total d))
     = waitlist_total q' (waitlist event).
Proof.
  intros Hq Hne. unfold increase_team_size.
  assert (Hself : (lower q =? q')%string = false).
  { apply String.eqb_neq. congruence. }
  assert (Happ : forall z, waitlist_total q' (waitlist event ++ [(q, z)])
                           = waitlist_total q' (waitlist event)).
  { intro z. rewrite waitlist_total_app. unfold waitlist_total, waitlist_matches.
    simpl. rewrite Hself. simpl. lia. }
  destruct (d <=? max_slots event - slots_used event).
  - destruct (add_to_roster_other event q q' d Hq Hne) as [E1 E2].
    now rewrite E1, E2.
  - pose proof (add_to_roster_other event q q' (max_slots event - slots_used event)
                  Hq Hne) as [E1 E2].
    destruct (find_index_from (waitlist_matches q) 0 (waitlist event))
      as [[i [n z]]|] eqn:E; simpl.
    + destruct (truthy n); simpl; rewrite E1, E2; [|now rewrite Happ].
      split; [reflexivity|].
      pose proof (waitlist_total_list_set q' _ (waitlist event)
                    (waitlist_size total + (d - (max_slots event - slots_used event)))
                    _ _ _ _ E) as Hset.
      rewrite Nat.sub_0_r in Hset. rewrite Hset.
      destruct (find_index_from_filter _ _ _ _ _ E) as [Hm _].
      unfold waitlist_matches in Hm. simpl in Hm.
      rewrite (other_key q q' n Hm Hne). lia.
    + rewrite E1, E2. now rewrite Happ.
Qed.

Lemma reduce_waitlist_other
  (event : Event) (q q' : string) (total : TeamTotal) (wr : Z) :
  q' <> q ->
  teams (reduce_waitlist event q total wr) = teams event
  /\ waitlist_total q' (waitlist (reduce_waitlist event q total wr))
     = waitlist_total q' (waitlist event).
Proof.
  intro Hne. unfold reduce_waitlist.
  destruct (find_index_from (waitlist_matches q) 0 (waitlist event))
    as [[i [n z]]|] eqn:E; [|now split].
  destruct (find_index_from_filter _ _ _ _ _ E) as [Hm _].
  unfold waitlist_matches in Hm. simpl in Hm.
  pose proof (other_key q q' n Hm Hne) as Hn.
  destruct (_ && _)%bool; [|now split].
  destruct (waitlist_size total - wr >? 0); simpl; (split; [reflexivity|]).
  - pose proof (waitlist_total_list_set q' _ (waitlist event)
                  (waitlist_size total - wr) _ _ _ _ E) as Hset.
    rewrite Nat.sub_0_r in Hset. rewrite Hset, Hn. lia.
  - pose proof (waitlist_total_list_pop q' _ (waitlist event) _ _ _ _ E) as Hpop.
    rewrite Nat.sub_0_r in Hpop. rewrite Hpop, Hn. lia.
Qed.

Lemma reduce_roster_other
  (event : Event) (q q' : string) (total : TeamTotal) (er : Z) :
  q' <> q ->
  roster_total q' (teams (reduce_roster event q total er))
  = roster_total q' (teams event)
  /\ waitlist (reduce_roster event q total er) = waitlist event.
Proof.
  intro Hne. unfold reduce_roster.
  destruct (find_ci (teams event) q) as [[r v]|] eqn:E; simpl; [|now split].
  pose proof (other_key q q' r (find_ci_key _ _ _ _ E) Hne) as Hr.
  destruct (_ && _)%bool; [|now split].
  destruct (event_size total - er >? 0); simpl.
  - rewrite roster_total_dict_set, Hr. split; [lia | reflexivity].
  - rewrite roster_total_dict_pop, Hr. split; [lia | reflexivity].
Qed.

Lemma unregister_team_other
  (event : Event) (asg : dict string) (q q' : string) (total : TeamTotal) :
  q' <> q ->
  roster_total q' (teams (fst (unregister_team event asg q total)))
  = roster_total q' (teams event)
  /\ waitlist_total q' (waitlist (fst (unregister_team event asg q total)))
     = waitlist_total q' (waitlist event).
Proof.
  intro Hne. unfold unregister_team. simpl.
  assert (H1 : roster_total q' (teams (remove_roster_entry event q total))
               = roster_total q' (teams event)
               /\ waitlist (remove_roster_entry event q total) = waitlist event).
  { unfold remove_roster_entry.
    destruct (event_size total >? 0); [|now split].
    destruct (find_ci (teams event) q) as [[r v]|] eqn:E; [|now split].
    simpl. rewrite roster_total_dict_pop.
    rewrite (other_key q q' r (find_ci_key _ _ _ _ E) Hne). split; [lia | reflexivity]. }
  destruct H1 as [E1 E2]. unfold remove_waitlist_entries.
  destruct (waitlist_size total >? 0); simpl; [|now rewrite E1, E2].
  rewrite E1, E2. split; [reflexivity|].
  pose proof (pop_collected_indices (waitlist_matches q) (waitlist event) []) as Hpop.
  simpl in Hpop. rewrite Hpop. now apply waitlist_total_without.
Qed.

Lemma apply_team_size_other
  (i : Interaction) (q q' : string) (n : Z) (event : Event) (asg : dict string)
  (total : TeamTotal) :
  lower q = q -> q' <> q ->
  exists event',
    event_data (apply_team_size i q n event asg total) = Some event'
    /\ roster_total q' (teams event') + waitlist_total q' (waitlist event')
       = roster_total q' (teams event) + waitlist_total q' (waitlist event).
Proof.
  intros Hq Hne. unfold apply_team_size.
  match goal with
  | |- context [if ?c then dict_set asg ?k ?v else asg] =>
      generalize (if c then dict_set asg k v else asg); intro asg'
  end.
  assert (Hpromote : forall f e,
            roster_total q' (teams e) + waitlist_total q' (waitlist e)
            = roster_total q' (teams event) + waitlist_total q' (waitlist event) ->
            exists event',
              event_data (process_waitlist_after_change f (mkStore (Some e) asg'))
              = Some event'
              /\ roster_total q' (teams event') + waitlist_total q' (waitlist event')
                 = roster_total q' (teams event) + waitlist_total q' (waitlist event)).
  { intros f e Hsame.
    destruct (process_waitlist_after_change_cases f e asg') as [-> | ->].
    - now exists e.
    - exists (promote_event f e). split; [reflexivity|].
      now rewrite promote_event_team. }
  destruct (n =? 0).
  - pose proof (unregister_team_other event asg' q q' total Hne) as [E1 E2].
    destruct (unregister_team event asg' q total) as [e2 asg2]. simpl in E1, E2.
    destruct (event_size total >? 0).
    + destruct (process_waitlist_after_change_cases (event_size total) e2 asg2)
        as [-> | ->].
      * exists e2. split; [reflexivity | lia].
      * exists (promote_event (event_size total) e2). split; [reflexivity|].
        rewrite promote_event_team. lia.
    + exists e2. split; [reflexivity | lia].
  - destruct (n - total_size total =? 0); [now exists event|].
    destruct (n - total_size total >? 0).
    + destruct (increase_team_size_other event q q' total (n - total_size total) Hq Hne)
        as [E1 E2].
      eexists. split; [reflexivity | lia].
    + unfold decrease_team_size.
      set (wr := Z.min _ _). set (er := _ - wr).
      pose proof (reduce_waitlist_other event q q' total wr Hne) as [E1 E2].
      pose proof (reduce_roster_other (reduce_waitlist event q total wr) q q' total er Hne)
        as [E3 E4].
      assert (Hsame : roster_total q' (teams (reduce_roster (reduce_waitlist event q total wr)
                                                q total er))
                      + waitlist_total q' (waitlist (reduce_roster
                                                       (reduce_waitlist event q total wr)
                                                       q total er))
                      = roster_total q' (teams event) + waitlist_total q' (waitlist event)).
      { rewrite E3, E4, E1, E2. reflexivity. }
      destruct (er >? 0); [now apply Hpromote|].
      eexists. split; [reflexivity | exact Hsame].
Qed.

(** X9.  A request about one team never changes how many members any other
    team has: whatever [update_team_size] does for team [team_name]
    (registration, growth, shrinking, cancellation, and the promotion that
    follows), [get_team_total_size] reports for every other team the total
    it reported before. *)
Theorem update_team_size_leaves_other_teams
  (i : Interaction) (team_name : string) (new_size : Z) (is_admin : bool)
  (s s' : Store) (ok : bool) (event : Event) (other : string) :
  get_event s = Some event ->
  tidy event ->
  lower (strip other) <> lower (strip team_name) ->
  update_team_size i team_name new_size is_admin s = Some (ok, s') ->
  exists event',
    event_data s' = Some event'
    /\ reported_total event' other = reported_total event other.
Proof.
  intros He Ht Hne H.
  assert (Hs : store_tidy s).
  { intros e Hs. rewrite (get_event_Some s event He) in Hs. now injection Hs as <-. }
  pose proof (update_team_size_tidy i team_name new_size is_admin s Hs ok s' H) as Ht'.
  destruct (passes_validation i team_name new_size is_admin s) eqn:Hp.
  - rewrite (update_team_size_accepted _ _ _ _ _ event He Hp) in H.
    injection H as _ <-.
    destruct (apply_team_size_other i (lower (strip team_name)) (lower (strip other))
                new_size event (user_team_assignments s)
                (team_total event (lower (strip team_name)))
                (lower_idem _) Hne) as (event' & E1 & E2).
    exists event'. split; [exact E1|].
    rewrite !reported_total_tidy; auto. now f_equal.
  - rewrite (update_team_size_rejected _ _ _ _ _ Hp) in H. injection H as _ <-.
    exists event. split; [now apply get_event_Some | reflexivity].
Qed.

Lemma update_team_size_leaves_other_teams_witness :
  exists event',
    event_data queue_without_alpha = Some event'
    /\ reported_total event' "Beta" = reported_total queue_event "Beta".
Proof.
  apply (update_team_size_leaves_other_teams alice "Alpha" 0 false queue_store
           queue_without_alpha true queue_event "Beta").
  - reflexivity.
  - tidy_by_evaluation.
  - intro H. vm_compute in H. discriminate.
  - reflexivity.
Defined.

(** ** What the admin form books *)

Lemma dict_mem_false_default (t : dict Z) (k : string) :
  dict_mem t k = false -> dict_get_default t k 0 = 0.
Proof.
  unfold dict_mem, dict_get_default. now destruct (dict_get t k).
Qed.

Lemma waitlist_total_new (name : string) (w : list (string * Z)) (z : Z) :
  waitlist_total (lower name) (w ++ [(name, z)])
  = waitlist_total (lower name) w + z.
Proof.
  rewrite waitlist_total_app. unfold waitlist_total at 2, waitlist_matches. simpl.
  rewrite String.eqb_refl. simpl. lia.
Qed.

(** X10.  An accepted [admin_add_team] books the whole team once: the size
    is between 1 and the team-size limit (which binds the organisers too),
    the people known to the event grow by exactly [size], the team's own
    total grows by [size], and the roster takes as much of the team as
    there is room for, nothing with [force_waitlist]. *)
Theorem admin_add_team_books
  (team_name : string) (size : Z) (discord_user_id : option string)
  (force_waitlist : bool) (s s' : Store) (event : Event) :
  get_event s = Some event ->
  slots_used event <= max_slots event ->
  admin_add_team team_name size discord_user_id force_waitlist s = (true, s') ->
  exists event',
    event_data s' = Some event'
    /\ 0 < size <= max_team_size event
    /\ headcount event' = headcount event + size
    /\ roster_total (lower team_name) (teams event')
       + waitlist_total (lower team_name) (waitlist event')
       = roster_total (lower team_name) (teams event)
         + waitlist_total (lower team_name) (waitlist event) + size
    /\ slots_used event'
       = (if force_waitlist then slots_used event
          else Z.min (slots_used event + size) (max_slots event))
    /\ max_slots event' = max_slots event.
Proof.
  intros He Hroom H. unfold admin_add_team in H. rewrite He in H.
  destruct (dict_mem (teams event) team_name) eqn:Hmem; [discriminate|].
  destruct (existsb _ _); [discriminate|].
  destruct ((size <=? 0) || (size >? max_team_size event))%bool eqn:Hsz; [discriminate|].
  apply Bool.orb_false_iff in Hsz. destruct Hsz as [Hs1 Hs2]. zbool.
  pose proof (dict_mem_false_default _ _ Hmem) as Hzero.
  destruct force_waitlist.
  - injection H as <-. eexists. split; [reflexivity|]. unfold headcount. simpl.
    rewrite sum_sizes_app, waitlist_total_new. simpl. repeat split; lia.
  - destruct (size <=? max_slots event - slots_used event) eqn:Hfit; zbool.
    + injection H as <-. eexists. split; [reflexivity|]. unfold headcount. simpl.
      rewrite roster_total_dict_set, String.eqb_refl, Hzero. repeat split; lia.
    + destruct (max_slots event - slots_used event >? 0) eqn:Hav; zbool;
        injection H as <-; (eexists; split; [reflexivity|]); unfold headcount; simpl.
      * rewrite sum_sizes_app, waitlist_total_new, roster_total_dict_set,
          String.eqb_refl, Hzero. simpl. repeat split; lia.
      * rewrite sum_sizes_app, waitlist_total_new. simpl. repeat split; lia.
Qed.

Lemma admin_add_team_books_witness :
  exists event',
    event_data (snd (admin_add_team "gamma" 9 None false queue_store)) = Some event'
    /\ 0 < 9 <= max_team_size queue_event
    /\ headcount event' = headcount queue_event + 9
    /\ roster_total (lower "gamma") (teams event')
       + waitlist_total (lower "gamma") (waitlist event')
       = roster_total (lower "gamma") (teams queue_event)
         + waitlist_total (lower "gamma") (waitlist queue_event) + 9
    /\ slots_used event' = Z.min (slots_used queue_event + 9) (max_slots queue_event)
    /\ max_slots event' = max_slots queue_event.
Proof.
  apply (admin_add_team_books "gamma" 9 None false queue_store _ queue_event);
    first [ reflexivity | simpl; lia ].
Defined.

Lemma find_ci_app_hit {V : Type} (d l : dict V) (q : string) (x : string * V) :
  find_ci d q = Some x -> find_ci (d ++ l)%list q = Some x.
Proof.
  unfold find_ci. induction d as [|[k v] r IH]; simpl; [discriminate|].
  now destruct (lower k =? q)%string.
Qed.

(** X11.  The duplicate test of [admin_add_team] compares names exactly,
    the lookups of [get_team_total_size] ignore case.  So when the roster
    holds a team under another casing of the name, the addition is accepted,
    a second key is stored and its members occupy slots, but the roster size
    reported for the team is still that of the first key. *)
Theorem admin_add_team_case_variant_is_hidden
  (team_name : string) (size : Z) (discord_user_id : option string)
  (s : Store) (event : Event) (registered_name : string) (registered_size : Z) :
  get_event s = Some event ->
  find_ci (teams event) (lower team_name) = Some (registered_name, registered_size) ->
  dict_mem (teams event) team_name = false ->
  existsb (fun e => (fst e =? team_name)%string) (waitlist event) = false ->
  0 < size <= max_team_size event ->
  size <= max_slots event - slots_used event ->
  exists s' event',
    admin_add_team team_name size discord_user_id false s = (true, s')
    /\ event_data s' = Some event'
    /\ teams event' = (teams event ++ [(team_name, size)])%list
    /\ slots_used event' = slots_used event + size
    /\ roster_size (lower team_name) (teams event') = registered_size.
Proof.
  intros He Hci Hmem Hwl [Hs1 Hs2] Hfit. unfold admin_add_team.
  rewrite He, Hmem, Hwl.
  replace (size <=? 0) with false by (symmetry; apply Z.leb_gt; lia).
  replace (size >? max_team_size event) with false
    by (symmetry; rewrite Z.gtb_ltb; apply Z.ltb_ge; lia).
  replace (size <=? max_slots event - slots_used event) with true
    by (symmetry; apply Z.leb_le; lia).
  simpl. eexists. eexists. split; [reflexivity|]. split; [reflexivity|]. simpl.
  assert (Hnew : dict_set (teams event) team_name size
                 = (teams event ++ [(team_name, size)])%list).
  { apply dict_set_new. unfold dict_mem in Hmem.
    now destruct (dict_get (teams event) team_name). }
  rewrite Hnew. repeat split.
  unfold roster_size. now rewrite (find_ci_app_hit _ _ _ _ Hci).
Qed.

Lemma admin_add_team_case_variant_is_hidden_witness :
  exists s' event',
    admin_add_team "Omega" 4 None false queue_store = (true, s')
    /\ event_data s' = Some event'
    /\ teams event' = (teams queue_event ++ [("Omega", 4)])%list
    /\ slots_used event' = slots_used queue_event + 4
    /\ roster_size (lower "Omega") (teams event') = 14.
Proof.
  apply (admin_add_team_case_variant_is_hidden "Omega" 4 None queue_store queue_event
           "omega" 14);
    first [ reflexivity | simpl; lia ].
Defined.

(** ** Who is released by a cancellation *)

Lemma fold_dict_pop_skip {V : Type} (keys : list string) :
  forall (k : string) (v : V) (r : dict V),
    ~ In k keys ->
    fold_left dict_pop keys ((k, v) :: r) = (k, v) :: fold_left dict_pop keys r.
Proof.
  induction keys as [|x xs IH]; intros k v r Hk; simpl; [reflexivity|].
  destruct (String.eqb_spec k x) as [->|Hne].
  - exfalso. apply Hk. now left.
  - apply IH. intro Hin. apply Hk. now right.
Qed.

Lemma release_users_filter (asg : dict string) (q : string) :
  NoDup (map fst asg) ->
  release_users asg q = filter (fun p => negb (lower (snd p) =? q)%string) asg.
Proof.
  unfold release_users. induction asg as [|[k v] r IH]; intro Hnd; simpl; [reflexivity|].
  inversion Hnd as [|? ? Hk Hr]; subst.
  destruct (lower v =? q)%string; simpl.
  - rewrite String.eqb_refl. now apply IH.
  - rewrite fold_dict_pop_skip; [now rewrite IH|].
    intro Hin. apply Hk. apply in_map_iff in Hin. destruct Hin as (p & <- & Hp).
    apply in_map. apply filter_In in Hp. tauto.
Qed.

Lemma process_waitlist_after_change_assignments (f : Z) (s : Store) :
  user_team_assignments (process_waitlist_after_change f s) = user_team_assignments s.
Proof.
  unfold process_waitlist_after_change.
  destruct (get_event s); [|reflexivity]. now destruct (_ || _)%bool.
Qed.

(** X12.  An accepted cancellation releases exactly the actors bound to the
    cancelled team, whatever the casing of their binding: the assignments
    left are the old ones without every entry whose team, lower-cased, is
    the cancelled name; all other bindings stay, in their order. *)
Theorem cancellation_releases_the_team
  (i : Interaction) (team_name : string) (is_admin : bool) (s : Store) :
  passes_validation i team_name 0 is_admin s = true ->
  NoDup (map fst (user_team_assignments s)) ->
  exists s',
    update_team_size i team_name 0 is_admin s = Some (true, s')
    /\ user_team_assignments s'
       = filter (fun p => negb (lower (snd p) =? lower (strip team_name))%string)
                (user_team_assignments s).
Proof.
  intros Hp Hnd.
  destruct (passes_validation_facts _ _ _ _ _ Hp) as (_ & _ & event & He).
  rewrite (update_team_size_accepted _ _ _ _ _ event He Hp).
  eexists. split; [reflexivity|].
  unfold apply_team_size. rewrite Bool.andb_false_r. simpl.
  match goal with |- context [if ?c then _ else _] => destruct c end.
  - rewrite process_waitlist_after_change_assignments. simpl.
    now apply release_users_filter.
  - simpl. now apply release_users_filter.
Qed.

Lemma cancellation_releases_the_team_witness :
  exists s',
    update_team_size alice "Alpha" 0 false queue_store = Some (true, s')
    /\ user_team_assignments s'
       = filter (fun p => negb (lower (snd p) =? lower (strip "Alpha"))%string)
                (user_team_assignments queue_store).
Proof.
  apply (cancellation_releases_the_team alice "Alpha" false queue_store);
    [ reflexivity | ].
  repeat constructor; simpl; intuition discriminate.
Defined.

(** ** Reopening the registration *)

Section Reopening.
Variables DEFAULT_MAX_SLOTS : Z.

(** X16.  [/open] by an organiser sets the limit to [DEFAULT_MAX_SLOTS],
    whatever it was, and fills the roster from the waitlist up to it: nobody
    is added or lost, and afterwards nobody waits or every slot is taken. *)
Theorem open_command_fills_to_default
  (i : Interaction) (s : Store) (event : Event) :
  get_event s = Some event ->
  organizer i = true ->
  slots_used event <= DEFAULT_MAX_SLOTS ->
  exists event',
    event_data (open_command DEFAULT_MAX_SLOTS i s) = Some event'
    /\ max_slots event' = DEFAULT_MAX_SLOTS
    /\ headcount event' = headcount event
    /\ (waitlist event' = [] \/ slots_used event' = DEFAULT_MAX_SLOTS).
Proof.
  intros He Hi Hle. unfold open_command. rewrite He, Hi. simpl.
  destruct (DEFAULT_MAX_SLOTS - slots_used event >? 0) eqn:Hav; zbool.
  - unfold process_waitlist_after_change.
    erewrite get_event_same_header; [|exact He|reflexivity|reflexivity].
    simpl.
    replace (DEFAULT_MAX_SLOTS - slots_used event <=? 0) with false
      by (symmetry; apply Z.leb_gt; lia).
    destruct (waitlist event) as [|e r] eqn:Ew; simpl.
    + eexists. split; [reflexivity|]. unfold headcount. simpl. rewrite Ew.
      repeat split. now left.
    + eexists. split; [reflexivity|]. unfold promote_event. simpl. rewrite Ew.
      destruct (promote_waitlist (e :: r) _ _ _) as [[[w t] u] pr] eqn:E.
      apply promote_waitlist_account in E. destruct E as (E1 & _ & _ & E4).
      unfold headcount. simpl. rewrite Ew.
      split; [reflexivity|]. split; [exact E1|].
      destruct (E4 Hav) as [->| ->]; [now left | right; lia].
  - eexists. split; [reflexivity|]. unfold headcount. simpl.
    repeat split. right. lia.
Qed.
End Reopening.

Lemma open_command_fills_to_default_witness :
  exists event',
    event_data (open_command 20 olaf queue_store) = Some event'
    /\ max_slots event' = 20
    /\ headcount event' = headcount queue_event
    /\ (waitlist event' = [] \/ slots_used event' = 20).
Proof.
  apply (open_command_fills_to_default 20 olaf queue_store queue_event);
    first [ reflexivity | simpl; lia ].
Defined.

(** ** The confirmation view of a cancellation *)

Lemma update_team_size_strip
  (i : Interaction) (q : string) (n : Z) (a : bool) (s : Store) :
  update_team_size i (strip q) n a s = update_team_size i q n a s.
Proof. unfold update_team_size. now rewrite strip_idem. Qed.

Lemma truthy_strip (q : string) : truthy (strip q) = true -> truthy q = true.
Proof. destruct q; [discriminate | reflexivity]. Qed.

Lemma responded_view_is_inert
  (b : Button) (i : Interaction) (view : TeamUnregisterConfirmationView) (s : Store) :
  has_responded view = true -> snd (press b i view s) = s.
Proof.
  intro H. destruct b; simpl.
  - unfold confirm_callback, check_response. rewrite H.
    now destruct (negb (truthy (view_team_name view))).
  - unfold cancel_callback, check_response. now rewrite H.
Qed.

(** X13.  A confirmation view cancels at most once.  The first
    confirmation of a view made for a non-blank name does what
    [update_team_size] does with size 0; after it, no button of that view
    changes the store any more, whatever the store has become meanwhile. *)
Theorem confirmation_view_acts_once
  (team_name : string) (is_admin : bool) (i : Interaction) (s : Store) :
  truthy (strip team_name) = true ->
  let first := confirm_callback i (new_unregister_view team_name is_admin) s in
  snd first
  = match update_team_size i team_name 0 is_admin s with
    | Some (_, s') => s'
    | None => s
    end
  /\ forall (b : Button) (i2 : Interaction) (s2 : Store),
       snd (press b i2 (fst first) s2) = s2.
Proof.
  intro Ht. pose proof (truthy_strip _ Ht) as Ht0.
  unfold confirm_callback, new_unregister_view, check_response. simpl.
  rewrite Ht0. simpl. rewrite Ht. simpl. rewrite update_team_size_strip.
  destruct (update_team_size i team_name 0 is_admin s) as [[ok s']|]; simpl;
    (split; [reflexivity|]); intros b i2 s2; now apply responded_view_is_inert.
Qed.

Lemma confirmation_view_acts_once_witness :
  let first := confirm_callback alice (new_unregister_view "Alpha" false) queue_store in
  snd first
  = match update_team_size alice "Alpha" 0 false queue_store with
    | Some (_, s') => s'
    | None => queue_store
    end
  /\ forall (b : Button) (i2 : Interaction) (s2 : Store),
       snd (press b i2 (fst first) s2) = s2.
Proof.
  apply (confirmation_view_acts_once "Alpha" false alice queue_store). reflexivity.
Defined.

(** ** The values of the admin team selection *)

Lemma dict_get_in_keys {V : Type} (d : dict V) (k : string) (v : V) :
  dict_get d k = Some v -> In k (map fst d).
Proof.
  induction d as [|[k' v'] r IH]; simpl; [discriminate|].
  destruct (String.eqb_spec k' k) as [->|Hne]; auto.
Qed.

Lemma selector_options_offered (s : Store) (value : string) :
  In value (get_team_options s) -> In value (selector_options s).
Proof.
  unfold selector_options. now destruct (get_team_options s).
Qed.

Lemma waitlist_value_decoded (m : string) :
  (("waitlist_" ++ m)%string =? "no_teams")%string = false
  /\ String.prefix "waitlist_" ("waitlist_" ++ m)%string = true
  /\ slice_from 9 ("waitlist_" ++ m)%string = m.
Proof.
  repeat split. simpl. now destruct m.
Qed.

(** X14.  The selection finds the team that was offered: the value of a
    roster team that is neither ["no_teams"] nor starts with ["waitlist_"]
    opens the edit form of that team with its roster size, and the value
    offered for a waitlist entry opens the form of the first waitlist entry
    of that name; submitting the form is [update_team_size] for that team
    with admin rights. *)
Theorem selected_team_is_the_offered_one (s : Store) (event : Event) :
  get_event s = Some event ->
  (forall team_name size,
     dict_get (teams event) team_name = Some size ->
     team_name <> "no_teams" ->
     String.prefix "waitlist_" team_name = false ->
     In team_name (selector_options s)
     /\ team_selected false team_name s = EditModal (new_team_edit_modal team_name size true))
  /\ (forall team_name stored_name size,
        find (fun entry => (fst entry =? team_name)%string) (waitlist event)
        = Some (stored_name, size) ->
        In ("waitlist_" ++ team_name)%string (selector_options s)
        /\ team_selected false ("waitlist_" ++ team_name)%string s
           = EditModal (new_team_edit_modal team_name size true))
  /\ (forall team_name size i new_size,
        team_edit_on_submit (new_team_edit_modal team_name size true) i (Some new_size) s
        = option_map snd (update_team_size i team_name new_size true s)).
Proof.
  intro He. split; [|split].
  - intros n z Hget Hno Hpre. split.
    + apply selector_options_offered. unfold get_team_options. rewrite He.
      apply in_or_app. left. exact (dict_get_in_keys _ _ _ Hget).
    + unfold team_selected. apply String.eqb_neq in Hno.
      now rewrite Hno, Hpre, He, Hget.
  - intros n n' z Hfind. split.
    + apply selector_options_offered. unfold get_team_options. rewrite He.
      apply in_or_app. right. apply find_some in Hfind. destruct Hfind as [Hin Heq].
      simpl in Heq. apply String.eqb_eq in Heq. subst n'.
      exact (in_map (fun entry => ("waitlist_" ++ fst entry)%string) _ _ Hin).
    + unfold team_selected.
      destruct (waitlist_value_decoded n) as (-> & -> & ->).
      now rewrite He, Hfind.
  - intros n z i new_size. unfold team_edit_on_submit, new_team_edit_modal. simpl.
    now rewrite update_team_size_strip.
Qed.

Lemma selected_team_is_the_offered_one_witness :
  (forall team_name size,
     dict_get (teams queue_event) team_name = Some size ->
     team_name <> "no_teams" ->
     String.prefix "waitlist_" team_name = false ->
     In team_name (selector_options queue_store)
     /\ team_selected false team_name queue_store
        = EditModal (new_team_edit_modal team_name size true))
  /\ (forall team_name stored_name size,
        find (fun entry => (fst entry =? team_name)%string) (waitlist queue_event)
        = Some (stored_name, size) ->
        In ("waitlist_" ++ team_name)%string (selector_options queue_store)
        /\ team_selected false ("waitlist_" ++ team_name)%string queue_store
           = EditModal (new_team_edit_modal team_name size true))
  /\ (forall team_name size i new_size,
        team_edit_on_submit (new_team_edit_modal team_name size true) i (Some new_size)
                            queue_store
        = option_map snd (update_team_size i team_name new_size true queue_store)).
Proof.
  apply (selected_team_is_the_offered_one queue_store queue_event). reflexivity.
Defined.

(** X15.  The value of a waitlist entry is its name behind the prefix
    ["waitlist_"], the value of a roster team is its bare name, and the
    selection tells them apart by the prefix alone.  So a roster team whose
    own name starts with ["waitlist_"] is offered, but selecting it is
    answered for the team named by the rest of its name: that team is
    looked up on the waitlist, and in removal mode the confirmation is
    made for it. *)
Theorem prefixed_roster_team_is_mistaken
  (s : Store) (event : Event) (rest : string) (size : Z) :
  get_event s = Some event ->
  dict_get (teams event) ("waitlist_" ++ rest)%string = Some size ->
  In ("waitlist_" ++ rest)%string (selector_options s)
  /\ team_selected true ("waitlist_" ++ rest)%string s
     = RemovalConfirmation (new_unregister_view rest true)
  /\ team_selected false ("waitlist_" ++ rest)%string s
     = match find (fun entry => (fst entry =? rest)%string) (waitlist event) with
       | Some (_, team_size) => EditModal (new_team_edit_modal rest team_size true)
       | None => WaitlistTeamNotFound rest
       end.
Proof.
  intros He Hget. split; [|split].
  - apply selector_options_offered. unfold get_team_options. rewrite He.
    apply in_or_app. left. exact (dict_get_in_keys _ _ _ Hget).
  - unfold team_selected. destruct (waitlist_value_decoded rest) as (-> & -> & ->).
    now rewrite He.
  - unfold team_selected. destruct (waitlist_value_decoded rest) as (-> & -> & ->).
    now rewrite He.
Qed.

Lemma prefixed_roster_team_is_mistaken_witness :
  In ("waitlist_" ++ "beta")%string (selector_options prefixed_store)
  /\ team_selected true ("waitlist_" ++ "beta")%string prefixed_store
     = RemovalConfirmation (new_unregister_view "beta" true)
  /\ team_selected false ("waitlist_" ++ "beta")%string prefixed_store
     = match find (fun entry => (fst entry =? "beta")%string) (waitlist prefixed_event) with
       | Some (_, team_size) => EditModal (new_team_edit_modal "beta" team_size true)
       | None => WaitlistTeamNotFound "beta"
       end.
Proof.
  apply (prefixed_roster_team_is_mistaken prefixed_store prefixed_event "beta" 4);
    reflexivity.
Defined.

(** ** Asking twice *)

Ltac header_cases :=
  repeat match goal with
         | |- context [match ?x with _ => _ end] => destruct x
         end;
  simpl; repeat split; reflexivity.

Lemma same_header_trans (e1 e2 e3 : Event) :
  same_header e1 e2 -> same_header e2 e3 -> same_header e1 e3.
Proof. unfold same_header. intuition congruence. Qed.

Lemma promote_event_header (f : Z) (event : Event) :
  same_header event (promote_event f event).
Proof.
  destruct (promote_event_fields f event) as (_ & H2 & _ & H4 & H5).
  now repeat split.
Qed.

Lemma unregister_team_header
  (event : Event) (asg : dict string) (q : string) (total : TeamTotal) :
  same_header event (fst (unregister_team event asg q total)).
Proof.
  unfold unregister_team, remove_waitlist_entries, remove_roster_entry, same_header.
  simpl. header_cases.
Qed.

Lemma increase_team_size_header (event : Event) (q : string) (total : TeamTotal) (d : Z) :
  same_header event (increase_team_size event q total d).
Proof.
  unfold increase_team_size, add_to_roster, same_header. header_cases.
Qed.

Lemma decrease_team_size_header (event : Event) (q : string) (total : TeamTotal) (d : Z) :
  same_header event (fst (decrease_team_size event q total d)).
Proof.
  unfold decrease_team_size, reduce_roster, reduce_waitlist, same_header.
  simpl. header_cases.
Qed.

Lemma apply_team_size_header
  (i : Interaction) (q : string) (n : Z) (event : Event) (asg : dict string)
  (total : TeamTotal) :
  exists event',
    event_data (apply_team_size i q n event asg total) = Some event'
    /\ same_header event event'.
Proof.
  unfold apply_team_size.
  match goal with
  | |- context [if ?c then dict_set asg ?k ?v else asg] =>
      generalize (if c then dict_set asg k v else asg); intro asg'
  end.
  assert (Hpromote : forall f e a,
            same_header event e ->
            exists event',
              event_data (process_waitlist_after_change f (mkStore (Some e) a)) = Some event'
              /\ same_header event event').
  { intros f e a He.
    destruct (process_waitlist_after_change_cases f e a) as [-> | ->].
    - now exists e.
    - exists (promote_event f e). split; [reflexivity|].
      exact (same_header_trans _ _ _ He (promote_event_header f e)). }
  destruct (n =? 0).
  - pose proof (unregister_team_header event asg' q total) as Hu.
    destruct (unregister_team event asg' q total) as [e2 asg2]. simpl in Hu.
    destruct (event_size total >? 0); [now apply Hpromote | now exists e2].
  - destruct (n - total_size total =? 0).
    + exists event. split; [reflexivity | now repeat split].
    + destruct (n - total_size total >? 0).
      * eexists. split; [reflexivity | apply increase_team_size_header].
      * pose proof (decrease_team_size_header event q total (n - total_size total)) as Hd.
        destruct (decrease_team_size event q total (n - total_size total)) as [e2 er].
        simpl in Hd.
        destruct (er >? 0); [now apply Hpromote | now exists e2].
Qed.

Lemma dict_get_filter {V : Type} (p : string * V -> bool) (d : dict V) (k : string) :
  NoDup (map fst d) ->
  dict_get (filter p d) k
  = match dict_get d k with
    | Some v => if p (k, v) then Some v else None
    | None => None
    end.
Proof.
  induction d as [|[k' v'] r IH]; intro Hnd; simpl; [reflexivity|].
  inversion Hnd as [|? ? Hk Hr]; subst.
  destruct (String.eqb_spec k' k) as [->|Hne].
  - destruct (p (k, v')) eqn:Hp; simpl.
    + now rewrite String.eqb_refl.
    + rewrite (IH Hr).
      destruct (dict_get r k) as [v|] eqn:Hg; [|reflexivity].
      exfalso. apply Hk. exact (dict_get_in_keys _ _ _ Hg).
  - destruct (p (k', v')); simpl; [|now apply IH].
    destruct (String.eqb_spec k' k) as [E|_]; [contradiction | now apply IH].
Qed.

Lemma filter_idem {A : Type} (p : A -> bool) (l : list A) :
  filter p (filter p l) = filter p l.
Proof.
  induction l as [|x r IH]; simpl; [reflexivity|].
  destruct (p x) eqn:Hp; simpl; [now rewrite Hp, IH | exact IH].
Qed.

Lemma NoDup_keys_filter {V : Type} (p : string * V -> bool) (d : dict V) :
  NoDup (map fst d) -> NoDup (map fst (filter p d)).
Proof.
  induction d as [|[k v] r IH]; intro Hnd; simpl; [constructor|].
  inversion Hnd as [|? ? Hk Hr]; subst.
  destruct (p (k, v)); simpl; [|now apply IH].
  constructor; [|now apply IH].
  intro Hin. apply Hk. apply in_map_iff in Hin. destruct Hin as (x & <- & Hx).
  apply in_map. apply filter_In in Hx. tauto.
Qed.

(** What [apply_team_size] leaves as the assignments. *)
Lemma apply_team_size_assignments
  (i : Interaction) (q : string) (n : Z) (event : Event) (asg : dict string)
  (total : TeamTotal) :
  NoDup (map fst asg) ->
  user_team_assignments (apply_team_size i q n event asg total)
  = if n =? 0
    then filter (fun p => negb (lower (snd p) =? q)%string) asg
    else if (total_size total =? 0) && (n >? 0)
         then dict_set asg (user_id i) q else asg.
Proof.
  intro Hnd. unfold apply_team_size.
  destruct (n =? 0) eqn:Hn0.
  - zbool. subst n. rewrite Bool.andb_false_r. simpl.
    match goal with |- context [if ?c then _ else _] => destruct c end.
    + rewrite process_waitlist_after_change_assignments. simpl.
      now apply release_users_filter.
    + simpl. now apply release_users_filter.
  - destruct ((total_size total =? 0) && (n >? 0))%bool;
      (destruct (n - total_size total =? 0); [reflexivity|]);
      (destruct (n - total_size total >? 0); [reflexivity|]);
      destruct (decrease_team_size _ _ _ _) as [e2 er];
      (destruct (er >? 0);
       [now rewrite process_waitlist_after_change_assignments | reflexivity]).
Qed.

(** X17.  Asking twice is asking once: after an accepted request the same
    request is accepted again and changes nothing, neither the event nor
    the assignments. *)
Theorem update_team_size_idempotent
  (D : Z) (i : Interaction) (team_name : string) (new_size : Z) (is_admin : bool)
  (s s1 : Store) (event : Event) :
  get_event s = Some event ->
  event_inv D event ->
  tidy event ->
  NoDup (map fst (user_team_assignments s)) ->
  update_team_size i team_name new_size is_admin s = Some (true, s1) ->
  update_team_size i team_name new_size is_admin s1 = Some (true, s1).
Proof.
  intros He Hinv Htidy Hnd H.
  destruct (passes_validation i team_name new_size is_admin s) eqn:Hp;
    [|rewrite (update_team_size_rejected _ _ _ _ _ Hp) in H; discriminate].
  destruct (passes_validation_facts _ _ _ _ _ Hp) as (Ht & Hn & _).
  rewrite (update_team_size_accepted _ _ _ _ _ event He Hp) in H.
  injection H as H. set (t := lower (strip team_name)) in *.
  assert (Hq : lower t = t) by apply lower_idem.
  destruct Hinv as (I1 & I2 & I3 & I4 & I5).
  destruct Htidy as (T1 & T2 & T3 & T4).
  (* the event that is left *)
  destruct (apply_team_size_total i t new_size event (user_team_assignments s)
              Hq Ht Hn I4 I5 (tidy_single t _ T1 T3) (tidy_single t _ T2 T4))
    as (event1 & E1 & Etot).
  destruct (apply_team_size_header i t new_size event (user_team_assignments s)
              (team_total event t)) as (event1' & E1' & Hh1 & Hh2 & Hh3).
  rewrite E1 in E1'. injection E1' as <-.
  pose proof (apply_team_size_inv D i t new_size event (user_team_assignments s)
                (conj I1 (conj I2 (conj I3 (conj I4 I5)))) Hq Ht Hn event1 E1)
    as (J1 & J2 & J3 & J4 & J5).
  pose proof (apply_team_size_assignments i t new_size event (user_team_assignments s)
                (team_total event t) Hnd) as Easg.
  rewrite H in E1, Easg.
  assert (He1 : get_event s1 = Some event1).
  { destruct s1 as [ed asg1]. simpl in E1. subst ed.
    exact (get_event_same_header s event event1 asg1 He Hh1 Hh2). }
  (* the request passes again *)
  assert (Hp1 : passes_validation i team_name new_size is_admin s1 = true).
  { unfold passes_validation in *. rewrite He in Hp. rewrite He1. fold t in Hp. fold t.
    rewrite Hh3.
    destruct (truthy (strip team_name)); [|discriminate]. simpl in *.
    repeat (apply Bool.andb_true_iff in Hp; destruct Hp as [Hp ?]).
    repeat (apply Bool.andb_true_iff; split); auto.
    destruct is_admin; [reflexivity|]. simpl in *.
    rewrite Easg. unfold dict_get_default in *.
    destruct (new_size =? 0) eqn:Hn0.
    - rewrite (dict_get_filter _ _ _ Hnd).
      destruct (dict_get (user_team_assignments s) (user_id i)) as [v|]; [|reflexivity].
      simpl. destruct (lower v =? t)%string eqn:Hv; simpl; [reflexivity|].
      now rewrite Hv in *.
    - match goal with
      | |- context [if ?c then dict_set _ _ _ else _] => destruct c
      end.
      + rewrite dict_get_set_same, Hq, String.eqb_refl.
        now rewrite Bool.andb_false_r.
      + assumption. }
  rewrite (update_team_size_accepted _ _ _ _ _ event1 He1 Hp1). fold t.
  f_equal. f_equal.
  (* and finds nothing to do *)
  pose proof (roster_size_nonneg t (teams event1) J4) as R0.
  pose proof (waitlist_total_nonneg t (waitlist event1) J5) as W0.
  simpl in Etot.
  destruct s1 as [ed asg1]. simpl in E1, Easg. subst ed.
  unfold apply_team_size. simpl total_size. simpl event_size. simpl waitlist_size.
  destruct (new_size =? 0) eqn:Hn0; zbool.
  - rewrite Hn0 in Etot |- *. rewrite Bool.andb_false_r.
    unfold unregister_team, remove_roster_entry, remove_waitlist_entries.
    simpl event_size. simpl waitlist_size.
    replace (roster_size t (teams event1)) with 0 by lia.
    replace (waitlist_total t (waitlist event1)) with 0 by lia.
    simpl. f_equal.
    rewrite release_users_filter.
    + rewrite Easg. apply filter_idem.
    + rewrite Easg. now apply NoDup_keys_filter.
  - rewrite Etot.
    replace (new_size =? 0) with false by (symmetry; apply Z.eqb_neq; lia).
    simpl. now rewrite Z.sub_diag.
Qed.

Lemma update_team_size_idempotent_witness :
  update_team_size alice "Alpha" 7 false queue_with_alpha_7
  = Some (true, queue_with_alpha_7).
Proof.
  apply (update_team_size_idempotent 20 alice "Alpha" 7 false queue_store
           queue_with_alpha_7 queue_event).
  - reflexivity.
  - unfold event_inv. simpl. repeat split; repeat constructor; simpl; lia.
  - tidy_by_evaluation.
  - repeat constructor; simpl; intuition discriminate.
  - reflexivity.
Defined.

(** ** Bindings that outlive their event *)

Section StaleBinding.
Variables DEFAULT_MAX_SLOTS DEFAULT_MAX_TEAM_SIZE : Z.

(** X18.  The expiry of an event leaves the actors bound to its teams, so
    in the event created next an actor bound to a team of the expired event
    cannot register or change any team of another name: the request is
    refused and the store stays as it is. *)
Theorem stale_binding_blocks_next_event
  (now expiry : Z) (s : Store) (event : Event) (i : Interaction) (bound_team : string)
  (name date time description : string) (event_date : option Z)
  (team_name : string) (new_size : Z) :
  get_event s = Some event ->
  expiry_date event = Some expiry ->
  expiry < now ->
  dict_get (user_team_assignments s) (user_id i) = Some bound_team ->
  truthy bound_team = true ->
  lower bound_team <> lower (strip team_name) ->
  let expired := check_waitlist_and_expiry now s in
  let next :=
    create_event_internal DEFAULT_MAX_SLOTS DEFAULT_MAX_TEAM_SIZE
                          name date time description event_date expired in
  event_data expired = None
  /\ user_team_assignments next = user_team_assignments s
  /\ update_team_size i team_name new_size false next = Some (false, next).
Proof.
  intros He Hx Hnow Hget Htb Hne. simpl.
  rewrite (check_waitlist_and_expiry_expired now s event expiry He Hx Hnow).
  split; [reflexivity|].
  assert (Hasg : user_team_assignments
                   (create_event_internal DEFAULT_MAX_SLOTS DEFAULT_MAX_TEAM_SIZE
                      name date time description event_date
                      (mkStore None (user_team_assignments s)))
                 = user_team_assignments s).
  { unfold create_event_internal. simpl. now destruct event_date. }
  split; [exact Hasg|].
  apply update_team_size_rejected. unfold passes_validation.
  destruct (truthy (strip team_name)); [|reflexivity]. simpl.
  match goal with
  | |- context [get_event ?x] => destruct (get_event x) as [e|]; [|reflexivity]
  end.
  rewrite Hasg. unfold dict_get_default. rewrite Hget. simpl.
  destruct (clan_rep i); [|reflexivity]. simpl.
  rewrite truthy_lower, Htb. simpl.
  apply String.eqb_neq in Hne. now rewrite Hne.
Qed.
End StaleBinding.

Lemma stale_binding_blocks_next_event_witness :
  let expired := check_waitlist_and_expiry 200 queue_store in
  let next :=
    create_event_internal 20 9 "Cup 2" "01.02.2030" "20:00" "" (Some 1000) expired in
  event_data expired = None
  /\ user_team_assignments next = user_team_assignments queue_store
  /\ update_team_size alice "Gamma" 4 false next = Some (false, next).
Proof.
  apply (stale_binding_blocks_next_event 20 9 200 100 queue_store queue_event alice "alpha");
    first [ reflexivity | lia | intro H; vm_compute in H; discriminate ].
Defined.

(** ** The unregister button *)

(** X19.  The unregister button ends in a cancellation.  Take an event
    whose roster sizes are not negative and whose waitlist sizes are
    positive, whose team-size limit is not negative, and in which the team
    the clan representative is bound to has at most one roster key and at
    most one waitlist entry (names compared without case); let the name of
    the binding carry no surrounding blanks and the assignments hold each
    actor once.  When the button then offers the confirmation, confirming
    is accepted, the team is left with no member on the roster or the
    waitlist, and the representative is bound to no team any more. *)
Theorem unregister_button_cancels_own_team
  (i : Interaction) (s : Store) (event : Event)
  (view : TeamUnregisterConfirmationView) (bound_team : string) :
  get_event s = Some event ->
  Forall (fun p => 0 <= snd p) (teams event) ->
  Forall (fun p => 0 < snd p) (waitlist event) ->
  (List.length (filter (roster_matches (lower bound_team)) (teams event)) <= 1)%nat ->
  (List.length (filter (waitlist_matches (lower bound_team)) (waitlist event)) <= 1)%nat ->
  0 <= max_team_size event ->
  NoDup (map fst (user_team_assignments s)) ->
  dict_get (user_team_assignments s) (user_id i) = Some bound_team ->
  strip bound_team = bound_team ->
  unregister_callback i s = Some view ->
  exists s' event',
    update_team_size i bound_team 0 false s = Some (true, s')
    /\ snd (confirm_callback i view s) = s'
    /\ event_data s' = Some event'
    /\ reported_total event' bound_team = Some 0
    /\ dict_get (user_team_assignments s') (user_id i) = None.
Proof.
  intros He Hnn Hpos Hr1 Hw1 Hmax Hnd Hget Hstrip Hview.
  unfold unregister_callback in Hview. rewrite He, Hget in Hview.
  destruct (clan_rep i) eqn:Hrep; [|discriminate]. simpl in Hview.
  destruct (truthy bound_team) eqn:Htt; [|discriminate]. simpl in Hview.
  destruct (dict_mem (teams event) bound_team
            || existsb (fun e => (fst e =? bound_team)%string) (waitlist event))%bool;
    [|discriminate].
  injection Hview as <-.
  set (t := lower bound_team) in *.
  assert (Hq : lower t = t) by apply lower_idem.
  assert (Ht : truthy t = true) by (unfold t; now rewrite truthy_lower).
  assert (Hnorm : lower (strip bound_team) = t) by now rewrite Hstrip.
  assert (Hp : passes_validation i bound_team 0 false s = true).
  { unfold passes_validation. rewrite Hstrip, Htt, He, Hrep. simpl.
    unfold dict_get_default. rewrite Hget. fold t.
    rewrite String.eqb_refl, Bool.andb_false_r.
    simpl. replace (0 >? max_team_size event) with false; [reflexivity|].
    symmetry. rewrite Z.gtb_ltb. apply Z.ltb_ge. lia. }
  pose proof (update_team_size_accepted _ _ _ _ _ event He Hp) as Hupd.
  rewrite Hnorm in Hupd.
  destruct (apply_team_size_total i t 0 event (user_team_assignments s)
              Hq Ht (Z.le_refl 0) Hnn Hpos Hr1 Hw1)
    as (event' & E1 & Etot).
  eexists; exists event'. split; [exact Hupd|]. split; [|split; [exact E1|split]].
  - unfold confirm_callback, new_unregister_view, check_response. simpl.
    rewrite Htt. simpl. rewrite Hstrip, Htt. simpl. now rewrite Hupd.
  - unfold reported_total. rewrite get_team_total_size_stored, Hnorm. simpl.
    simpl in Etot. now rewrite Etot.
  - rewrite (apply_team_size_assignments i t 0 event (user_team_assignments s)
               (team_total event t) Hnd). simpl.
    rewrite (dict_get_filter _ _ _ Hnd), Hget. simpl. fold t.
    now rewrite String.eqb_refl.
Qed.

Lemma unregister_button_cancels_own_team_witness :
  exists s' event',
    update_team_size alice "alpha" 0 false queue_store = Some (true, s')
    /\ snd (confirm_callback alice (new_unregister_view "alpha" false) queue_store) = s'
    /\ event_data s' = Some event'
    /\ reported_total event' "alpha" = Some 0
    /\ dict_get (user_team_assignments s') (user_id alice) = None.
Proof.
  apply (unregister_button_cancels_own_team alice queue_store queue_event
           (new_unregister_view "alpha" false) "alpha").
  - reflexivity.
  - repeat constructor; simpl; lia.
  - repeat constructor; simpl; lia.
  - simpl. lia.
  - simpl. lia.
  - simpl. lia.
  - repeat constructor; simpl; intuition discriminate.
  - reflexivity.
  - reflexivity.
  - reflexivity.
Defined.

(** ** The admin form *)

(** X20.  Whatever is typed into the admin form, the name it hands to
    [admin_add_team] is lower-case, so the form keeps a tidy event tidy:
    afterwards every team still has at most one roster key and at most one
    waitlist entry.  The slash command [/add_team] passes the name as typed
    and gives no such guarantee. *)
Theorem admin_form_keeps_one_entry_per_team
  (i : Interaction) (team_name_value : string) (team_size : option Z)
  (add_to_waitlist_value discord_user_value : string) (lookup : UserLookup)
  (s : Store) (event event' : Event) (team_name : string) :
  event_data s = Some event ->
  tidy event ->
  event_data (admin_team_create_on_submit i team_name_value team_size
                add_to_waitlist_value discord_user_value lookup s) = Some event' ->
  (List.length (filter (roster_matches team_name) (teams event')) <= 1)%nat
  /\ (List.length (filter (waitlist_matches team_name) (waitlist event')) <= 1)%nat.
Proof.
  intros He Ht H.
  assert (Hs : store_tidy s).
  { intros e Hs. rewrite He in Hs. now injection Hs as <-. }
  assert (Hadd : forall size uid fw,
            store_tidy (snd (admin_add_team (lower (strip team_name_value)) size uid fw s))).
  { intros size uid fw. apply admin_add_team_tidy; [apply lower_idem | exact Hs]. }
  assert (Ht' : tidy event').
  { unfold admin_team_create_on_submit in H.
    destruct (negb (organizer i)); [exact (Hs _ H)|].
    destruct team_size as [size|]; [|exact (Hs _ H)].
    destruct (truthy (strip discord_user_value)).
    - destruct lookup; [exact (Hadd _ _ _ _ H) | exact (Hs _ H) | exact (Hadd _ _ _ _ H)].
    - exact (Hadd _ _ _ _ H). }
  destruct Ht' as (T1 & T2 & T3 & T4). split; now apply tidy_single.
Qed.

Lemma admin_form_keeps_one_entry_per_team_witness :
  (List.length (filter (roster_matches "omega") (teams queue_event)) <= 1)%nat
  /\ (List.length (filter (waitlist_matches "omega") (waitlist queue_event)) <= 1)%nat.
Proof.
  apply (admin_form_keeps_one_entry_per_team olaf " Omega " (Some 4) "" "" NoGuild
           queue_store queue_event queue_event "omega").
  - reflexivity.
  - tidy_by_evaluation.
  - reflexivity.
Defined.

(** ** The registration form *)

(** X21.  The registration form adds no rule of its own: as long as the
    actor is bound to no team or to a team with a non-empty name, submitting
    the form with a number leaves the store that [update_team_size] leaves
    for the typed name and size without admin rights, refusals included. *)
Theorem registration_form_is_update_team_size
  (i : Interaction) (team_name_value : string) (size : Z) (s : Store) :
  (forall assigned,
     dict_get (user_team_assignments s) (user_id i) = Some assigned ->
     truthy assigned = true) ->
  team_registration_on_submit i team_name_value (Some size) s
  = option_map snd (update_team_size i team_name_value size false s).
Proof.
  intro Hbound. unfold team_registration_on_submit.
  rewrite update_team_size_strip.
  destruct (get_event s) as [event|] eqn:He.
  - destruct (dict_get (user_team_assignments s) (user_id i)) as [t|] eqn:Hget;
      [|reflexivity].
    destruct (lower t =? lower (strip team_name_value))%string eqn:Hsame;
      [reflexivity|]. simpl.
    rewrite update_team_size_rejected; [reflexivity|].
    unfold passes_validation. rewrite He.
    destruct (truthy (strip team_name_value)); [|reflexivity]. simpl.
    destruct (clan_rep i); [|reflexivity]. simpl.
    unfold dict_get_default. rewrite Hget, truthy_lower, (Hbound t eq_refl), Hsame.
    reflexivity.
  - rewrite update_team_size_rejected; [reflexivity|].
    unfold passes_validation. rewrite He. apply Bool.andb_false_r.
Qed.

Lemma registration_form_is_update_team_size_witness :
  team_registration_on_submit alice " Gamma " (Some 4) queue_store
  = option_map snd (update_team_size alice " Gamma " 4 false queue_store).
Proof.
  apply (registration_form_is_update_team_size alice " Gamma " 4 queue_store).
  intros assigned H. injection H as <-. reflexivity.
Defined.
